(** * bolt: the playbook execution engine

    A shallow embedding of the parts of [internal/playbook] and
    [internal/executor] that parse tasks, merge role variables, interpolate
    [{{ expr }}] templates, evaluate conditions and drive tasks, loops,
    retries and handlers, together with the properties the specification
    states about them.

    Conventions.
    - A Go [string] is a sequence of bytes: Rocq's [string].
    - A Go [int] is a 64-bit two's complement integer, carried as a [Z]; the
      operations that can leave the range are written with [wrap64].
    - A Go [map[string]T] is a [gmap string T]; where the code ranges over a
      map and the order can be observed, the order is an explicit argument.
    - A Go [error] is carried by its message.
    - Calls on [e.Output], module invocations and [time.Sleep] are recorded,
      in program order, in a trace of events.
    - A run-time panic is not a return: a call that can panic comes to an
      [ending], which is a return or the panic, and the panic goes up
      through the callers, none of which recovers, with the output
      written so far.  (The registry of [internal/module], whose
      [Register] panics on purpose, returns [None] there.) *)

From stdpp Require Import gmap strings list fin_maps sorting.
From Stdlib Require Import Ascii ZArith DecimalString Lia.

Set Warnings "-register-all".
Open Scope Z_scope.

(** ** Machine integers *)

Definition max_int : Z := 2 ^ 63 - 1.
Definition min_int : Z := - 2 ^ 63.

(** The value of a 64-bit signed integer after an overflowing operation. *)
Definition wrap64 (z : Z) : Z := (z + 2 ^ 63) mod 2 ^ 64 - 2 ^ 63.

Definition int_add (x y : Z) : Z := wrap64 (x + y).
Definition int_mul (x y : Z) : Z := wrap64 (x * y).

(** ** The [strings] package, on byte strings *)

Module GoStr.

Definition of_bytes (l : list nat) : string :=
  foldr (λ n s, String (ascii_of_nat n) s) "" l.

Fixpoint drop (n : nat) (s : string) : string :=
  match n, s with
  | O, _ => s
  | S n', String _ s' => drop n' s'
  | S _, EmptyString => EmptyString
  end.

Fixpoint take (n : nat) (s : string) : string :=
  match n, s with
  | S n', String c s' => String c (take n' s')
  | _, _ => EmptyString
  end.

(** Whether [s] begins with [p]. *)
Fixpoint prefix (p s : string) : bool :=
  match p with
  | EmptyString => true
  | String a p' =>
      match s with
      | EmptyString => false
      | String b s' => Ascii.eqb a b && prefix p' s'
      end
  end.

(** [s[lo:hi]] for [lo <= hi <= len(s)]. *)
Definition slice (lo hi : nat) (s : string) : string :=
  take (hi - lo) (drop lo s).

Definition HasPrefix (s p : string) : bool := prefix p s.

Definition HasSuffix (s p : string) : bool :=
  prefix (String.rev p) (String.rev s).

Fixpoint Contains (s sub : string) : bool :=
  prefix sub s
  || match s with
     | EmptyString => false
     | String _ s' => Contains s' sub
     end.

(** Byte offset of the first occurrence of [sub] in [s], or [-1]. *)
Fixpoint Index (s sub : string) : Z :=
  if prefix sub s then 0
  else match s with
       | EmptyString => -1
       | String _ s' =>
           let i := Index s' sub in
           if i <? 0 then -1 else 1 + i
       end.

(** Byte offset of the last occurrence of [sub] in [s], or [-1]. *)
Fixpoint LastIndex (s sub : string) : Z :=
  match s with
  | EmptyString => if prefix sub s then 0 else -1
  | String _ s' =>
      let i := LastIndex s' sub in
      if 0 <=? i then 1 + i
      else if prefix sub s then 0 else -1
  end.

(** The UTF-8 encodings of the code points for which [unicode.IsSpace]
    holds: U+0009..U+000D, U+0020, U+0085, U+00A0, U+1680,
    U+2000..U+200A, U+2028, U+2029, U+202F, U+205F, U+3000.  Their first
    bytes are never continuation bytes, so an occurrence at the front (or
    the back) of a string is the first (or the last) rune of the string. *)
Definition space_encodings : list string :=
  of_bytes <$>
    [ [9%nat]; [10%nat]; [11%nat]; [12%nat]; [13%nat]; [32%nat];
      [194; 133]; [194; 160]; [225; 154; 128];
      [226; 128; 128]; [226; 128; 129]; [226; 128; 130]; [226; 128; 131];
      [226; 128; 132]; [226; 128; 133]; [226; 128; 134]; [226; 128; 135];
      [226; 128; 136]; [226; 128; 137]; [226; 128; 138];
      [226; 128; 168]; [226; 128; 169]; [226; 128; 175];
      [226; 129; 159]; [227; 128; 128] ]%nat.

(** Removes one leading rune of [s] when it is one of [encs]. *)
Fixpoint strip_one (encs : list string) (s : string) : option string :=
  match encs with
  | [] => None
  | e :: encs' =>
      if prefix e s then Some (drop (String.length e) s)
      else strip_one encs' s
  end.

Fixpoint strip_all (fuel : nat) (encs : list string) (s : string) : string :=
  match fuel with
  | O => s
  | S fuel' =>
      match strip_one encs s with
      | Some s' => strip_all fuel' encs s'
      | None => s
      end
  end.

Definition TrimLeftSpace (s : string) : string :=
  strip_all (String.length s) space_encodings s.

Definition TrimRightSpace (s : string) : string :=
  String.rev
    (strip_all (String.length s) (String.rev <$> space_encodings)
       (String.rev s)).

Definition TrimSpace (s : string) : string :=
  TrimRightSpace (TrimLeftSpace s).

(** [strings.Trim(s, cutset)] for a cutset of ASCII bytes. *)
Definition in_cutset (cutset : string) (c : ascii) : bool :=
  Contains cutset (String c EmptyString).

Fixpoint trim_left_cut (cutset s : string) : string :=
  match s with
  | EmptyString => EmptyString
  | String c s' => if in_cutset cutset c then trim_left_cut cutset s' else s
  end.

Definition Trim (s cutset : string) : string :=
  String.rev (trim_left_cut cutset (String.rev (trim_left_cut cutset s))).

(** [strings.Split(s, sep)] for a one-byte separator. *)
Fixpoint split_go (sep : ascii) (cur : string) (s : string) : list string :=
  match s with
  | EmptyString => [String.rev cur]
  | String c s' =>
      if Ascii.eqb c sep then String.rev cur :: split_go sep EmptyString s'
      else split_go sep (String c cur) s'
  end.

Definition Split (s : string) (sep : ascii) : list string :=
  split_go sep EmptyString s.

(** [strings.Fields]: the maximal runs of non-space runes. *)
Fixpoint fields_go (skip : nat) (cur : option string) (s : string)
  : list string :=
  match s with
  | EmptyString => option_list (String.rev <$> cur)
  | String c s' =>
      match skip with
      | S k => fields_go k cur s'
      | O =>
          match strip_one space_encodings s with
          | Some r =>
              option_list (String.rev <$> cur)
                ++ fields_go (String.length s - String.length r - 1) None s'
          | None =>
              fields_go O (Some (String c (default EmptyString cur))) s'
          end
      end
  end.

Definition Fields (s : string) : list string := fields_go O None s.

Definition Join (parts : list string) (sep : string) : string :=
  String.concat sep parts.

End GoStr.

(** ** Dynamic values *)

(** The dynamic types a value of type [any] takes in the engine.  A
    [float64] is carried by its IEEE 754 bit pattern; [VOther] stands for a
    value of any other dynamic type and carries its default formatting. *)
Inductive value :=
| VNil
| VBool (b : bool)
| VString (s : string)
| VInt (z : Z)
| VInt64 (z : Z)
| VFloat64 (bits : Z)
| VList (l : list value)
| VMap (m : gmap string value)
| VStrMap (m : gmap string string)
| VOther (shown : string).

(** Functions of the Go standard library whose results no property below
    depends on. *)
Class GoLib := {
  (** [strings.ToLower], [strings.ToUpper] *)
  strings_ToLower : string → string;
  strings_ToUpper : string → string;
  (** the integer [fmt.Sscanf(v, "%d", &i)] leaves in [i] *)
  fmt_Sscan_d : string → Z;
  (** [int(v)] for a [float64] *)
  float64_to_int : Z → Z;
  (** [%v] of a [float64] *)
  fmt_float64 : Z → string
}.

Definition string_of_Z (z : Z) : string :=
  NilZero.string_of_int (Z.to_int z).

(** Keys of a printed map come in increasing byte order. *)
Definition sort_by_key {A} (l : list (string * A)) : list (string * A) :=
  merge_sort (λ a b, String.le a.1 b.1) l.

Definition show_entries (l : list (string * string)) : string :=
  "map[" +:+ GoStr.Join ((λ kv, kv.1 +:+ ":" +:+ kv.2) <$> sort_by_key l) " "
    +:+ "]".

(** [fmt.Sprintf("%v", v)] *)
Fixpoint formatValue {lib : GoLib} (v : value) : string :=
  match v with
  | VNil => "<nil>"
  | VBool b => if b then "true" else "false"
  | VString s => s
  | VInt z => string_of_Z z
  | VInt64 z => string_of_Z z
  | VFloat64 bits => fmt_float64 bits
  | VList l => "[" +:+ GoStr.Join (formatValue <$> l) " " +:+ "]"
  | VMap m => show_entries (map_to_list (formatValue <$> m))
  | VStrMap m => show_entries (map_to_list m)
  | VOther shown => shown
  end.

(** [isTruthy].  In the clause [case int, int64, float64] the variable
    [val] keeps the interface type of [v], so [val != 0] compares it with the
    constant [0] converted to [any], that is with the [int] zero: the
    comparison is by dynamic type first, and an [int64] or a [float64] never
    equals an [int]. *)
Definition isTruthy (v : value) : bool :=
  match v with
  | VNil => false
  | VBool b => b
  | VString s =>
      negb (String.eqb s "") && negb (String.eqb s "false")
      && negb (String.eqb s "False") && negb (String.eqb s "no")
  | VInt z => negb (z =? 0)
  | VInt64 _ => true
  | VFloat64 _ => true
  | VList l => bool_decide (0 < length l)%nat
  | VMap m => bool_decide (0 < size m)%nat
  | VStrMap _ => true
  | VOther _ => true
  end.

(** ** Package [playbook]: the model and its parser *)

Definition error := string.

Module Task.
(** [playbook.Task]; handlers are tasks too. *)
Record t := mk {
  Name : string;
  Module : string;
  Params : gmap string value;
  RolePath : string;
  When : string;
  Register : string;
  Notify : list string;
  Loop : list value;
  LoopVar : string;
  IgnoreErrors : bool;
  Retries : Z;
  Delay : Z;
  Become : option bool;
  BecomeUser : string;
  ChangedWhen : string;
  FailedWhen : string
}.

(** The zero value, with the empty parameter map [parseRawTask] starts
    from. *)
Definition empty : t :=
  mk "" "" ∅ "" "" "" [] [] "" false 0 0 None "" "" "".

Definition set_Module (m : string) (p : gmap string value) (x : t) : t :=
  mk (Name x) m p (RolePath x) (When x) (Register x) (Notify x) (Loop x)
     (LoopVar x) (IgnoreErrors x) (Retries x) (Delay x) (Become x)
     (BecomeUser x) (ChangedWhen x) (FailedWhen x).

Definition set_Params (p : gmap string value) (x : t) : t :=
  set_Module (Module x) p x.

(** [GetLoopVar] *)
Definition GetLoopVar (x : t) : string :=
  if String.eqb (LoopVar x) "" then "item" else LoopVar x.

(** [Validate] *)
Definition Validate (x : t) : option error :=
  if String.eqb (Module x) "" then Some "task has no module specified"
  else if Retries x <? 0 then Some "retries cannot be negative"
  else if Delay x <? 0 then Some "delay cannot be negative"
  else None.
End Task.

Module Role.
(** [playbook.Role] *)
Record t := mk {
  Name : string;
  Path : string;
  Tasks : list Task.t;
  Handlers : list Task.t;
  Vars : gmap string value;
  Defaults : gmap string value
}.
End Role.

Module Play.
(** [playbook.Play] *)
Record t := mk {
  Name : string;
  Hosts : string;
  Connection : string;
  Vars : gmap string value;
  Roles : list string;
  Tasks : list Task.t;
  Handlers : list Task.t;
  Become : bool;
  BecomeUser : string;
  GatherFacts : option bool
}.

Definition ShouldGatherFacts (p : t) : bool := default true (GatherFacts p).

Definition GetConnection (p : t) : string :=
  if String.eqb (Connection p) "" then "local" else Connection p.

Definition GetBecomeUser (p : t) : string :=
  if String.eqb (BecomeUser p) "" then "root" else BecomeUser p.
End Play.

Module Playbook.
Record t := mk { Path : string; Plays : list Play.t }.
End Playbook.

(** [knownTaskFields]: the task directives, which are not module names. *)
Definition knownTaskFields_keys : list string :=
  [ "name"; "when"; "register"; "notify"; "loop"; "with_items"; "loop_var";
    "ignore_errors"; "retries"; "delay"; "become"; "become_user";
    "changed_when"; "failed_when" ].

Definition knownTaskFields (key : string) : bool :=
  bool_decide (key ∈ knownTaskFields_keys).

(** The type assertions [raw[k].(string)], [.(bool)] and [.(int)], which
    leave the field at its zero value when they fail. *)
Definition raw_string (raw : gmap string value) (k : string) : string :=
  match raw !! k with Some (VString s) => s | _ => "" end.

Definition raw_bool (raw : gmap string value) (k : string) : option bool :=
  match raw !! k with Some (VBool b) => Some b | _ => None end.

Definition raw_int (raw : gmap string value) (k : string) : Z :=
  match raw !! k with Some (VInt z) => z | _ => 0 end.

Definition only_strings (l : list value) : list string :=
  omap (λ v, match v with VString s => Some s | _ => None end) l.

(** [notify] is a string or a list, of which the strings are kept. *)
Definition raw_notify (raw : gmap string value) : list string :=
  match raw !! "notify" with
  | Some (VString n) => [n]
  | Some (VList n) => only_strings n
  | _ => []
  end.

(** [loop], and [with_items] only when there is no [loop] key at all. *)
Definition raw_loop (raw : gmap string value) : list value :=
  match raw !! "loop" with
  | Some (VList items) => items
  | Some _ => []
  | None =>
      match raw !! "with_items" with
      | Some (VList items) => items
      | _ => []
      end
  end.

(** The parameters a module key's value stands for. *)
Definition module_params (v : value) : gmap string value :=
  match v with
  | VMap params => params
  | VString params => {[ "_raw" := VString params ]}
  | VNil => ∅
  | _ => {[ "_raw" := v ]}
  end.

(** The loop [for key, value := range raw] of [parseRawTask], over the
    entries in the order the iteration yields them. *)
Fixpoint find_module (order : list (string * value)) (task : Task.t)
  : error + Task.t :=
  match order with
  | [] => inr task
  | (key, v) :: rest =>
      if knownTaskFields key then find_module rest task
      else if negb (String.eqb (Task.Module task) "") then
        inl ("multiple modules specified: " +:+ Task.Module task
               +:+ " and " +:+ key)
      else find_module rest (Task.set_Module key (module_params v) task)
  end.

(** The first part of [parseRawTask]: the directives of [raw], read with
    type assertions, in a task without module and with empty parameters. *)
Definition directives (raw : gmap string value) : Task.t :=
  Task.mk (raw_string raw "name") "" ∅ "" (raw_string raw "when")
    (raw_string raw "register") (raw_notify raw) (raw_loop raw)
    (raw_string raw "loop_var")
    (default false (raw_bool raw "ignore_errors"))
    (raw_int raw "retries") (raw_int raw "delay")
    (raw_bool raw "become") (raw_string raw "become_user")
    (raw_string raw "changed_when") (raw_string raw "failed_when").

(** [parseRawTask].  Go leaves the order in which a map is ranged over
    unspecified: [order] is the order of this run, a permutation of the
    entries of [raw]. *)
Definition parseRawTask (order : list (string * value))
    (raw : gmap string value) : error + Task.t :=
  find_module order (directives raw).

(** The way of one task through [ParseRaw]: [parseRawTask] in
    [parseRawPlay], then [Task.Validate] in [Play.Validate]. *)
Definition parseTask (order : list (string * value))
    (raw : gmap string value) : error + Task.t :=
  match parseRawTask order raw with
  | inl e => inl e
  | inr task =>
      match Task.Validate task with
      | Some e => inl e
      | None => inr task
      end
  end.

Definition quote_cutset : string := GoStr.of_bytes [34; 39]%nat.

(** The [key=value] words of a shorthand argument, later ones winning. *)
Definition shorthand_pairs (parts : list string) : gmap string value :=
  foldl (λ newParams part,
           let idx := GoStr.Index part "=" in
           if 0 <? idx then
             <[ GoStr.take (Z.to_nat idx) part :=
                  VString (GoStr.Trim (GoStr.drop (Z.to_nat idx + 1) part)
                             quote_cutset) ]> newParams
           else newParams)
        ∅ parts.

(** [ExpandShorthand], which rewrites [task.Params] in place. *)
Definition ExpandShorthand (task : Task.t) : Task.t :=
  match Task.Params task !! "_raw" with
  | Some (VString raw) =>
      if negb (GoStr.Contains raw "=") then
        let key :=
          if String.eqb (Task.Module task) "command"
             || String.eqb (Task.Module task) "shell" then "cmd"
          else if String.eqb (Task.Module task) "file" then "path"
          else if String.eqb (Task.Module task) "copy" then "dest"
          else "name" in
        Task.set_Params {[ key := VString raw ]} task
      else Task.set_Params (shorthand_pairs (GoStr.Fields raw)) task
  | _ => task
  end.

(** [MergeRoleVars].  Each [for k, v := range m { merged[k] = v }] writes
    the entries of [m] into [merged]; the keys of a map are distinct, so the
    order of the writes does not show. *)
Definition merge_into (m merged : gmap string value) : gmap string value :=
  map_fold (λ k v acc, <[ k := v ]> acc) merged m.

Definition MergeRoleVars (roles : list Role.t) (playVars : gmap string value)
  : gmap string value :=
  let merged := foldl (λ acc role, merge_into (Role.Defaults role) acc) ∅ roles in
  let merged := foldl (λ acc role, merge_into (Role.Vars role) acc) merged roles in
  merge_into playVars merged.

(** ** Package [executor]: variables and templates *)

(** The connectors [getConnector] builds, with the options it passes. *)
Inductive connector :=
| LocalConn (sudo : option string)
| DockerConn (container : string) (user : option string).

Module PlayContext.
(** [executor.PlayContext] *)
Record t := mk {
  Play : Play.t;
  Vars : gmap string value;
  Facts : gmap string value;
  Registered : gmap string value;
  NotifiedHandlers : gmap string bool;
  Connector : option connector
}.

Definition set_Vars (f : gmap string value → gmap string value) (c : t) : t :=
  mk (Play c) (f (Vars c)) (Facts c) (Registered c) (NotifiedHandlers c)
     (Connector c).

Definition set_Facts (f : gmap string value) (c : t) : t :=
  mk (Play c) (Vars c) f (Registered c) (NotifiedHandlers c) (Connector c).

Definition set_Registered (f : gmap string value → gmap string value) (c : t)
  : t :=
  mk (Play c) (Vars c) (Facts c) (f (Registered c)) (NotifiedHandlers c)
     (Connector c).

Definition set_NotifiedHandlers (f : gmap string bool → gmap string bool)
    (c : t) : t :=
  mk (Play c) (Vars c) (Facts c) (Registered c) (f (NotifiedHandlers c))
     (Connector c).

Definition set_Connector (conn : connector) (c : t) : t :=
  mk (Play c) (Vars c) (Facts c) (Registered c) (NotifiedHandlers c)
     (Some conn).
End PlayContext.

(** The loop over the parts of a dotted name in [lookupVariable]: a
    [map[string]any] is stepped through, a nil entry ends the walk, a
    [map[string]string] yields a string (empty when the key is absent), and
    anything else has no parts. *)
Fixpoint walk_path (parts : list string) (current : value) : value :=
  match parts with
  | [] => current
  | part :: rest =>
      match current with
      | VMap c =>
          match c !! part with
          | None | Some VNil => VNil
          | Some v => walk_path rest v
          end
      | VStrMap c => walk_path rest (VString (default "" (c !! part)))
      | _ => VNil
      end
  end.

(** [lookupVariable] *)
Definition lookupVariable (name : string) (pctx : PlayContext.t) : value :=
  match PlayContext.Registered pctx !! name with
  | Some val => val
  | None =>
      match PlayContext.Vars pctx !! name with
      | Some val => val
      | None =>
          if GoStr.Contains name "." then
            walk_path (GoStr.Split name ".") (VMap (PlayContext.Vars pctx))
          else VNil
      end
  end.

(** The name and the argument of a filter such as [default('x')]. *)
Definition filter_parts (filter : string) : string * string :=
  let idx := GoStr.Index filter "(" in
  if 0 <? idx then
    let argPart := GoStr.drop (Z.to_nat idx + 1) filter in
    let endIdx := GoStr.LastIndex argPart ")" in
    (GoStr.TrimSpace (GoStr.take (Z.to_nat idx) filter),
     if 0 <? endIdx then
       GoStr.Trim (GoStr.TrimSpace (GoStr.take (Z.to_nat endIdx) argPart))
         quote_cutset
     else "")
  else (filter, "").

Definition is_filter (filterName name : string) : bool :=
  String.eqb filterName name.

(** [applyFilter] *)
Definition applyFilter {lib : GoLib} (varName filter : string) (pctx : PlayContext.t)
  : error + value :=
  let val := lookupVariable varName pctx in
  let '(filterName, filterArg) := filter_parts filter in
  if is_filter filterName "default" then
    match val with
    | VNil | VString "" => inr (VString filterArg)
    | _ => inr val
    end
  else if is_filter filterName "lower" then
    match val with
    | VString s => inr (VString (strings_ToLower s))
    | _ => inr val
    end
  else if is_filter filterName "upper" then
    match val with
    | VString s => inr (VString (strings_ToUpper s))
    | _ => inr val
    end
  else if is_filter filterName "trim" then
    match val with
    | VString s => inr (VString (GoStr.TrimSpace s))
    | _ => inr val
    end
  else if is_filter filterName "bool" then inr (VBool (isTruthy val))
  else if is_filter filterName "string" then inr (VString (formatValue val))
  else if is_filter filterName "int" then
    match val with
    | VInt v => inr (VInt v)
    | VInt64 v => inr (VInt v)
    | VFloat64 v => inr (VInt (float64_to_int v))
    | VString v => inr (VInt (fmt_Sscan_d v))
    | _ => inr (VInt 0)
    end
  else if is_filter filterName "first" then
    match val with
    | VList (x :: _) => inr x
    | _ => inr VNil
    end
  else if is_filter filterName "last" then
    match val with
    | VList (x :: slice) => inr (List.last slice x)
    | _ => inr VNil
    end
  else if is_filter filterName "length" || is_filter filterName "count" then
    match val with
    | VString v => inr (VInt (Z.of_nat (String.length v)))
    | VList v => inr (VInt (Z.of_nat (length v)))
    | VMap v => inr (VInt (Z.of_nat (size v)))
    | _ => inr (VInt 0)
    end
  else if is_filter filterName "join" then
    match val with
    | VList slice =>
        let sep := if String.eqb filterArg "" then "," else filterArg in
        inr (VString (GoStr.Join (formatValue <$> slice) sep))
    | _ => inr val
    end
  else inl ("unknown filter: " +:+ filterName).

(** [resolveVariable] *)
Definition resolveVariable {lib : GoLib} (expr : string) (pctx : PlayContext.t)
  : error + value :=
  let expr := GoStr.TrimSpace expr in
  let idx := GoStr.Index expr "|" in
  if 0 <? idx then
    applyFilter (GoStr.TrimSpace (GoStr.take (Z.to_nat idx) expr))
      (GoStr.TrimSpace (GoStr.drop (Z.to_nat idx + 1) expr)) pctx
  else inr (lookupVariable expr pctx).

(** *** The pattern [varPattern]

    [\{\{\s*([^}]+?)\s*\}\}].  A match starts with two opening braces and
    goes on to the first closing brace, which must come after at least one
    byte and be followed by a second one: neither the group nor [\s] matches
    a closing brace.  Of the bytes in between, the greedy [\s*] takes the
    leading ones in [\t\n\f\r ], the lazy group the fewest that leave only
    such bytes, and when there are only such bytes the group is the last of
    them, the first [\s*] giving it back. *)

Definition re_space (c : ascii) : bool :=
  bool_decide (nat_of_ascii c ∈ [9; 10; 12; 13; 32]%nat).

Definition close_brace : ascii := ascii_of_nat 125.

(** The bytes before the first closing brace, and the rest. *)
Fixpoint span_body (s : string) : string * string :=
  match s with
  | EmptyString => (EmptyString, EmptyString)
  | String c s' =>
      if Ascii.eqb c close_brace then (EmptyString, s)
      else let '(body, rest) := span_body s' in (String c body, rest)
  end.

Fixpoint drop_re_space (s : string) : string :=
  match s with
  | EmptyString => EmptyString
  | String c s' => if re_space c then drop_re_space s' else s
  end.

Definition last_byte (s : string) : string :=
  GoStr.drop (String.length s - 1) s.

(** The text of the group [([^}]+?)] for the bytes between the braces. *)
Definition group1 (body : string) : string :=
  match drop_re_space body with
  | EmptyString => last_byte body
  | b => String.rev (drop_re_space (String.rev b))
  end.

(** A match of [varPattern] at the front of [s]: the text matched, the text
    of the group, and what follows the match. *)
Definition match_varPattern (s : string) : option (string * string * string) :=
  if GoStr.prefix "{{" s then
    let '(body, rest) := span_body (GoStr.drop 2 s) in
    if negb (String.eqb body "") && GoStr.prefix "}}" rest then
      Some ("{{" +:+ body +:+ "}}", group1 body, GoStr.drop 2 rest)
    else None
  else None.

(** [varPattern.ReplaceAllStringFunc(s, repl)]: the leftmost match, then the
    leftmost match after it, and so on; [skip] counts the bytes of the
    current match still to pass. *)
Fixpoint replace_go (repl : string → string) (skip : nat) (s : string)
  : string :=
  match s with
  | EmptyString => EmptyString
  | String c s' =>
      match skip with
      | S k => replace_go repl k s'
      | O =>
          match match_varPattern s with
          | Some (m, _, _) =>
              repl m +:+ replace_go repl (String.length m - 1) s'
          | None => String c (replace_go repl O s')
          end
      end
  end.

Definition ReplaceAllStringFunc (s : string) (repl : string → string) : string :=
  replace_go repl O s.

(** The function [interpolateString] replaces each match with. *)
Definition replace_match {lib : GoLib} (pctx : PlayContext.t) (m : string) : string :=
  match match_varPattern m with
  | Some (_, inner1, _) =>
      match resolveVariable (GoStr.TrimSpace inner1) pctx with
      | inl _ => m
      | inr val => formatValue val
      end
  | None => m
  end.

(** The expression of a string that is one variable reference as a whole:
    the first test of [interpolateString]. *)
Definition whole_reference (s : string) : option string :=
  let trimmed := GoStr.TrimSpace s in
  if GoStr.HasPrefix trimmed "{{" && GoStr.HasSuffix trimmed "}}" then
    let inner :=
      GoStr.TrimSpace (GoStr.slice 2 (String.length trimmed - 2) trimmed) in
    if negb (GoStr.Contains inner "{{") then Some inner else None
  else None.

(** [interpolateString] *)
Definition interpolateString {lib : GoLib} (s : string) (pctx : PlayContext.t)
  : error + value :=
  match whole_reference s with
  | Some inner => resolveVariable inner pctx
  | None => inr (VString (ReplaceAllStringFunc s (replace_match pctx)))
  end.

(** The results of the entries of a map, or the error of one of them.  When
    several entries fail Go returns the error its iteration meets first;
    here it is the one the fold meets last. *)
Definition collect_map (m : gmap string (error + value))
  : error + gmap string value :=
  map_fold (λ k r acc,
              match r, acc with
              | inl e, _ => inl e
              | inr _, inl e => inl e
              | inr v, inr m' => inr (<[ k := v ]> m')
              end) (inr ∅) m.

(** [interpolateValue] *)
Definition interpolateValue {lib : GoLib} (pctx : PlayContext.t)
  : value → error + value :=
  fix interpolateValue (v : value) : error + value :=
    match v with
    | VString val => interpolateString val pctx
    | VList val =>
        match
          (fix items (l : list value) : error + list value :=
             match l with
             | [] => inr []
             | item :: l' =>
                 match interpolateValue item with
                 | inl e => inl e
                 | inr interpolated =>
                     match items l' with
                     | inl e => inl e
                     | inr result => inr (interpolated :: result)
                     end
                 end
             end) val
        with
        | inl e => inl e
        | inr result => inr (VList result)
        end
    | VMap val =>
        match collect_map (interpolateValue <$> val) with
        | inl e => inl e
        | inr result => inr (VMap result)
        end
    | _ => inr v
    end.

(** [interpolateParams] *)
Definition interpolateParams {lib : GoLib} (params : gmap string value)
    (pctx : PlayContext.t) : error + gmap string value :=
  map_fold (λ k v acc,
              match interpolateValue pctx v, acc with
              | inl e, _ => inl ("parameter '" +:+ k +:+ "': " +:+ e)
              | inr _, inl e => inl e
              | inr interpolated, inr result =>
                  inr (<[ k := interpolated ]> result)
              end) (inr ∅) params.

(** ** Package [executor]: conditions *)

(** What a call comes to: it returns, or it panics, which ends the
    program, nothing in it recovering from a panic. *)
Inductive ending (A : Type) :=
| Returns (a : A)
| Panics (msg : string).

Arguments Returns {A} a.
Arguments Panics {A} msg.

Definition quoted_by (q s : string) : bool :=
  GoStr.HasPrefix s q && GoStr.HasSuffix s q.

(** [resolveValue].  A string that is one quote byte and nothing else
    begins and ends with that quote, and the slice [s[1 : len(s)-1]] of it
    is [s[1:0]]: Go panics. *)
Definition resolveValue (s : string) (pctx : PlayContext.t) : ending value :=
  let s := GoStr.TrimSpace s in
  if quoted_by "'" s || quoted_by (GoStr.of_bytes [34%nat]) s then
    if (String.length s <? 2)%nat then
      Panics "runtime error: slice bounds out of range [1:0]"
    else Returns (VString (GoStr.slice 1 (String.length s - 1) s))
  else if String.eqb s "true" || String.eqb s "True" then Returns (VBool true)
  else if String.eqb s "false" || String.eqb s "False" then
    Returns (VBool false)
  else
    match PlayContext.Vars pctx !! s with
    | Some val => Returns val
    | None =>
        if GoStr.Contains s "." then
          Returns
            ((fix walk (parts : list string) (current : value) : value :=
                match parts with
                | [] => current
                | part :: rest =>
                    match current with
                    | VMap m => walk rest (default VNil (m !! part))
                    | _ => VNil
                    end
                end) (GoStr.Split s ".") (VMap (PlayContext.Vars pctx)))
        else Returns (VString s)
    end.

(** The two sides of [strings.SplitN(condition, op, 2)] for a two-byte
    operator that occurs in [condition]. *)
Definition split_at (condition op : string) : string * string :=
  let i := Z.to_nat (GoStr.Index condition op) in
  (GoStr.take i condition, GoStr.drop (i + 2) condition).

(** The two operands of a comparison, the left one resolved first. *)
Definition resolve_both (lhs rhs : string) (pctx : PlayContext.t)
  : ending (value * value) :=
  match resolveValue lhs pctx with
  | Panics msg => Panics msg
  | Returns leftVal =>
      match resolveValue rhs pctx with
      | Panics msg => Panics msg
      | Returns rightVal => Returns (leftVal, rightVal)
      end
  end.

(** [evaluateCondition]; the recursion is on the text after a leading
    [not], and [fuel] bounds its depth. *)
Fixpoint evaluateCondition_go {lib : GoLib} (fuel : nat) (condition : string)
    (pctx : PlayContext.t) : ending (bool * option error) :=
  let condition := GoStr.TrimSpace condition in
  if GoStr.HasPrefix condition "not " then
    match fuel with
    | O => Returns (false, None)
    | S fuel' =>
        match evaluateCondition_go fuel' (GoStr.drop 4 condition) pctx with
        | Panics msg => Panics msg
        | Returns (result, err) => Returns (negb result, err)
        end
    end
  else if GoStr.HasSuffix condition ".changed" then
    let varName := GoStr.take (String.length condition - 8) condition in
    match PlayContext.Registered pctx !! varName with
    | Some (VMap regMap) =>
        match regMap !! "changed" with
        | Some (VBool changed) => Returns (changed, None)
        | _ => Returns (false, None)
        end
    | _ => Returns (false, None)
    end
  else if GoStr.Contains condition "==" then
    let '(lhs, rhs) := split_at condition "==" in
    match resolve_both lhs rhs pctx with
    | Panics msg => Panics msg
    | Returns (leftVal, rightVal) =>
        Returns (String.eqb (formatValue leftVal) (formatValue rightVal), None)
    end
  else if GoStr.Contains condition "!=" then
    let '(lhs, rhs) := split_at condition "!=" in
    match resolve_both lhs rhs pctx with
    | Panics msg => Panics msg
    | Returns (leftVal, rightVal) =>
        Returns (negb (String.eqb (formatValue leftVal) (formatValue rightVal)),
                 None)
    end
  else
    match resolveValue condition pctx with
    | Panics msg => Panics msg
    | Returns val => Returns (isTruthy val, None)
    end.

Definition evaluateCondition {lib : GoLib} (condition : string)
    (pctx : PlayContext.t) : ending (bool * option error) :=
  evaluateCondition_go (String.length condition) condition pctx.

(** ** Package [executor]: the orchestrator *)

Module Result.
(** [module.Result] *)
Record t := mk {
  Changed : bool;
  Message : string;
  Data : gmap string value
}.
End Result.

Module Stats.
(** [executor.Stats], without the two clock readings. *)
Record t := mk {
  Plays : Z;
  Tasks : Z;
  OK : Z;
  Changed : Z;
  Failed : Z;
  Skipped : Z
}.

Definition incr_Tasks (s : t) : t :=
  mk (Plays s) (int_add (Tasks s) 1) (OK s) (Changed s) (Failed s) (Skipped s).
Definition incr_OK (s : t) : t :=
  mk (Plays s) (Tasks s) (int_add (OK s) 1) (Changed s) (Failed s) (Skipped s).
Definition incr_Changed (s : t) : t :=
  mk (Plays s) (Tasks s) (OK s) (int_add (Changed s) 1) (Failed s) (Skipped s).
Definition incr_Failed (s : t) : t :=
  mk (Plays s) (Tasks s) (OK s) (Changed s) (int_add (Failed s) 1) (Skipped s).
Definition incr_Skipped (s : t) : t :=
  mk (Plays s) (Tasks s) (OK s) (Changed s) (Failed s) (int_add (Skipped s) 1).

(** The [switch] on a result's status in [runPlay]. *)
Definition count (status : string) (s : t) : t :=
  if String.eqb status "ok" then incr_OK s
  else if String.eqb status "changed" then incr_Changed s
  else if String.eqb status "skipped" then incr_Skipped s
  else s.

(** The [switch] in [runHandlers], which has no case for skipped. *)
Definition count_handler (status : string) (s : t) : t :=
  if String.eqb status "ok" then incr_OK s
  else if String.eqb status "changed" then incr_Changed s
  else s.
End Stats.

Module TaskResult.
(** [executor.TaskResult] *)
Record t := mk {
  Status : string;
  Changed : bool;
  Data : gmap string value;
  Error : option error
}.
End TaskResult.

Module RunResult.
(** [executor.RunResult] *)
Record t := mk { Success : bool; Stats : Stats.t }.
End RunResult.

Module Executor.
(** [executor.Executor]; its [Output] is the trace. *)
Record t := mk { DryRun : bool; Debug : bool }.
End Executor.

(** What a task is called in the output: [task.String()], which is a
    function of the task at the time of the call, or a fixed text. *)
Inductive task_name :=
| NameOf (task : Task.t)
| Literal (text : string).

(** The observable steps of a run, in program order. *)
Inductive event :=
| OutPlaybookStart (path : string)
| OutPlayStart (play : Play.t)
| OutTaskStart (name : task_name) (module : string)
| OutTaskResult (name : task_name) (status : string) (changed : bool)
    (message : string)
| OutInfoRetry (attempt maxAttempts : Z) (name : task_name)
| OutError (err : error)
| OutSection (title : string)
| OutPlaybookEnd (stats : Stats.t)
| ModuleRun (module : string) (params : gmap string value)
| Sleep (nanoseconds : Z).

(** The collaborators of the engine: the module registry, the connectors,
    fact gathering and the process environment, acting on the state [World]
    of everything outside the engine. *)
Class Host (World : Type) := {
  (** [module.Get(name)], and [mod.Run(ctx, conn, params)] of the module *)
  module_Get :
    string →
    option (option connector → gmap string value → World →
            (error + Result.t) * World);
  (** [conn.Connect(ctx)] *)
  conn_Connect : connector → World → option error * World;
  (** [facts.Gather(ctx, conn)] *)
  facts_Gather : connector → World → (error + gmap string value) * World;
  (** [os.Environ()] *)
  os_Environ : World → list string
}.

(** What a call returns whose results are a task result and an error: a
    result and no error, or an error with the result that comes with it. *)
Inductive outcome :=
| Done (result : TaskResult.t)
| Failed (result : option TaskResult.t) (err : error).

Section Orchestrator.
Context {lib : GoLib} {World : Type} {host : Host World}.

Record state := State {
  pctx : PlayContext.t;
  world : World;
  trace : list event
}.

Definition emit (ev : event) (st : state) : state :=
  State (pctx st) (world st) (trace st ++ [ev]).

Definition with_pctx (f : PlayContext.t → PlayContext.t) (st : state) : state :=
  State (f (pctx st)) (world st) (trace st).

Definition with_world (w : World) (st : state) : state :=
  State (pctx st) w (trace st).

(** [time.Duration(task.Delay) * time.Second], in nanoseconds. *)
Definition delay_duration (task : Task.t) : Z :=
  int_mul (Task.Delay task) 1000000000.

(** The attempts of [runSingleTask] from attempt number [attempt] on, of
    which [more] may follow this one: the [for] statement with [attempt]
    running up to [maxAttempts].  This is the loop for a [maxAttempts]
    below [max_int]; at [max_int] the counter itself would wrap around
    after that many failed attempts and the condition of the statement
    never be false, which no total function renders. *)
Fixpoint attempts (more : nat) (attempt maxAttempts : Z)
    (run : option connector → gmap string value → World →
           (error + Result.t) * World)
    (taskName : task_name) (task : Task.t) (params : gmap string value)
    (st : state) : (error + Result.t) * state :=
  let st :=
    if 1 <? attempt then
      emit (Sleep (delay_duration task))
        (emit (OutInfoRetry attempt maxAttempts taskName) st)
    else st in
  let st := emit (ModuleRun (Task.Module task) params) st in
  let '(r, w) := run (PlayContext.Connector (pctx st)) params (world st) in
  let st := with_world w st in
  match r with
  | inr result => (inr result, st)
  | inl lastErr =>
      match more with
      | O => (inl lastErr, st)
      | S more' =>
          attempts more' (int_add attempt 1) maxAttempts run taskName task
            params st
      end
  end.

(** The value a registered result is stored as. *)
Definition registered_value (result : Result.t) : value :=
  VMap (<[ "changed" := VBool (Result.Changed result) ]>
          (<[ "message" := VString (Result.Message result) ]>
             (<[ "data" := VMap (Result.Data result) ]> ∅))).

Definition store_registered (task : Task.t) (result : Result.t)
    (c : PlayContext.t) : PlayContext.t :=
  if String.eqb (Task.Register task) "" then c
  else
    PlayContext.set_Vars (<[ Task.Register task := registered_value result ]>)
      (PlayContext.set_Registered
         (<[ Task.Register task := registered_value result ]>) c).

Definition notify_handlers (task : Task.t) (result : Result.t)
    (c : PlayContext.t) : PlayContext.t :=
  if Result.Changed result && bool_decide (0 < length (Task.Notify task))%nat
  then
    foldl (λ c handler,
             PlayContext.set_NotifiedHandlers (<[ handler := true ]>) c)
          c (Task.Notify task)
  else c.

(** [runSingleTask].  Besides what Go returns, the task is returned as
    [ExpandShorthand] leaves it. *)
Definition runSingleTask (e : Executor.t) (task : Task.t) (st : state)
  : outcome * Task.t * state :=
  let taskName := NameOf task in
  let st := emit (OutTaskStart taskName (Task.Module task)) st in
  let task := ExpandShorthand task in
  match module_Get (Task.Module task) with
  | None =>
      let err := "unknown module: " +:+ Task.Module task in
      (Failed None err, task,
       emit (OutTaskResult taskName "failed" false err) st)
  | Some run =>
      match interpolateParams (Task.Params task) (pctx st) with
      | inl err =>
          (Failed None ("failed to interpolate parameters: " +:+ err), task,
           emit (OutTaskResult taskName "failed" false err) st)
      | inr params =>
          if Executor.DryRun e then
            (Done (TaskResult.mk "skipped" false ∅ None), task,
             emit (OutTaskResult taskName "skipped (dry run)" false "") st)
          else
            let maxAttempts := int_add (Task.Retries task) 1 in
            let maxAttempts := if maxAttempts <? 1 then 1 else maxAttempts in
            match
              attempts (Z.to_nat maxAttempts - 1) 1 maxAttempts run taskName
                task params st
            with
            | (inl lastErr, st) =>
                (Failed (Some (TaskResult.mk "failed" false ∅ (Some lastErr)))
                   lastErr, task,
                 emit (OutTaskResult taskName "failed" false lastErr) st)
            | (inr result, st) =>
                let st := with_pctx (store_registered task result) st in
                let st := with_pctx (notify_handlers task result) st in
                let status :=
                  if Result.Changed result then "changed" else "ok" in
                (Done (TaskResult.mk status (Result.Changed result)
                         (Result.Data result) None), task,
                 emit (OutTaskResult taskName status (Result.Changed result)
                         (Result.Message result)) st)
            end
      end
  end.

(** The [for i, item := range task.Loop] of [runTaskLoop], from index [i]
    on: the result and error of the iteration that failed, or whether any
    iteration changed something. *)
Fixpoint loop_items (e : Executor.t) (loopVar : string) (i : Z)
    (items : list value) (anyChanged : bool) (task : Task.t) (st : state)
  : (option TaskResult.t * error + bool) * Task.t * state :=
  match items with
  | [] => (inr anyChanged, task, st)
  | item :: rest =>
      let st :=
        with_pctx (PlayContext.set_Vars
                     (λ v, <[ "loop_index" := VInt i ]> (<[ loopVar := item ]> v)))
                  st in
      match runSingleTask e task st with
      | (Failed result err, task, st) => (inl (result, err), task, st)
      | (Done result, task, st) =>
          loop_items e loopVar (i + 1) rest
            (anyChanged || TaskResult.Changed result) task st
      end
  end.

(** [runTaskLoop] *)
Definition runTaskLoop (e : Executor.t) (task : Task.t) (st : state)
  : outcome * Task.t * state :=
  let loopVar := Task.GetLoopVar task in
  match loop_items e loopVar 0 (Task.Loop task) false task st with
  | (inl (result, err), task, st) => (Failed result err, task, st)
  | (inr anyChanged, task, st) =>
      let st :=
        with_pctx (PlayContext.set_Vars
                     (λ v, delete "loop_index" (delete loopVar v))) st in
      (Done (TaskResult.mk (if anyChanged then "changed" else "ok")
               anyChanged ∅ None), task, st)
  end.

(** [runTask]: what [runTaskLoop] or [runSingleTask] returns, unless the
    condition keeps the task from running or panics. *)
Definition runTask (e : Executor.t) (task : Task.t) (st : state)
  : ending outcome * Task.t * state :=
  let taskName := NameOf task in
  let run :=
    let '(result, task, st) :=
      if bool_decide (0 < length (Task.Loop task))%nat
      then runTaskLoop e task st
      else runSingleTask e task st in
    (Returns result, task, st) in
  if negb (String.eqb (Task.When task) "") then
    match evaluateCondition (Task.When task) (pctx st) with
    | Panics msg => (Panics msg, task, st)
    | Returns (_, Some err) =>
        (Returns
           (Failed None ("failed to evaluate 'when' condition: " +:+ err)),
         task, st)
    | Returns (false, None) =>
        (Returns (Done (TaskResult.mk "skipped" false ∅ None)), task,
         emit (OutTaskResult taskName "skipped" false
                 "when condition not met") st)
    | Returns (true, None) => run
    end
  else run.

(** The [for _, handler := range pctx.Play.Handlers] of [runHandlers]. *)
Fixpoint handlers_loop (e : Executor.t) (handlers : list Task.t)
    (stats : Stats.t) (st : state) : option error * Stats.t * state :=
  match handlers with
  | [] => (None, stats, st)
  | handler :: rest =>
      if negb (default false
                 (PlayContext.NotifiedHandlers (pctx st) !! Task.Name handler))
      then handlers_loop e rest stats st
      else
        let stats := Stats.incr_Tasks stats in
        match runSingleTask e handler st with
        | (Failed _ err, _, st) =>
            (Some ("handler '" +:+ Task.Name handler +:+ "' failed: " +:+ err),
             Stats.incr_Failed stats, st)
        | (Done result, _, st) =>
            handlers_loop e rest
              (Stats.count_handler (TaskResult.Status result) stats) st
        end
  end.

(** [runHandlers] *)
Definition runHandlers (e : Executor.t) (stats : Stats.t) (st : state)
  : option error * Stats.t * state :=
  if bool_decide (size (PlayContext.NotifiedHandlers (pctx st)) = 0%nat) then
    (None, stats, st)
  else
    handlers_loop e (Play.Handlers (PlayContext.Play (pctx st))) stats
      (emit (OutSection "RUNNING HANDLERS") st).

(** [getConnector] *)
Definition getConnector (play : Play.t) : error + connector :=
  let connType := Play.GetConnection play in
  if String.eqb connType "local" then
    inr (LocalConn (if Play.Become play
                    then Some (Play.GetBecomeUser play) else None))
  else if String.eqb connType "docker" then
    inr (DockerConn (Play.Hosts play)
           (if Play.Become play
               && negb (String.eqb (Play.BecomeUser play) "")
            then Some (Play.GetBecomeUser play) else None))
  else if String.eqb connType "ssh" then
    inl "SSH connector not yet implemented"
  else if String.eqb connType "ssm" then
    inl "SSM connector not yet implemented"
  else inl ("unknown connection type: " +:+ connType).

(** [getEnvMap], from the entries [os.Environ()] lists. *)
Definition getEnvMap (environ : list string) : gmap string string :=
  foldl (λ env entry,
           let idx := GoStr.Index entry "=" in
           if 0 <? idx then
             <[ GoStr.take (Z.to_nat idx) entry :=
                  GoStr.drop (Z.to_nat idx + 1) entry ]> env
           else env)
        ∅ environ.

(** The [for _, task := range play.Tasks] of [runPlay]: the error it
    returns with, or none, unless a task panics. *)
Fixpoint tasks_loop (e : Executor.t) (tasks : list Task.t) (stats : Stats.t)
    (st : state) : ending (option error) * Stats.t * state :=
  match tasks with
  | [] => (Returns None, stats, st)
  | task :: rest =>
      let stats := Stats.incr_Tasks stats in
      match runTask e task st with
      | (Panics msg, _, st) => (Panics msg, stats, st)
      | (Returns (Failed _ err), task, st) =>
          let stats := Stats.incr_Failed stats in
          if negb (Task.IgnoreErrors task) then (Returns (Some err), stats, st)
          else
            tasks_loop e rest stats
              (emit (OutTaskResult (NameOf task) "failed (ignored)" false err)
                 st)
      | (Returns (Done taskResult), _, st) =>
          tasks_loop e rest
            (Stats.count (TaskResult.Status taskResult) stats) st
      end
  end.

(** [runPlay], from the state of the world [w] and the output so far. *)
Definition runPlay (e : Executor.t) (play : Play.t) (stats : Stats.t)
    (w : World) (out : list event)
  : ending (option error) * Stats.t * World * list event :=
  let c :=
    PlayContext.mk play
      (<[ "env" := VStrMap (getEnvMap (os_Environ w)) ]> (Play.Vars play))
      ∅ ∅ ∅ None in
  let st := State c w (out ++ [OutPlayStart play]) in
  match getConnector play with
  | inl err =>
      (Returns (Some ("failed to create connector: " +:+ err)), stats,
       world st, trace st)
  | inr conn =>
      let st := with_pctx (PlayContext.set_Connector conn) st in
      match conn_Connect conn (world st) with
      | (Some err, w) =>
          (Returns (Some ("failed to connect: " +:+ err)), stats, w, trace st)
      | (None, w) =>
          let st := with_world w st in
          let gathered :=
            if Play.ShouldGatherFacts play then
              let st := emit (OutTaskStart (Literal "Gathering Facts") "") st in
              match facts_Gather conn (world st) with
              | (inl err, w) =>
                  inl ("failed to gather facts: " +:+ err,
                       emit (OutTaskResult (Literal "Gathering Facts")
                               "failed" false err) (with_world w st))
              | (inr f, w) =>
                  inr (emit (OutTaskResult (Literal "Gathering Facts")
                               "ok" false "")
                         (with_pctx
                            (λ c, PlayContext.set_Vars (<[ "facts" := VMap f ]>)
                                    (PlayContext.set_Facts f c))
                            (with_world w st)))
              end
            else inr st in
          match gathered with
          | inl (err, st) => (Returns (Some err), stats, world st, trace st)
          | inr st =>
              match tasks_loop e (Play.Tasks play) stats st with
              | (Panics msg, stats, st) =>
                  (Panics msg, stats, world st, trace st)
              | (Returns (Some err), stats, st) =>
                  (Returns (Some err), stats, world st, trace st)
              | (Returns None, stats, st) =>
                  let '(err, stats, st) := runHandlers e stats st in
                  (Returns err, stats, world st, trace st)
              end
          end
      end
  end.

(** The [for _, play := range pb.Plays] of [Run]: whether every play
    succeeded, unless one panics. *)
Fixpoint plays_loop (e : Executor.t) (plays : list Play.t) (stats : Stats.t)
    (w : World) (out : list event)
  : ending bool * Stats.t * World * list event :=
  match plays with
  | [] => (Returns true, stats, w, out)
  | play :: rest =>
      match runPlay e play stats w out with
      | (Panics msg, stats, w, out) => (Panics msg, stats, w, out)
      | (Returns (Some err), stats, w, out) =>
          (Returns false, stats, w, out ++ [OutError err])
      | (Returns None, stats, w, out) => plays_loop e rest stats w out
      end
  end.

(** [Run]: the result and the error it returns, unless it panics, and the
    world and the output after the run. *)
Definition Run (e : Executor.t) (pb : Playbook.t) (w : World)
  : ending (RunResult.t * option error) * World * list event :=
  let stats := Stats.mk (Z.of_nat (length (Playbook.Plays pb))) 0 0 0 0 0 in
  match
    plays_loop e (Playbook.Plays pb) stats w
      [OutPlaybookStart (Playbook.Path pb)]
  with
  | (Panics msg, _, w, out) => (Panics msg, w, out)
  | (Returns success, stats, w, out) =>
      (Returns (RunResult.mk success stats, None), w,
       out ++ [OutPlaybookEnd stats])
  end.

End Orchestrator.

Arguments state : clear implicits.

(** ** A host to run examples on

    A library instance that agrees with Go on the inputs of the examples,
    and a world that counts the module invocations made so far: [ok] changes
    nothing, [touch] changes something, [fail] always fails, and [flaky]
    fails on the first two invocations of the run. *)

Definition example_lib : GoLib :=
  {| strings_ToLower s := s;
     strings_ToUpper s := s;
     fmt_Sscan_d _ := 0;
     float64_to_int _ := 0;
     fmt_float64 _ := "0" |}.

Definition example_module (name : string)
  : option (option connector → gmap string value → nat →
            (error + Result.t) * nat) :=
  if String.eqb name "ok" then
    Some (λ _ _ n, (inr (Result.mk false "ok" ∅), S n))
  else if String.eqb name "touch" then
    Some (λ _ _ n, (inr (Result.mk true "changed" ∅), S n))
  else if String.eqb name "fail" then
    Some (λ _ _ n, (inl "boom", S n))
  else if String.eqb name "flaky" then
    Some (λ _ _ n,
            (if (n <? 2)%nat then inl ("attempt " +:+ string_of_Z (Z.of_nat n))
             else inr (Result.mk false "up" ∅), S n))
  else None.

Definition example_host : Host nat :=
  {| module_Get := example_module;
     conn_Connect _ n := (None, n);
     facts_Gather _ n := (inr ∅, n);
     os_Environ _ := [] |}.

Definition example_play : Play.t :=
  Play.mk "example" "localhost" "" ∅ [] [] [] false "" (Some false).

Definition example_pctx (v : gmap string value) : PlayContext.t :=
  PlayContext.mk example_play v ∅ ∅ ∅ None.

Definition example_task (module : string) : Task.t :=
  Task.set_Module module ∅ Task.empty.

Definition run_for_real : Executor.t := Executor.mk false false.

(** * Notions the properties are stated with *)

(** The value of [k] in the last of the maps [ms] that has the key. *)
Definition last_defined (ms : list (gmap string value)) (k : string)
  : option value :=
  foldl (λ acc m, match m !! k with Some v => Some v | None => acc end) None ms.

(** The precedence chain in the specification's words: play vars, then
    the vars of the roles, then the defaults of the roles, later roles
    first. *)
Definition precedence_lookup (roles : list Role.t)
    (playVars : gmap string value) (k : string) : option value :=
  match playVars !! k with
  | Some v => Some v
  | None =>
      match last_defined (Role.Vars <$> roles) k with
      | Some v => Some v
      | None => last_defined (Role.Defaults <$> roles) k
      end
  end.

(** The task [fail: ...] looped over two items, with errors ignored so that
    the play goes on after it. *)
Definition failing_loop_task : Task.t :=
  Task.mk "install" "fail" ∅ "" "" "" [] [VString "a"; VString "b"] "" true
    0 0 None "" "" "".

(** The keys of a raw task, in the given order, that are not directives. *)
Definition module_keys (entries : list (string * value)) : list string :=
  filter (λ key, knownTaskFields key = false) entries.*1.

(** The module invocations and the sleeps in a stretch of output. *)
Definition module_runs (evs : list event)
  : list (string * gmap string value) :=
  omap (λ ev, match ev with ModuleRun m p => Some (m, p) | _ => None end) evs.

Definition sleeps (evs : list event) : list Z :=
  omap (λ ev, match ev with Sleep d => Some d | _ => None end) evs.

Section Attempts.
Context {World : Type}.
Variable run :
  option connector → gmap string value → World → (error + Result.t) * World.
Variable conn : option connector.
Variable params : gmap string value.

(** The world after [i] invocations of the module from [w], and what the
    next invocation returns. *)
Fixpoint world_after (w : World) (i : nat) : World :=
  match i with
  | O => w
  | S i' => world_after (run conn params w).2 i'
  end.

Definition attempt_result (w : World) (i : nat) : error + Result.t :=
  (run conn params (world_after w i)).1.

End Attempts.

(** The task [flaky: ...] with the given numbers of retries and seconds of
    delay. *)
Definition flaky_task (retries delay : Z) : Task.t :=
  Task.mk "wait for service" "flaky" ∅ "" "" "" [] [] "" false retries delay
    None "" "" "".

(** What [k] retries leave in the output, the first of them being attempt
    number [attempt]: each is announced, waits for the delay, and then
    runs the module. *)
Fixpoint retry_events (taskName : task_name) (module : string)
    (params : gmap string value) (maxAttempts delay attempt : Z) (k : nat)
  : list event :=
  match k with
  | O => []
  | S k' =>
      OutInfoRetry attempt maxAttempts taskName
        :: Sleep delay
        :: ModuleRun module params
        :: retry_events taskName module params maxAttempts delay
             (attempt + 1) k'
  end.

(** The events of a play as a whole, and those that open a task. *)
Definition play_level (ev : event) : bool :=
  match ev with
  | OutPlaybookStart _ | OutPlayStart _ | OutError _ | OutPlaybookEnd _ => true
  | _ => false
  end.

Definition is_task_start (ev : event) : bool :=
  match ev with OutTaskStart _ _ => true | _ => false end.

(** The events inside the run of one task. *)
Definition inner (ev : event) : Prop :=
  play_level ev = false ∧ is_task_start ev = false.

(** The tasks and handlers started, the plays started, and the errors
    reported, in a stretch of output. *)
Definition started (evs : list event) : list Task.t :=
  omap (λ ev, match ev with
              | OutTaskStart (NameOf task) _ => Some task
              | _ => None
              end) evs.

Definition play_starts (evs : list event) : list Play.t :=
  omap (λ ev, match ev with OutPlayStart play => Some play | _ => None end) evs.

Definition errors (evs : list event) : list error :=
  omap (λ ev, match ev with OutError err => Some err | _ => None end) evs.

(** Whether a handler name has been notified in a play context. *)
Definition notified_in (c : PlayContext.t) (name : string) : bool :=
  default false (PlayContext.NotifiedHandlers c !! name).

Definition is_notified (c : PlayContext.t) (handler : Task.t) : Prop :=
  notified_in c (Task.Name handler) = true.

#[global] Instance is_notified_dec c handler : Decision (is_notified c handler).
Proof. unfold is_notified. apply _. Defined.

(** The handlers [A] and [B] of the examples, run by the given modules, and
    a task that changes something and notifies [B] and [A], in this
    order. *)
Definition handler_A (module : string) : Task.t :=
  Task.mk "A" module ∅ "" "" "" [] [] "" false 0 0 None "" "" "".

Definition handler_B (module : string) : Task.t :=
  Task.mk "B" module ∅ "" "" "" [] [] "" false 0 0 None "" "" "".

Definition notifying_task (name : string) : Task.t :=
  Task.mk name "touch" ∅ "" "" "" ["B"; "A"] [] "" false 0 0 None "" "" "".

Definition handlers_play (tasks handlers : list Task.t) : Play.t :=
  Play.mk "example" "localhost" "" ∅ [] tasks handlers false "" (Some false).

(** One more notified name. *)
Definition also_notified (n : string) (c : PlayContext.t) : PlayContext.t :=
  PlayContext.set_NotifiedHandlers (<[ n := true ]>) c.

(** A stretch of output without events of the play level. *)
Definition quiet (evs : list event) : Prop :=
  Forall (λ ev, play_level ev = false) evs.

(** *** Templates, in the words of the specification

    An occurrence [{{ expr }}] is two opening braces, at least one byte,
    none of them a closing brace, and two closing braces; literal text is
    text in which no occurrence begins; and a string is literal text and
    occurrences in turn. *)
Definition occurrence (body : string) : string := "{{" +:+ body +:+ "}}".

Definition is_body (body : string) : Prop :=
  body ≠ "" ∧ GoStr.Contains body "}" = false.

Definition begins_with_occurrence (s : string) : Prop :=
  ∃ body rest, is_body body ∧ s = occurrence body +:+ rest.

(** No occurrence begins at a byte of [lit] in [lit] followed by [tail]
    (one may begin at the first byte of [tail]). *)
Definition literal_before (lit tail : string) : Prop :=
  ∀ i, (i < String.length lit)%nat →
       ¬ begins_with_occurrence (GoStr.drop i (lit +:+ tail)).

(** Pieces of literal text, each followed by an occurrence with the given
    bytes between its braces, and the literal text [last] after them, put
    together with each occurrence written out by [render]. *)
Fixpoint assemble (render : string → string) (pieces : list (string * string))
    (last : string) : string :=
  match pieces with
  | [] => last
  | (lit, body) :: rest => lit +:+ render body +:+ assemble render rest last
  end.

(** The pieces are those of the string they make: the occurrences are
    occurrences and the literal texts hold none. *)
Fixpoint split_ok (pieces : list (string * string)) (last : string) : Prop :=
  match pieces with
  | [] => literal_before last ""
  | (lit, body) :: rest =>
      is_body body
      ∧ literal_before lit (occurrence body +:+ assemble occurrence rest last)
      ∧ split_ok rest last
  end.

(** What stands for an occurrence after interpolation: the default
    formatting of the value of its expression, or the occurrence itself
    when resolving the expression returns an error. *)
Definition rendered {lib : GoLib} (pctx : PlayContext.t) (body : string)
  : string :=
  match resolveVariable (GoStr.TrimSpace (group1 body)) pctx with
  | inl _ => occurrence body
  | inr val => formatValue val
  end.

(** The plays of a list run by [runPlay] one after the other, each from
    the statistics, the world and the output that the one before left, and
    each returning without error. *)
Inductive plays_succeed {lib : GoLib} {World : Type} {host : Host World}
    (e : Executor.t)
  : list Play.t → Stats.t → World → list event →
    Stats.t → World → list event → Prop :=
| plays_succeed_nil stats w out : plays_succeed e [] stats w out stats w out
| plays_succeed_cons play plays stats w out stats1 w1 out1 stats2 w2 out2 :
    runPlay e play stats w out = (Returns None, stats1, w1, out1) →
    plays_succeed e plays stats1 w1 out1 stats2 w2 out2 →
    plays_succeed e (play :: plays) stats w out stats2 w2 out2.

(** A task whose condition is one single quote, in a play of its own. *)
Definition lone_quote_task : Task.t :=
  Task.mk "check" "ok" ∅ "" "'" "" [] [] "" false 0 0 None "" "" "".

Definition lone_quote_playbook : Playbook.t :=
  Playbook.mk "site.yml" [handlers_play [lone_quote_task] []].

(** * More of the two packages *)

(** The loops of [Play.Validate] over the tasks and over the handlers, from
    index [i] on: the first error, under the name of the task or, for a task
    without name, under its number. *)
Fixpoint validate_tasks (i : Z) (tasks : list Task.t) : option error :=
  match tasks with
  | [] => None
  | task :: rest =>
      match Task.Validate task with
      | Some err =>
          let taskName :=
            if String.eqb (Task.Name task) ""
            then "task " +:+ string_of_Z (i + 1) else Task.Name task in
          Some (taskName +:+ ": " +:+ err)
      | None => validate_tasks (i + 1) rest
      end
  end.

Fixpoint validate_handlers (i : Z) (handlers : list Task.t) : option error :=
  match handlers with
  | [] => None
  | handler :: rest =>
      match Task.Validate handler with
      | Some err =>
          let handlerName :=
            if String.eqb (Task.Name handler) ""
            then "handler " +:+ string_of_Z (i + 1) else Task.Name handler in
          Some (handlerName +:+ ": " +:+ err)
      | None =>
          if String.eqb (Task.Name handler) "" then
            Some ("handler " +:+ string_of_Z (i + 1)
                    +:+ ": handlers must have a name for notify to reference")
          else validate_handlers (i + 1) rest
      end
  end.

Definition connection_types : list string := ["local"; "docker"; "ssh"; "ssm"].

(** [Play.Validate] *)
Definition Play_Validate (p : Play.t) : option error :=
  if String.eqb (Play.Hosts p) "" then
    Some "play is missing required 'hosts' field"
  else if negb (bool_decide (Play.GetConnection p ∈ connection_types)) then
    Some ("invalid connection type: " +:+ Play.GetConnection p
            +:+ " (must be local, docker, ssh, or ssm)")
  else
    match validate_tasks 0 (Play.Tasks p) with
    | Some err => Some err
    | None => validate_handlers 0 (Play.Handlers p)
    end.

(** [ExpandRoleTasks] and [ExpandRoleHandlers] *)
Definition ExpandRoleTasks (roles : list Role.t) (playTasks : list Task.t)
  : list Task.t :=
  foldl (λ allTasks role, allTasks ++ Role.Tasks role) [] roles ++ playTasks.

Definition ExpandRoleHandlers (roles : list Role.t)
    (playHandlers : list Task.t) : list Task.t :=
  foldl (λ allHandlers role, allHandlers ++ Role.Handlers role) [] roles
    ++ playHandlers.

(** [ResolveModule]; [available] is what [module.List()] returns. *)
Definition ResolveModule {World : Type} {host : Host World}
    (available : list string) (task : Task.t) : option error :=
  if String.eqb (Task.Module task) "" then Some "no module specified"
  else
    match module_Get (Task.Module task) with
    | None =>
        Some ("unknown module '" +:+ Task.Module task +:+ "' (available: "
                +:+ GoStr.Join available ", " +:+ ")")
    | Some _ => None
    end.

(** The names [applyFilter] has a case for. *)
Definition filter_names : list string :=
  [ "default"; "lower"; "upper"; "trim"; "bool"; "string"; "int"; "first";
    "last"; "length"; "count"; "join" ].

(** A parameter value without template syntax: a scalar, or a string with
    no opening brace. *)
Definition plain (v : value) : Prop :=
  match v with
  | VString s => GoStr.Contains s "{" = false
  | VList _ | VMap _ => False
  | _ => True
  end.

(** The sum of the four counters of results. *)
Definition counted (s : Stats.t) : Z :=
  Stats.OK s + Stats.Changed s + Stats.Failed s + Stats.Skipped s.

(** A step of the engine that has run no module, slept no time, notified
    no handler and left the world as it was. *)
Definition no_effect {World : Type} (st st' : state World) : Prop :=
  world st' = world st
  ∧ PlayContext.NotifiedHandlers (pctx st')
    = PlayContext.NotifiedHandlers (pctx st)
  ∧ module_runs (trace st') = module_runs (trace st)
  ∧ sleeps (trace st') = sleeps (trace st).

(** Statistics in which every task counted has been counted as one of ok,
    changed, failed and skipped, with at most [n] tasks so far. *)
Definition balanced (n : Z) (s : Stats.t) : Prop :=
  0 ≤ Stats.OK s ∧ 0 ≤ Stats.Changed s ∧ 0 ≤ Stats.Failed s
  ∧ 0 ≤ Stats.Skipped s ∧ Stats.Tasks s = counted s ∧ Stats.Tasks s ≤ n.

(** The number of tasks and handlers of a play, and of a playbook. *)
Definition play_size (play : Play.t) : Z :=
  Z.of_nat (length (Play.Tasks play)) + Z.of_nat (length (Play.Handlers play)).

Definition playbook_size (plays : list Play.t) : Z :=
  foldr (λ play n, play_size play + n) 0 plays.

(** ** Package [module]: the registry

    The registry maps names to modules; [M] is the type of the values that
    implement the interface [Module], of which the registry uses the
    method [Name].  A panic is the result [None]. *)
Section Registry.
Context {M : Type}.
Variable Name : M → string.

(** [Register] *)
Definition Register (m : M) (registry : gmap string M)
  : option (gmap string M) :=
  let name := Name m in
  match registry !! name with
  | Some _ => None
  | None => Some (<[ name := m ]> registry)
  end.

(** [Get], with [None] for the nil a missing name gives. *)
Definition Get (name : string) (registry : gmap string M) : option M :=
  registry !! name.

(** The registrations the [init] functions of the module packages make,
    one after the other. *)
Definition register_all (ms : list M) (registry : gmap string M)
  : option (gmap string M) :=
  foldl (λ acc m, acc ≫= Register m) (Some registry) ms.

End Registry.

(** * Properties *)

(** ** Fuel

    The two functions defined with fuel are given enough of it: trimming
    stops because no space is left, and the evaluation of a condition is
    the same for any larger amount. *)

Lemma rev_app_length (s t : string) :
  String.length (String.rev_app s t) = (String.length s + String.length t)%nat.
Proof.
  revert t. induction s as [|c s IH]; intros t; [done|].
  cbn [String.rev_app]. rewrite IH. cbn [String.length]. lia.
Qed.

Lemma rev_length (s : string) : String.length (String.rev s) = String.length s.
Proof. unfold String.rev. rewrite rev_app_length. cbn. lia. Qed.

Lemma drop_length (n : nat) (s : string) :
  String.length (GoStr.drop n s) = (String.length s - n)%nat.
Proof.
  revert s. induction n as [|n IH]; intros s; [cbn; lia|].
  destruct s as [|c s]; [done|]. cbn [GoStr.drop String.length]. by rewrite IH.
Qed.

Lemma prefix_length (p s : string) :
  GoStr.prefix p s = true → (String.length p ≤ String.length s)%nat.
Proof.
  revert s. induction p as [|a p IH]; intros s Hp; [cbn; lia|].
  destruct s as [|b s]; [done|]. cbn [GoStr.prefix] in Hp.
  apply andb_true_iff in Hp as [_ Hp]. apply IH in Hp.
  cbn [String.length]. lia.
Qed.

Lemma strip_one_shorter encs (s s' : string) :
  Forall (λ e, e ≠ "") encs →
  GoStr.strip_one encs s = Some s' →
  (String.length s' < String.length s)%nat.
Proof.
  induction 1 as [|e encs He _ IH]; [done|]. cbn [GoStr.strip_one].
  destruct (GoStr.prefix e s) eqn:Hp; [|exact IH].
  intros [= <-]. rewrite drop_length. apply prefix_length in Hp.
  destruct e; [done|]. cbn [String.length] in *. lia.
Qed.

Lemma strip_all_done fuel encs (s : string) :
  Forall (λ e, e ≠ "") encs →
  (String.length s ≤ fuel)%nat →
  GoStr.strip_one encs (GoStr.strip_all fuel encs s) = None.
Proof.
  intros Hencs. revert s. induction fuel as [|fuel IH]; intros s Hlen.
  - destruct s; [|cbn in Hlen; lia]. cbn [GoStr.strip_all].
    destruct (GoStr.strip_one encs "") as [s'|] eqn:Hs; [|done].
    apply strip_one_shorter in Hs; [cbn in Hs; lia|done].
  - cbn [GoStr.strip_all].
    destruct (GoStr.strip_one encs s) as [s'|] eqn:Hs; [|done].
    apply IH. apply strip_one_shorter in Hs; [lia|done].
Qed.

Lemma strip_all_length fuel encs (s : string) :
  Forall (λ e, e ≠ "") encs →
  (String.length (GoStr.strip_all fuel encs s) ≤ String.length s)%nat.
Proof.
  intros Hencs. revert s. induction fuel as [|fuel IH]; intros s; [done|].
  cbn [GoStr.strip_all].
  destruct (GoStr.strip_one encs s) as [s'|] eqn:Hs; [|done].
  apply strip_one_shorter in Hs; [|done]. specialize (IH s'). lia.
Qed.

Lemma space_encodings_nonempty :
  Forall (λ e, e ≠ "") GoStr.space_encodings
  ∧ Forall (λ e, e ≠ "") (String.rev <$> GoStr.space_encodings).
Proof. split; vm_compute; repeat constructor; discriminate. Qed.

(** What [TrimSpace] returns neither begins nor ends with a space, and is
    not longer than its argument. *)
Lemma TrimSpace_spec (s : string) :
  GoStr.strip_one GoStr.space_encodings (GoStr.TrimLeftSpace s) = None
  ∧ GoStr.strip_one (String.rev <$> GoStr.space_encodings)
      (String.rev (GoStr.TrimRightSpace s)) = None
  ∧ (String.length (GoStr.TrimSpace s) ≤ String.length s)%nat.
Proof.
  destruct space_encodings_nonempty as [Hl Hr]. split_and!.
  - by apply strip_all_done.
  - unfold GoStr.TrimRightSpace.
    assert (∀ t, String.rev (String.rev t) = t) as Hinv.
    { assert (∀ t u, String.rev_app (String.rev_app t u) ""
                     = String.rev_app u t) as Hgen.
      { intros t. induction t as [|c t IH]; intros u; [done|].
        cbn [String.rev_app]. by rewrite IH. }
      intros t. unfold String.rev. by rewrite Hgen. }
    rewrite Hinv. apply strip_all_done; [done|]. by rewrite rev_length.
  - unfold GoStr.TrimSpace, GoStr.TrimRightSpace, GoStr.TrimLeftSpace.
    rewrite rev_length.
    etrans; [by apply strip_all_length|]. rewrite rev_length.
    by apply strip_all_length.
Qed.

(** [evaluateCondition] has fuel enough: more of it changes nothing. *)
Lemma evaluateCondition_fuel {lib : GoLib} (fuel fuel' : nat)
    (condition : string) (pctx : PlayContext.t) :
  (String.length condition ≤ fuel)%nat →
  (String.length condition ≤ fuel')%nat →
  evaluateCondition_go fuel condition pctx
  = evaluateCondition_go fuel' condition pctx.
Proof.
  revert fuel' condition.
  induction fuel as [|fuel IH]; intros fuel' condition Hf Hf'.
  - destruct condition; [|cbn in Hf; lia]. by destruct fuel'.
  - destruct (TrimSpace_spec condition) as (_ & _ & Hlen).
    destruct fuel' as [|fuel'].
    { destruct condition; [done|cbn in Hf'; lia]. }
    cbn [evaluateCondition_go].
    destruct (GoStr.HasPrefix (GoStr.TrimSpace condition) "not ") eqn:Hnot;
      [|done].
    apply prefix_length in Hnot. cbn [String.length] in Hnot.
    rewrite (IH fuel'); [done|rewrite drop_length; lia..].
Qed.

(** ** Truthiness *)

(** What [isTruthy] does on the values other than [int64] and [float64]:
    nil is false, a boolean is itself, a string is false for the four
    texts, an [int] is false at zero, a list or a [map[string]any] is false
    when empty, and anything else is true. *)
Lemma isTruthy_table :
  isTruthy VNil = false
  ∧ (∀ b, isTruthy (VBool b) = b)
  ∧ (∀ s, isTruthy (VString s) = false ↔ s ∈ [""; "false"; "False"; "no"])
  ∧ (∀ z, isTruthy (VInt z) = false ↔ z = 0)
  ∧ (∀ l, isTruthy (VList l) = false ↔ l = [])
  ∧ (∀ m, isTruthy (VMap m) = false ↔ m = ∅)
  ∧ (∀ m, isTruthy (VStrMap m) = true)
  ∧ (∀ shown, isTruthy (VOther shown) = true).
Proof.
  split_and!; try done.
  - intros s. cbn [isTruthy]. rewrite !andb_false_iff, !negb_false_iff.
    rewrite !String.eqb_eq, !elem_of_cons, elem_of_nil. tauto.
  - intros z. cbn [isTruthy]. rewrite negb_false_iff, Z.eqb_eq. done.
  - intros l. cbn [isTruthy]. rewrite bool_decide_eq_false.
    destruct l; simpl; split; (lia || done).
  - intros m. cbn [isTruthy]. rewrite bool_decide_eq_false.
    rewrite <-map_size_empty_iff. lia.
Qed.

(** C7.  Truthiness is meant to be false for every numeric zero, but
    [isTruthy] returns true for the [int64] zero and for the [float64]
    zeros (bit patterns of +0.0 and -0.0), and false only for the [int]
    zero. *)
Theorem isTruthy_zero_of_int64_and_float64 :
  isTruthy (VInt 0) = false
  ∧ isTruthy (VInt64 0) = true
  ∧ isTruthy (VFloat64 0) = true
  ∧ isTruthy (VFloat64 (2 ^ 63)) = true.
Proof. repeat split. Qed.

(** ** Role variables *)

Lemma merge_into_lookup (m merged : gmap string value) (k : string) :
  merge_into m merged !! k
  = match m !! k with Some v => Some v | None => merged !! k end.
Proof.
  unfold merge_into.
  apply (map_fold_weak_ind
           (λ r m', r !! k = match m' !! k with
                             | Some v => Some v
                             | None => merged !! k
                             end)).
  - by rewrite lookup_empty.
  - intros i x m' r Hi IH. destruct (decide (i = k)) as [->|Hne].
    + by rewrite !lookup_insert_eq.
    + by rewrite !lookup_insert_ne.
Qed.

Lemma foldl_last_defined (ms : list (gmap string value)) (k : string)
    (acc : option value) :
  foldl (λ acc m, match m !! k with Some v => Some v | None => acc end) acc ms
  = match last_defined ms k with Some v => Some v | None => acc end.
Proof.
  unfold last_defined. revert acc.
  induction ms as [|m ms IH] using rev_ind; intros acc; [done|].
  rewrite !foldl_app. simpl. destruct (m !! k); [done|]. apply IH.
Qed.

Lemma last_defined_cons (m : gmap string value) ms (k : string) :
  last_defined (m :: ms) k
  = match last_defined ms k with Some v => Some v | None => m !! k end.
Proof.
  unfold last_defined at 1. simpl. rewrite foldl_last_defined.
  destruct (last_defined ms k); [done|]. by destruct (m !! k).
Qed.

Lemma merge_roles_lookup (f : Role.t → gmap string value) (roles : list Role.t)
    (init : gmap string value) (k : string) :
  foldl (λ acc role, merge_into (f role) acc) init roles !! k
  = match last_defined (f <$> roles) k with
    | Some v => Some v
    | None => init !! k
    end.
Proof.
  revert init. induction roles as [|role roles IH]; intros init; [done|].
  rewrite fmap_cons, last_defined_cons. simpl. rewrite IH, merge_into_lookup.
  destruct (last_defined (f <$> roles) k); [done|].
  by destruct (f role !! k).
Qed.

(** C8.  The merged map gives each key the value of the highest source
    that defines it: play vars over role vars over role defaults, and a
    later role over an earlier one.  With defaults [port: 80] and vars
    [port: 8080], [port] is 8080 without play vars and 9000 with the play
    var [port: 9000]. *)
Theorem MergeRoleVars_precedence (roles : list Role.t)
    (playVars : gmap string value) (k : string) :
  MergeRoleVars roles playVars !! k = precedence_lookup roles playVars k
  ∧ (∀ name path tasks handlers,
       let role :=
         Role.mk name path tasks handlers {[ "port" := VInt 8080 ]}
           {[ "port" := VInt 80 ]} in
       MergeRoleVars [role] ∅ !! "port" = Some (VInt 8080)
       ∧ MergeRoleVars [role] {[ "port" := VInt 9000 ]} !! "port"
         = Some (VInt 9000)).
Proof.
  split.
  - unfold MergeRoleVars, precedence_lookup.
    rewrite merge_into_lookup. destruct (playVars !! k); [done|].
    rewrite !merge_roles_lookup, lookup_empty.
    destruct (last_defined (Role.Vars <$> roles) k); [done|].
    by destruct (last_defined (Role.Defaults <$> roles) k).
  - intros name path tasks handlers role; subst role.
    split; vm_compute; reflexivity.
Qed.

(** ** Loops *)

Section LoopFacts.
Context {lib : GoLib} {World : Type} {host : Host World}.

(** The attempts at a module act on the world and the output only. *)
Lemma attempts_pctx more attempt maxAttempts run taskName task params
    (st : state World) :
  pctx (attempts more attempt maxAttempts run taskName task params st).2
  = pctx st.
Proof.
  revert attempt st. induction more as [|more IH]; intros attempt st; simpl.
  - destruct (run _ _ _) as [[err|result] w]; by destruct (1 <? attempt).
  - destruct (run _ _ _) as [[err|result] w] eqn:Hrun.
    + rewrite IH. by destruct (1 <? attempt).
    + by destruct (1 <? attempt).
Qed.

(** A call of [runSingleTask] that fails leaves the play context as it
    was. *)
Lemma runSingleTask_failed_pctx e task (st : state World) result err task' st' :
  runSingleTask e task st = (Failed result err, task', st') →
  pctx st' = pctx st.
Proof.
  unfold runSingleTask. intros Hrun.
  destruct (module_Get _) as [run|]; [|by simplify_eq].
  destruct (interpolateParams _ _) as [e'|params]; [by simplify_eq|].
  destruct (Executor.DryRun e); [by simplify_eq|].
  match type of Hrun with
  | context [attempts ?m ?a ?x ?r ?n ?t ?p ?s] =>
      pose proof (attempts_pctx m a x r n t p s) as Hp;
      destruct (attempts m a x r n t p s) as [[lastErr|res] st1]
  end; simplify_eq. exact Hp.
Qed.

(** When the loop of [runTaskLoop] ends in an error, the two loop variables
    are still set. *)
Lemma loop_items_failed_vars e loopVar i items anyChanged task (st : state World)
    result err task' st' :
  loop_items e loopVar i items anyChanged task st = (inl (result, err), task', st') →
  is_Some (PlayContext.Vars (pctx st') !! loopVar)
  ∧ is_Some (PlayContext.Vars (pctx st') !! "loop_index").
Proof.
  revert i anyChanged task st.
  induction items as [|item rest IH]; intros i anyChanged task st; simpl;
    [done|].
  destruct (runSingleTask _ _ _) as [[[r|r err'] task1] st1] eqn:Hrun.
  - apply IH.
  - intros ?; simplify_eq.
    rewrite (runSingleTask_failed_pctx _ _ _ _ _ _ _ Hrun). simpl.
    split; [|by rewrite lookup_insert_eq].
    destruct (decide (loopVar = "loop_index")) as [->|Hne].
    + by rewrite lookup_insert_eq.
    + by rewrite lookup_insert_ne, lookup_insert_eq.
Qed.

(** A loop task that fails returns with the loop variable and
    [loop_index] still in [Vars]. *)
Lemma runTaskLoop_failed_keeps_loop_vars e task (st : state World) result err task' st' :
  runTaskLoop e task st = (Failed result err, task', st') →
  is_Some (PlayContext.Vars (pctx st') !! Task.GetLoopVar task)
  ∧ is_Some (PlayContext.Vars (pctx st') !! "loop_index").
Proof.
  unfold runTaskLoop.
  destruct (loop_items _ _ _ _ _ _ _) as [[[[r err']|anyChanged] task1] st1]
    eqn:Hloop; intros ?; simplify_eq.
  eapply loop_items_failed_vars, Hloop.
Qed.

(** A loop task that succeeds returns with neither the loop variable nor
    [loop_index] in [Vars]. *)
Lemma runTaskLoop_done_clears_loop_vars e task (st : state World) result task' st' :
  runTaskLoop e task st = (Done result, task', st') →
  PlayContext.Vars (pctx st') !! Task.GetLoopVar task = None
  ∧ PlayContext.Vars (pctx st') !! "loop_index" = None.
Proof.
  unfold runTaskLoop.
  destruct (loop_items _ _ _ _ _ _ _) as [[[[r err']|anyChanged] task1] st1];
    intros ?; simplify_eq. simpl.
  split; [|by rewrite lookup_delete_eq].
  destruct (decide (Task.GetLoopVar task = "loop_index")) as [->|Hne].
  - by rewrite lookup_delete_eq.
  - by rewrite lookup_delete_ne, lookup_delete_eq.
Qed.

End LoopFacts.

(** C1.  A loop task is to leave neither its loop variable nor
    [loop_index] in [Vars], also when an iteration fails; but
    [runTaskLoop] returns from inside the loop on an error, before the two
    deletions: after the first iteration of [failing_loop_task] fails,
    [item] and [loop_index] are still set. *)
Theorem runTaskLoop_error_leaves_loop_vars :
  let '(result, _, st) :=
    runTaskLoop (lib := example_lib) (host := example_host) run_for_real
      failing_loop_task (State (example_pctx ∅) 0%nat []) in
  (∃ r, result = Failed r "boom")
  ∧ PlayContext.Vars (pctx st) !! "item" = Some (VString "a")
  ∧ PlayContext.Vars (pctx st) !! "loop_index" = Some (VInt 0)
  ∧ world st = 1%nat.
Proof. vm_compute. split; [by eexists|done]. Qed.

(** ** Templates *)

Section StringFacts.

Lemma app_String c (s t : string) : String c s +:+ t = String c (s +:+ t).
Proof. reflexivity. Qed.

Lemma app_empty_l (t : string) : "" +:+ t = t.
Proof. reflexivity. Qed.

Lemma str_app_assoc (s t u : string) : (s +:+ t) +:+ u = s +:+ t +:+ u.
Proof.
  induction s as [|c s IH]; [done|]. by rewrite !app_String, IH.
Qed.

Lemma drop_app_length (m rest : string) :
  GoStr.drop (String.length m) (m +:+ rest) = rest.
Proof. induction m as [|c m IH]; [by destruct rest|]. exact IH. Qed.

Lemma prefix_app (p rest : string) : GoStr.prefix p (p +:+ rest) = true.
Proof.
  induction p as [|a p IH]; [done|].
  rewrite app_String. cbn [GoStr.prefix]. by rewrite Ascii.eqb_refl, IH.
Qed.

Lemma prefix_split (p s : string) :
  GoStr.prefix p s = true → s = p +:+ GoStr.drop (String.length p) s.
Proof.
  revert s. induction p as [|a p IH]; intros s Hp.
  - by destruct s.
  - destruct s as [|b s]; [done|]. cbn [GoStr.prefix] in Hp.
    apply andb_true_iff in Hp as [->%Ascii.eqb_eq Hp].
    rewrite app_String. cbn [String.length GoStr.drop]. by rewrite <-IH.
Qed.

Lemma span_body_split (t body rest : string) :
  span_body t = (body, rest) → t = body +:+ rest.
Proof.
  revert body rest. induction t as [|c t IH]; intros body rest; simpl.
  - by intros [= <- <-].
  - destruct (Ascii.eqb c close_brace); [by intros [= <- <-]|].
    destruct (span_body t) as [body' rest'] eqn:Hspan.
    intros [= <- <-]. by rewrite app_String, <-(IH body' rest').
Qed.

(** The bytes up to the first closing brace do not depend on what follows
    it. *)
Lemma span_body_cut (t body rest rest' : string) :
  span_body t = (body, String close_brace rest) →
  span_body (body +:+ String close_brace rest') = (body, String close_brace rest').
Proof.
  revert body. induction t as [|c t IH]; intros body; simpl; [done|].
  destruct (Ascii.eqb c close_brace) eqn:Hc.
  - intros [= <- _]. rewrite app_empty_l. reflexivity.
  - destruct (span_body t) as [body' r] eqn:Hspan.
    intros [= <- ->]. rewrite app_String. simpl. rewrite Hc.
    by rewrite (IH body').
Qed.

(** A match is a prefix of the text it is found in, and matches on its
    own with the same group. *)
Lemma match_varPattern_split (s m g rest : string) :
  match_varPattern s = Some (m, g, rest) →
  s = m +:+ rest ∧ match_varPattern m = Some (m, g, "") ∧ m ≠ "".
Proof.
  unfold match_varPattern.
  destruct (GoStr.prefix "{{" s) eqn:Hopen; [|done].
  destruct (span_body (GoStr.drop 2 s)) as [body r] eqn:Hspan.
  destruct (negb (String.eqb body "")) eqn:Hbody; [|done].
  destruct (GoStr.prefix "}}" r) eqn:Hclose; [|done].
  cbn [andb]. intros [= <- <- <-].
  apply prefix_split in Hopen. apply prefix_split in Hclose.
  change (String.length "{{") with 2%nat in Hopen.
  change (String.length "}}") with 2%nat in Hclose.
  pose proof (span_body_split _ _ _ Hspan) as Hs.
  split_and!; [| |done].
  - rewrite Hopen at 1. rewrite Hs. rewrite Hclose at 1.
    by rewrite !str_app_assoc.
  - rewrite prefix_app.
    replace (GoStr.drop 2 ("{{" +:+ body +:+ "}}"))
      with (body +:+ String close_brace (String close_brace ""))
      by reflexivity.
    rewrite Hclose in Hspan.
    change ("}}" +:+ GoStr.drop 2 r)
      with (String close_brace (String close_brace (GoStr.drop 2 r))) in Hspan.
    rewrite (span_body_cut _ _ _ (String close_brace "") Hspan).
    rewrite Hbody. reflexivity.
Qed.

(** Bytes still to pass are passed unread. *)
Lemma replace_go_skip repl (n : nat) (s : string) :
  replace_go repl n s = replace_go repl O (GoStr.drop n s).
Proof.
  revert n. induction s as [|c s IH]; intros [|n]; simpl; done.
Qed.

Lemma replace_go_match repl (s m g rest : string) :
  match_varPattern s = Some (m, g, rest) →
  replace_go repl O s = repl m +:+ replace_go repl O rest.
Proof.
  intros Hm. destruct (match_varPattern_split _ _ _ _ Hm) as (Hs & _ & Hne).
  destruct m as [|c m]; [done|]. rewrite Hs in Hm |- *.
  rewrite app_String in Hm |- *. simpl. rewrite Hm.
  rewrite replace_go_skip. simpl. rewrite Nat.sub_0_r.
  by rewrite drop_app_length.
Qed.

Lemma replace_go_literal repl (pre rest : string) :
  GoStr.Contains pre "{" = false →
  replace_go repl O (pre +:+ rest) = pre +:+ replace_go repl O rest.
Proof.
  induction pre as [|c pre IH]; [done|]. cbn [GoStr.Contains]. intros Hc.
  apply orb_false_iff in Hc as [Hc Hpre].
  rewrite !app_String. cbn [replace_go].
  assert (match_varPattern (String c (pre +:+ rest)) = None) as ->.
  { unfold match_varPattern. cbn [GoStr.prefix] in Hc |- *.
    rewrite andb_true_r in Hc. by rewrite Hc. }
  by rewrite IH.
Qed.

Lemma span_body_no_brace (t body rest : string) :
  span_body t = (body, rest) → GoStr.Contains body "}" = false.
Proof.
  revert body rest. induction t as [|c t IH]; intros body rest; simpl.
  - by intros [= <- <-].
  - destruct (Ascii.eqb c close_brace) eqn:Hc; [by intros [= <- <-]|].
    destruct (span_body t) as [body' rest'] eqn:Hspan.
    intros [= <- <-]. cbn [GoStr.Contains GoStr.prefix].
    assert (Ascii.eqb "}" c = false) as ->
      by (rewrite Ascii.eqb_sym; exact Hc).
    cbn [andb orb]. by eapply IH.
Qed.

Lemma span_body_body (body rest : string) :
  GoStr.Contains body "}" = false →
  span_body (body +:+ String close_brace rest) = (body, String close_brace rest).
Proof.
  induction body as [|c body IH]; intros Hbody.
  - rewrite app_empty_l. cbn [span_body]. by rewrite Ascii.eqb_refl.
  - cbn [GoStr.Contains GoStr.prefix] in Hbody.
    apply orb_false_iff in Hbody as [Hc Hbody]. rewrite andb_true_r in Hc.
    assert (Ascii.eqb c close_brace = false) as Hc'
      by (rewrite Ascii.eqb_sym; exact Hc).
    rewrite app_String. cbn [span_body]. rewrite Hc'. by rewrite IH.
Qed.

(** The pattern matches at the front of a string exactly when the string
    begins with an occurrence, and the match is that occurrence. *)
Lemma match_varPattern_occurrence (body rest : string) :
  is_body body →
  match_varPattern (occurrence body +:+ rest)
  = Some (occurrence body, group1 body, rest).
Proof.
  intros [Hne Hbody]. unfold match_varPattern, occurrence.
  rewrite !str_app_assoc, prefix_app.
  change 2%nat with (String.length "{{") at 1. rewrite drop_app_length.
  change ("}}" +:+ rest)
    with (String close_brace (String close_brace rest)).
  rewrite (span_body_body _ _ Hbody).
  apply String.eqb_neq in Hne. rewrite Hne. reflexivity.
Qed.

Lemma match_varPattern_Some (s m g rest : string) :
  match_varPattern s = Some (m, g, rest) →
  ∃ body, is_body body ∧ m = occurrence body ∧ g = group1 body
          ∧ s = occurrence body +:+ rest.
Proof.
  intros Hm. destruct (match_varPattern_split _ _ _ _ Hm) as (Hs & _ & _).
  revert Hm. unfold match_varPattern.
  destruct (GoStr.prefix "{{" s) eqn:Hopen; [|done].
  destruct (span_body (GoStr.drop 2 s)) as [body r] eqn:Hspan.
  destruct (negb (String.eqb body "")) eqn:Hbody; [|done].
  destruct (GoStr.prefix "}}" r) eqn:Hclose; [|done].
  cbn [andb]. intros [= <- <- <-]. exists body. split_and!; try done.
  split.
  - apply negb_true_iff in Hbody. by apply String.eqb_neq in Hbody.
  - by eapply span_body_no_brace.
Qed.

Lemma match_varPattern_None (s : string) :
  match_varPattern s = None ↔ ¬ begins_with_occurrence s.
Proof.
  split.
  - intros Hnone (body & rest & Hbody & ->).
    by rewrite match_varPattern_occurrence in Hnone.
  - intros Hnot. destruct (match_varPattern s) as [[[m g] rest]|] eqn:Hm;
      [|done].
    destruct Hnot. apply match_varPattern_Some in Hm
      as (body & Hbody & _ & _ & ->).
    by exists body, rest.
Qed.

(** Literal text goes through the replacement unchanged. *)
Lemma replace_go_literal_before repl (lit tail : string) :
  literal_before lit tail →
  replace_go repl O (lit +:+ tail) = lit +:+ replace_go repl O tail.
Proof.
  induction lit as [|c lit IH]; intros Hlit; [done|].
  rewrite !app_String. cbn [replace_go].
  assert (match_varPattern (String c (lit +:+ tail)) = None) as ->.
  { apply match_varPattern_None.
    apply (Hlit O). cbn [String.length]. lia. }
  rewrite IH; [done|]. intros i Hi.
  apply (Hlit (S i)). cbn [String.length]. lia.
Qed.

Lemma str_app_empty_r (s : string) : s +:+ "" = s.
Proof. induction s as [|c s IH]; [done|]. by rewrite app_String, IH. Qed.

Lemma length_str_app (s t : string) :
  String.length (s +:+ t) = (String.length s + String.length t)%nat.
Proof.
  induction s as [|c s IH]; [done|].
  rewrite app_String. cbn [String.length]. by rewrite IH.
Qed.

Lemma literal_before_cons (c : ascii) (lit tail : string) :
  match_varPattern (String c (lit +:+ tail)) = None →
  literal_before lit tail →
  literal_before (String c lit) tail.
Proof.
  intros Hnone Hlit [|i] Hi.
  - by apply match_varPattern_None.
  - apply (Hlit i). cbn [String.length] in Hi. lia.
Qed.

(** Every string is literal text and occurrences in turn. *)
Lemma split_exists (s : string) :
  ∃ pieces last, s = assemble occurrence pieces last ∧ split_ok pieces last.
Proof.
  remember (String.length s) as n eqn:Hn.
  assert (String.length s ≤ n)%nat as Hlen by lia. clear Hn.
  revert s Hlen. induction n as [|n IH]; intros s Hlen.
  { destruct s; [|cbn in Hlen; lia]. exists [], "". split; [done|].
    intros i Hi. cbn in Hi. lia. }
  destruct s as [|c s].
  { exists [], "". split; [done|]. intros i Hi. cbn in Hi. lia. }
  destruct (match_varPattern (String c s)) as [[[m g] rest]|] eqn:Hm.
  - apply match_varPattern_Some in Hm as (body & Hbody & _ & _ & Hs).
    destruct (IH rest) as (pieces & last & -> & Hok).
    { assert (String.length (String c s)
              = (4 + String.length body + String.length rest)%nat) as Hl.
      { rewrite Hs. unfold occurrence. rewrite !length_str_app.
        cbn [String.length]. lia. }
      lia. }
    exists (("", body) :: pieces), last. split; [exact Hs|].
    split_and!; [done| |done]. intros i Hi. cbn in Hi. lia.
  - destruct (IH s) as (pieces & last & Hs & Hok);
      [cbn [String.length] in Hlen; lia|].
    destruct pieces as [|[lit body] pieces].
    + exists [], (String c last). cbn [assemble split_ok] in Hs, Hok |- *.
      split; [by rewrite Hs|].
      apply literal_before_cons; [|done].
      by rewrite str_app_empty_r, <-Hs.
    + exists ((String c lit, body) :: pieces), last.
      cbn [assemble split_ok] in Hs, Hok |- *.
      destruct Hok as (Hbody & Hlit & Hok).
      split; [by rewrite Hs|]. split_and!; [done| |done].
      apply literal_before_cons; [|done].
      unfold occurrence in *. by rewrite <-Hs.
Qed.

End StringFacts.

Section TemplateFacts.
Context {lib : GoLib}.

(** An expression without a filter resolves to what [Vars] holds under
    its name, unless a registered result has the name. *)
Lemma resolveVariable_plain (expr : string) (pctx : PlayContext.t) (v : value) :
  GoStr.Index (GoStr.TrimSpace expr) "|" ≤ 0 →
  PlayContext.Registered pctx !! GoStr.TrimSpace expr = None →
  PlayContext.Vars pctx !! GoStr.TrimSpace expr = Some v →
  resolveVariable expr pctx = inr v.
Proof.
  intros Hidx Hreg Hvars. unfold resolveVariable.
  destruct (0 <? _) eqn:Hlt; [apply Z.ltb_lt in Hlt; lia|].
  unfold lookupVariable. by rewrite Hreg, Hvars.
Qed.

(** A name that is not defined resolves, without error, to nil. *)
Lemma resolveVariable_undefined (expr : string) (pctx : PlayContext.t) :
  GoStr.Index (GoStr.TrimSpace expr) "|" ≤ 0 →
  GoStr.Contains (GoStr.TrimSpace expr) "." = false →
  PlayContext.Registered pctx !! GoStr.TrimSpace expr = None →
  PlayContext.Vars pctx !! GoStr.TrimSpace expr = None →
  resolveVariable expr pctx = inr VNil.
Proof.
  intros Hidx Hdot Hreg Hvars. unfold resolveVariable.
  destruct (0 <? _) eqn:Hlt; [apply Z.ltb_lt in Hlt; lia|].
  unfold lookupVariable. by rewrite Hreg, Hvars, Hdot.
Qed.

(** What [interpolateString] puts in the place of a match [m] with group
    [g]. *)
Lemma replace_match_spec (pctx : PlayContext.t) (s m g post : string) :
  match_varPattern s = Some (m, g, post) →
  replace_match pctx m
  = match resolveVariable (GoStr.TrimSpace g) pctx with
    | inl _ => m
    | inr val => formatValue val
    end.
Proof.
  intros Hm. destruct (match_varPattern_split _ _ _ _ Hm) as (_ & Hself & _).
  unfold replace_match. by rewrite Hself.
Qed.

Lemma ReplaceAllStringFunc_splice (pctx : PlayContext.t)
    (pre rest m g post : string) :
  GoStr.Contains pre "{" = false →
  match_varPattern rest = Some (m, g, post) →
  ReplaceAllStringFunc (pre +:+ rest) (replace_match pctx)
  = pre +:+ match resolveVariable (GoStr.TrimSpace g) pctx with
            | inl _ => m
            | inr val => formatValue val
            end
        +:+ ReplaceAllStringFunc post (replace_match pctx).
Proof.
  intros Hpre Hm. unfold ReplaceAllStringFunc.
  rewrite (replace_go_literal _ _ _ Hpre), (replace_go_match _ _ _ _ _ Hm).
  by rewrite (replace_match_spec _ _ _ _ _ Hm).
Qed.

End TemplateFacts.

(** C2, as stated, fails: in a mixed string an expression that names no
    variable does not fail to resolve, it resolves to nil and is replaced
    by the text [<nil>]. *)
Lemma interpolateString_undefined_is_not_verbatim :
  whole_reference "x={{ missing }}" = None
  ∧ lookupVariable "missing" (example_pctx ∅) = VNil
  ∧ interpolateString (lib := example_lib) "x={{ missing }}" (example_pctx ∅)
    = inr (VString "x=<nil>")
  ∧ interpolateString (lib := example_lib) "x={{ missing }}" (example_pctx ∅)
    ≠ inr (VString "x={{ missing }}").
Proof. split_and!; [vm_compute; reflexivity..|vm_compute; discriminate]. Qed.

(** The replacement of the occurrences of a string in pieces. *)
Lemma ReplaceAllStringFunc_assemble {lib : GoLib} (pctx : PlayContext.t)
    (pieces : list (string * string)) (last : string) :
  split_ok pieces last →
  ReplaceAllStringFunc (assemble occurrence pieces last) (replace_match pctx)
  = assemble (rendered pctx) pieces last.
Proof.
  unfold ReplaceAllStringFunc.
  induction pieces as [|[lit body] pieces IH]; cbn [assemble split_ok].
  - intros Hlast. rewrite <-(str_app_empty_r last) at 1.
    rewrite (replace_go_literal_before _ _ _ Hlast).
    apply str_app_empty_r.
  - intros (Hbody & Hlit & Hok).
    rewrite (replace_go_literal_before _ _ _ Hlit).
    pose proof (match_varPattern_occurrence body
                  (assemble occurrence pieces last) Hbody) as Hm.
    rewrite (replace_go_match _ _ _ _ _ Hm).
    rewrite (replace_match_spec _ _ _ _ _ Hm). fold (rendered pctx body).
    by rewrite (IH Hok).
Qed.

(** C2, amended.  A string that is not one reference as a whole never makes
    interpolation fail.  The string is, in one way or another, literal
    text and occurrences in turn; and however it is so, the result is the
    same literal text, braces included, with each occurrence replaced on
    its own: by itself when resolving its expression returns an error,
    and by the default formatting of the value otherwise, which for a
    name that is not defined is nil and reads [<nil>].  A text without an
    opening brace is unchanged. *)
Theorem interpolateString_mixed {lib : GoLib} (pctx : PlayContext.t)
    (s : string) :
  whole_reference s = None →
  (∃ pieces last, s = assemble occurrence pieces last ∧ split_ok pieces last)
  ∧ (∀ pieces last,
       s = assemble occurrence pieces last → split_ok pieces last →
       interpolateString s pctx
       = inr (VString (assemble (rendered pctx) pieces last)))
  ∧ (∀ body err,
       resolveVariable (GoStr.TrimSpace (group1 body)) pctx = inl err →
       rendered pctx body = occurrence body)
  ∧ (∀ body val,
       resolveVariable (GoStr.TrimSpace (group1 body)) pctx = inr val →
       rendered pctx body = formatValue val)
  ∧ (∀ body,
       let name := GoStr.TrimSpace (GoStr.TrimSpace (group1 body)) in
       GoStr.Index name "|" ≤ 0 →
       GoStr.Contains name "." = false →
       PlayContext.Registered pctx !! name = None →
       PlayContext.Vars pctx !! name = None →
       rendered pctx body = "<nil>")
  ∧ (GoStr.Contains s "{" = false →
     interpolateString s pctx = inr (VString s)).
Proof.
  intros Hmixed. split_and!.
  - apply split_exists.
  - intros pieces last -> Hok. unfold interpolateString. rewrite Hmixed.
    by rewrite ReplaceAllStringFunc_assemble.
  - intros body err Herr. unfold rendered. by rewrite Herr.
  - intros body val Hval. unfold rendered. by rewrite Hval.
  - intros body name Hidx Hdot Hreg Hvars. unfold rendered.
    by rewrite resolveVariable_undefined.
  - intros Hs. unfold interpolateString. rewrite Hmixed. do 2 f_equal.
    unfold ReplaceAllStringFunc. clear Hmixed.
    induction s as [|c s IH]; [done|].
    cbn [GoStr.Contains] in Hs. apply orb_false_iff in Hs as [Hc Hs].
    cbn [replace_go].
    assert (match_varPattern (String c s) = None) as ->.
    { unfold match_varPattern. cbn [GoStr.prefix] in Hc |- *.
      rewrite andb_true_r in Hc. by rewrite Hc. }
    by rewrite IH.
Qed.

(** A string whose literal text holds a brace and whose tail is an
    occurrence: the defined variable is formatted, the brace stays, and
    the occurrence with an unknown filter stays as it is. *)
Lemma interpolateString_mixed_witness :
  let pctx := example_pctx {[ "a" := VInt 1 ]} in
  whole_reference "{{ a }} { {{ b | nope }}" = None
  ∧ interpolateString (lib := example_lib) "{{ a }} { {{ b | nope }}" pctx
    = inr (VString "1 { {{ b | nope }}").
Proof.
  intros pctx.
  assert (whole_reference "{{ a }} { {{ b | nope }}" = None) as Hmixed
    by (vm_compute; reflexivity).
  split; [exact Hmixed|].
  destruct (interpolateString_mixed (lib := example_lib) pctx _ Hmixed)
    as (_ & Heq & _).
  rewrite (Heq [("", " a "); (" { ", " b | nope ")] "").
  - vm_compute. reflexivity.
  - reflexivity.
  - cbn [split_ok]. split_and!.
    + split; [discriminate|vm_compute; reflexivity].
    + intros i Hi. cbn in Hi. lia.
    + split; [discriminate|vm_compute; reflexivity].
    + intros [|[|[|i]]] Hi;
        [apply match_varPattern_None; vm_compute; reflexivity..
        |cbn in Hi; lia].
    + intros i Hi. cbn in Hi. lia.
Defined.

(** C3.  A string that, once trimmed, is one [{{ ... }}] block without
    another [{{] inside is interpolated to what its expression resolves to:
    the value [Vars] holds under a plain name comes back as it is, with its
    type (an integer as an integer, a map as a map).  With [count] at 42,
    [{{ count }}] yields the integer 42 and [n={{ count }}] the string
    [n=42]. *)
Theorem interpolateString_whole {lib : GoLib} (pctx : PlayContext.t)
    (s inner : string) :
  whole_reference s = Some inner →
  interpolateString s pctx = resolveVariable inner pctx
  ∧ (∀ v, GoStr.Index (GoStr.TrimSpace inner) "|" ≤ 0 →
          PlayContext.Registered pctx !! GoStr.TrimSpace inner = None →
          PlayContext.Vars pctx !! GoStr.TrimSpace inner = Some v →
          interpolateString s pctx = inr v)
  ∧ (PlayContext.Registered pctx !! "count" = None →
     PlayContext.Vars pctx !! "count" = Some (VInt 42) →
     interpolateString "{{ count }}" pctx = inr (VInt 42)
     ∧ interpolateString "n={{ count }}" pctx = inr (VString "n=42"))
  ∧ (∀ m, PlayContext.Registered pctx !! "settings" = None →
          PlayContext.Vars pctx !! "settings" = Some (VMap m) →
          interpolateString "  {{settings}} " pctx = inr (VMap m)).
Proof.
  intros Hwhole.
  assert (interpolateString s pctx = resolveVariable inner pctx) as Heq.
  { unfold interpolateString. by rewrite Hwhole. }
  split_and!; [done| | |].
  - intros v Hidx Hreg Hvars. rewrite Heq.
    by apply resolveVariable_plain.
  - intros Hreg Hvars.
    assert (resolveVariable "count" pctx = inr (VInt 42)) as Hcount.
    { apply resolveVariable_plain; [vm_compute; discriminate|exact Hreg|].
      exact Hvars. }
    split.
    + unfold interpolateString.
      assert (whole_reference "{{ count }}" = Some "count") as ->
        by (vm_compute; reflexivity).
      exact Hcount.
    + unfold interpolateString.
      assert (whole_reference "n={{ count }}" = None) as ->
        by (vm_compute; reflexivity).
      rewrite (ReplaceAllStringFunc_splice pctx "n=" "{{ count }}"
                 "{{ count }}" "count" "");
        [|vm_compute; reflexivity..].
      assert (GoStr.TrimSpace "count" = "count") as ->
        by (vm_compute; reflexivity).
      rewrite Hcount. reflexivity.
  - intros m Hreg Hvars. unfold interpolateString.
    assert (whole_reference "  {{settings}} " = Some "settings") as ->
      by (vm_compute; reflexivity).
    apply resolveVariable_plain; [vm_compute; discriminate|exact Hreg|].
    exact Hvars.
Qed.

Lemma interpolateString_whole_witness :
  let pctx := example_pctx {[ "count" := VInt 42 ]} in
  whole_reference " {{ count }}" = Some "count"
  ∧ interpolateString (lib := example_lib) " {{ count }}" pctx = inr (VInt 42).
Proof.
  intros pctx.
  assert (whole_reference " {{ count }}" = Some "count") as Hwhole
    by (vm_compute; reflexivity).
  split; [exact Hwhole|].
  destruct (interpolateString_whole (lib := example_lib) pctx _ _ Hwhole)
    as (_ & Hplain & _).
  apply Hplain; vm_compute; [discriminate|reflexivity..].
Defined.

(** ** Parsing a task *)

Lemma module_keys_cons key v rest :
  module_keys ((key, v) :: rest)
  = if knownTaskFields key then module_keys rest
    else key :: module_keys rest.
Proof.
  unfold module_keys. rewrite fmap_cons. cbn [fst].
  destruct (knownTaskFields key) eqn:Hk.
  - by rewrite filter_cons_False by congruence.
  - by rewrite filter_cons_True.
Qed.

Lemma module_keys_perm (order entries : list (string * value)) :
  order ≡ₚ entries → module_keys order ≡ₚ module_keys entries.
Proof. intros Hp. unfold module_keys. by rewrite Hp. Qed.

(** What the loop over the raw entries leaves: the task as it was when
    there is no module key, the task with the one module key when it had no
    module yet, and an error otherwise. *)
Lemma find_module_spec (order : list (string * value)) (task : Task.t) :
  "" ∉ module_keys order →
  match module_keys order with
  | [] => find_module order task = inr task
  | [key] =>
      if decide (Task.Module task = "") then
        ∃ v, (key, v) ∈ order
             ∧ find_module order task
               = inr (Task.set_Module key (module_params v) task)
      else ∃ e, find_module order task = inl e
  | _ => ∃ e, find_module order task = inl e
  end.
Proof.
  revert task. induction order as [|[key v] rest IH]; intros task Hne; [done|].
  rewrite module_keys_cons in Hne |- *. cbn [find_module].
  destruct (knownTaskFields key) eqn:Hk.
  - specialize (IH task Hne).
    destruct (module_keys rest) as [|k1 [|k2 ks]]; [done| |done].
    destruct (decide (Task.Module task = "")); [|done].
    destruct IH as (v' & Hin & Hfind). exists v'. split; [|done].
    by apply list_elem_of_further.
  - apply not_elem_of_cons in Hne as [Hkey Hne].
    destruct (String.eqb (Task.Module task) "") eqn:Hmod; cbn [negb].
    + apply String.eqb_eq in Hmod.
      specialize (IH (Task.set_Module key (module_params v) task) Hne).
      destruct (module_keys rest) as [|k1 [|k2 ks]].
      * rewrite decide_True by done. exists v. split; [|done].
        apply list_elem_of_here.
      * rewrite decide_False in IH by (simpl; congruence). done.
      * done.
    + apply String.eqb_neq in Hmod.
      destruct (module_keys rest) as [|k1 ks]; [|by eexists].
      rewrite decide_False by done. by eexists.
Qed.

Lemma parseRawTask_directives order raw :
  parseRawTask order raw = find_module order (directives raw).
Proof. reflexivity. Qed.

Lemma Validate_with_module (task : Task.t) :
  Task.Module task ≠ "" →
  Task.Validate task
  = if Task.Retries task <? 0 then Some "retries cannot be negative"
    else if Task.Delay task <? 0 then Some "delay cannot be negative"
    else None.
Proof.
  intros Hm. unfold Task.Validate.
  by apply String.eqb_neq in Hm as ->.
Qed.

(** C4, as stated, fails: a mapping without any module key goes through
    [parseRawTask] without error; a mapping with exactly one module key is
    refused when its [retries] is negative; and so is one whose only module
    key is the empty string, which [parseRawTask] cannot tell from no module
    at all. *)
Lemma parseTask_not_only_module_count :
  let no_module : gmap string value := {[ "name" := VString "x" ]} in
  let one_module : gmap string value :=
    <[ "command" := VNil ]> {[ "retries" := VInt (-1) ]} in
  let empty_key : gmap string value := {[ "" := VString "echo" ]} in
  (length (module_keys (map_to_list no_module)) = 0%nat
   ∧ parseRawTask (map_to_list no_module) no_module = inr (directives no_module))
  ∧ (length (module_keys (map_to_list one_module)) = 1%nat
     ∧ parseTask (map_to_list one_module) one_module
       = inl "retries cannot be negative")
  ∧ (length (module_keys (map_to_list empty_key)) = 1%nat
     ∧ parseTask (map_to_list empty_key) empty_key
       = inl "task has no module specified").
Proof. vm_compute. done. Qed.

(** C4, amended.  For a raw task without the empty string as a key, in
    whatever order its entries are ranged over: loading the task
    ([parseRawTask], then [Validate]) succeeds exactly when there is one
    key that is not a directive and neither [retries] nor [delay] is
    negative, and that key is then the module of the task, with the
    parameters its value stands for; without such a key [parseRawTask]
    returns a task without module, which [Validate] refuses; with two or
    more [parseRawTask] fails. *)
Theorem parseTask_module_key (order : list (string * value))
    (raw : gmap string value) :
  order ≡ₚ map_to_list raw →
  raw !! "" = None →
  let n := length (module_keys (map_to_list raw)) in
  ((∃ task, parseTask order raw = inr task)
   ↔ n = 1%nat ∧ 0 ≤ raw_int raw "retries" ∧ 0 ≤ raw_int raw "delay")
  ∧ (∀ task, parseTask order raw = inr task →
       module_keys (map_to_list raw) = [Task.Module task]
       ∧ ∃ v, raw !! Task.Module task = Some v
              ∧ Task.Params task = module_params v)
  ∧ (n = 0%nat →
       parseRawTask order raw = inr (directives raw)
       ∧ parseTask order raw = inl "task has no module specified")
  ∧ ((2 ≤ n)%nat →
       ∃ e, parseRawTask order raw = inl e ∧ parseTask order raw = inl e).
Proof.
  intros Hperm Hempty n.
  pose proof (module_keys_perm _ _ Hperm) as Hkeys.
  assert ("" ∉ module_keys order) as Hne.
  { unfold module_keys. intros [_ Hin]%list_elem_of_filter.
    apply list_elem_of_fmap in Hin as ([k v] & Hk & Hin). simpl in Hk. subst k.
    rewrite Hperm in Hin. apply elem_of_map_to_list in Hin. congruence. }
  pose proof (find_module_spec order (directives raw) Hne) as Hfind.
  rewrite <-parseRawTask_directives in Hfind.
  assert (length (module_keys order) = n) as Hlen by (by rewrite Hkeys).
  unfold parseTask.
  destruct (module_keys order) as [|key [|key2 keys]] eqn:Hks.
  - (* no module key *)
    simpl in Hlen. rewrite Hfind. cbn.
    split_and!; [split| | |]; try (intros; lia || done).
    by intros [task ?].
  - (* one module key *)
    apply Permutation_singleton_l in Hkeys. simpl in Hlen.
    rewrite decide_True in Hfind by done.
    destruct Hfind as (v & Hin & ->).
    assert (key ≠ "") as Hkey by (intros ->; apply Hne, list_elem_of_here).
    assert (raw !! key = Some v) as Hv.
    { apply elem_of_map_to_list. by rewrite <-Hperm. }
    rewrite Validate_with_module by done. cbn.
    split_and!; [| |intros; lia..].
    + destruct (Z.ltb_spec (raw_int raw "retries") 0);
        [split; [by intros [? ?]|lia]|].
      destruct (Z.ltb_spec (raw_int raw "delay") 0);
        [split; [by intros [? ?]|lia]|].
      split; [done|by eexists].
    + intros task Htask.
      destruct (raw_int raw "retries" <? 0); [done|].
      destruct (raw_int raw "delay" <? 0); [done|].
      simplify_eq. cbn. split; [done|]. by exists v.
  - (* two module keys or more *)
    simpl in Hlen. cbn beta iota in Hfind. destruct Hfind as [e ->].
    split_and!; [split| | |]; try (intros; lia || done).
    + by intros [task ?].
    + intros _. by exists e.
Qed.

Lemma parseTask_module_key_witness :
  let raw : gmap string value :=
    <[ "name" := VString "install nginx" ]>
      (<[ "apt" := VString "name=nginx" ]> {[ "retries" := VInt 2 ]}) in
  ∃ task, parseTask (map_to_list raw) raw = inr task
          ∧ Task.Module task = "apt".
Proof.
  intros raw.
  assert (map_to_list raw ≡ₚ map_to_list raw) as Hperm by reflexivity.
  assert (raw !! "" = None) as Hempty by (vm_compute; reflexivity).
  destruct (parseTask_module_key _ raw Hperm Hempty) as (Hiff & Hmod & _).
  destruct (proj2 Hiff) as [task Htask].
  { vm_compute. repeat split; discriminate. }
  exists task. split; [exact Htask|].
  destruct (Hmod task Htask) as [Hkeys _].
  assert (module_keys (map_to_list raw) = ["apt"]) as Hapt
    by (vm_compute; reflexivity).
  rewrite Hapt in Hkeys. by injection Hkeys.
Defined.

(** ** Retries *)

Lemma module_runs_cons ev evs :
  module_runs (ev :: evs)
  = match ev with
    | ModuleRun m p => (m, p) :: module_runs evs
    | _ => module_runs evs
    end.
Proof. by destruct ev. Qed.

Lemma sleeps_cons ev evs :
  sleeps (ev :: evs)
  = match ev with Sleep d => d :: sleeps evs | _ => sleeps evs end.
Proof. by destruct ev. Qed.

Lemma module_runs_app evs1 evs2 :
  module_runs (evs1 ++ evs2) = module_runs evs1 ++ module_runs evs2.
Proof. apply omap_app. Qed.

Lemma sleeps_app evs1 evs2 : sleeps (evs1 ++ evs2) = sleeps evs1 ++ sleeps evs2.
Proof. apply omap_app. Qed.

Lemma wrap64_small (z : Z) : - 2 ^ 63 ≤ z < 2 ^ 63 → wrap64 z = z.
Proof. intros Hz. unfold wrap64. rewrite Z.mod_small; lia. Qed.

Lemma ExpandShorthand_fields (task : Task.t) :
  Task.Retries (ExpandShorthand task) = Task.Retries task
  ∧ Task.Delay (ExpandShorthand task) = Task.Delay task
  ∧ Task.Module (ExpandShorthand task) = Task.Module task
  ∧ Task.Name (ExpandShorthand task) = Task.Name task
  ∧ Task.Notify (ExpandShorthand task) = Task.Notify task
  ∧ Task.Register (ExpandShorthand task) = Task.Register task.
Proof.
  unfold ExpandShorthand.
  destruct (Task.Params task !! "_raw") as [[]|]; try done.
  by destruct (negb _).
Qed.

Section RetryFacts.
Context {lib : GoLib} {World : Type} {host : Host World}.

Implicit Types (st : state World) (task : Task.t).

Variable run :
  option connector → gmap string value → World → (error + Result.t) * World.
Variable conn : option connector.
Variable params : gmap string value.

Lemma attempts_trace more attempt maxAttempts taskName task st :
  PlayContext.Connector (pctx st) = conn →
  (1 ≤ attempt) → (attempt + Z.of_nat more < max_int) →
  ∀ k, (k ≤ more)%nat →
  (∀ i, (i < k)%nat → ∃ err, attempt_result run conn params (world st) i = inl err) →
  ∀ r, attempt_result run conn params (world st) k = r →
  (k = more ∨ ∃ result, r = inr result) →
  attempts more attempt maxAttempts run taskName task params st
  = (r, State (pctx st) (world_after run conn params (world st) (S k))
          (trace st
             ++ (if 1 <? attempt
                 then [OutInfoRetry attempt maxAttempts taskName;
                       Sleep (delay_duration task)]
                 else [])
             ++ ModuleRun (Task.Module task) params
                :: retry_events taskName (Task.Module task) params
                     maxAttempts (delay_duration task) (attempt + 1) k)).
Proof.
  intros Hconn. revert attempt st Hconn.
  induction more as [|more IH]; intros attempt st Hconn Ha Hmax k Hk Hfail r Hr Hend.
  - assert (k = O) as -> by lia. unfold attempt_result in Hr. simpl in Hr.
    simpl. destruct (1 <? attempt) eqn:Hlt; simpl; rewrite Hconn;
      destruct (run conn params (world st)) as [r' w] eqn:Hrun;
      simpl in Hr; subst r'.
    + destruct r; unfold emit, with_world; simpl;
        rewrite <-!app_assoc; reflexivity.
    + destruct r; unfold emit, with_world; simpl; reflexivity.
  - destruct k as [|k].
    + (* the first of the attempts succeeds *)
      destruct Hend as [?|[result ->]]; [lia|].
      unfold attempt_result in Hr. simpl in Hr.
      simpl. destruct (1 <? attempt) eqn:Hlt; simpl; rewrite Hconn;
        destruct (run conn params (world st)) as [r' w] eqn:Hrun;
        simpl in Hr; subst r'.
      * unfold emit, with_world; simpl. rewrite <-!app_assoc. reflexivity.
      * unfold emit, with_world; simpl; reflexivity.
    + (* it fails, and the next ones are tried *)
      destruct (Hfail O ltac:(lia)) as [err Herr].
      unfold attempt_result in Herr. simpl in Herr.
      set (st1 := if 1 <? attempt
                  then emit (Sleep (delay_duration task))
                         (emit (OutInfoRetry attempt maxAttempts taskName) st)
                  else st).
      assert (pctx st1 = pctx st ∧ world st1 = world st) as [Hp1 Hw1]
        by (subst st1; by destruct (1 <? attempt)).
      assert (trace st1
              = trace st
                  ++ (if 1 <? attempt
                      then [OutInfoRetry attempt maxAttempts taskName;
                            Sleep (delay_duration task)]
                      else [])) as Ht1.
      { subst st1. destruct (1 <? attempt); cbn [emit trace].
        - by rewrite <-app_assoc.
        - by rewrite app_nil_r. }
      cbn [attempts]. fold st1. cbn [emit pctx world]. rewrite Hp1, Hw1, Hconn.
      destruct (run conn params (world st)) as [r' w] eqn:Hrun.
      simpl in Herr. subst r'.
      unfold int_add. rewrite wrap64_small by (unfold max_int in Hmax; lia).
      pose proof (IH (attempt + 1)
                    (with_world w (State (pctx st) (world st)
                                     (trace st1 ++ [ModuleRun (Task.Module task) params])))
                    Hconn ltac:(lia) ltac:(lia) k ltac:(lia)) as Heq.
      unfold with_world, emit in Heq |- *. cbn [pctx world trace] in Heq |- *.
      rewrite Hp1.
      assert (∀ i, (i < k)%nat →
                   ∃ err', attempt_result run conn params w i = inl err')
        as Hfail'.
      { intros i Hi. specialize (Hfail (S i) ltac:(lia)).
        unfold attempt_result in Hfail |- *. simpl in Hfail |- *.
        by rewrite Hrun in Hfail. }
      assert (attempt_result run conn params w k = r) as Hr'.
      { unfold attempt_result in Hr |- *. simpl in Hr |- *.
        by rewrite Hrun in Hr. }
      assert (k = more ∨ ∃ result, r = inr result) as Hend'
        by (destruct Hend as [?|?]; [left; lia|by right]).
      rewrite (Heq Hfail' r Hr' Hend').
      assert ((1 <? attempt + 1) = true) as -> by (apply Z.ltb_lt; lia).
      cbn [world_after retry_events]. rewrite Hrun. cbn [snd]. rewrite Ht1.
      by rewrite <-!app_assoc.
Qed.

End RetryFacts.

Lemma retry_events_runs taskName module params maxAttempts delay attempt k :
  module_runs (retry_events taskName module params maxAttempts delay attempt k)
  = replicate k (module, params).
Proof.
  revert attempt. induction k as [|k IH]; intros attempt; [done|].
  cbn [retry_events replicate]. rewrite !module_runs_cons. by rewrite IH.
Qed.

Lemma retry_events_sleeps taskName module params maxAttempts delay attempt k :
  sleeps (retry_events taskName module params maxAttempts delay attempt k)
  = replicate k delay.
Proof.
  revert attempt. induction k as [|k IH]; intros attempt; [done|].
  cbn [retry_events replicate]. rewrite !sleeps_cons. by rewrite IH.
Qed.


(** C5, as stated, fails at the largest number of retries an [int] holds:
    [task.Retries + 1] wraps around to the smallest [int], [maxAttempts] is
    set to 1, and a module that would succeed on its third invocation is
    invoked once and the task fails. *)
Lemma runSingleTask_max_int_retries_one_attempt :
  let '(result, _, st) :=
    runSingleTask (lib := example_lib) (host := example_host) run_for_real
      (flaky_task max_int 0) (State (example_pctx ∅) 0%nat []) in
  0 ≤ max_int
  ∧ (∃ r, result = Failed r "attempt 0")
  ∧ length (module_runs (trace st)) = 1%nat
  ∧ sleeps (trace st) = [].
Proof. vm_compute. split_and!; [discriminate|by eexists|done..]. Qed.

Section RetryTheorem.
Context {lib : GoLib} {World : Type} {host : Host World}.

(** C5, amended.  For a task with retries [0 <= r < 2^63 - 2] and a delay of
    at most 9223372036 seconds, whose module is found and whose parameters
    interpolate, outside dry-run mode: when the first [k <= r] invocations
    fail and the next one succeeds, the task succeeds, and what happens
    between the start of the task and its result is the first invocation
    of the module followed by [k] retries, each of them an announcement,
    a sleep of [delay] seconds and then an invocation: [k + 1] invocations
    with a sleep before each one after the first, [k] sleeps; when all
    [r + 1] invocations fail, the same happens and the task fails with
    the error of the last one.  With 2 retries, no delay and a module
    failing twice, the task succeeds after 3 invocations with a sleep
    before the second and before the third. *)
Theorem runSingleTask_retries (e : Executor.t) (task : Task.t)
    (st : state World) run params (k : nat) :
  let conn := PlayContext.Connector (pctx st) in
  let attempted :=
    ModuleRun (Task.Module task) params
      :: retry_events (NameOf task) (Task.Module task) params
           (Task.Retries task + 1) (Task.Delay task * 1000000000) 2 k in
  Executor.DryRun e = false →
  module_Get (Task.Module task) = Some run →
  interpolateParams (Task.Params (ExpandShorthand task)) (pctx st) = inr params →
  0 ≤ Task.Retries task < max_int - 1 →
  0 ≤ Task.Delay task ≤ 9223372036 →
  Z.of_nat k ≤ Task.Retries task →
  (∀ i, (i < k)%nat →
        ∃ err, attempt_result run conn params (world st) i = inl err) →
  (∀ result, attempt_result run conn params (world st) k = inr result →
     ∃ st' evs,
       runSingleTask e task st
       = (Done (TaskResult.mk
                  (if Result.Changed result then "changed" else "ok")
                  (Result.Changed result) (Result.Data result) None),
          ExpandShorthand task, st')
       ∧ trace st' = trace st ++ evs
       ∧ evs
         = OutTaskStart (NameOf task) (Task.Module task)
             :: attempted
             ++ [OutTaskResult (NameOf task)
                   (if Result.Changed result then "changed" else "ok")
                   (Result.Changed result) (Result.Message result)]
       ∧ world st' = world_after run conn params (world st) (S k)
       ∧ length (module_runs evs) = S k
       ∧ sleeps evs = replicate k (Task.Delay task * 1000000000))
  ∧ (∀ err, Z.of_nat k = Task.Retries task →
       attempt_result run conn params (world st) k = inl err →
       ∃ st' evs,
         runSingleTask e task st
         = (Failed (Some (TaskResult.mk "failed" false ∅ (Some err))) err,
            ExpandShorthand task, st')
         ∧ trace st' = trace st ++ evs
         ∧ evs
           = OutTaskStart (NameOf task) (Task.Module task)
               :: attempted
               ++ [OutTaskResult (NameOf task) "failed" false err]
         ∧ world st' = world_after run conn params (world st) (S k)
         ∧ length (module_runs evs) = S k
         ∧ sleeps evs = replicate k (Task.Delay task * 1000000000))
  ∧ (let '(result, _, st') :=
       runSingleTask (lib := example_lib) (host := example_host) run_for_real
         (flaky_task 2 0) (State (example_pctx ∅) 0%nat []) in
     result = Done (TaskResult.mk "ok" false ∅ None)
     ∧ trace st'
       = [OutTaskStart (NameOf (flaky_task 2 0)) "flaky";
          ModuleRun "flaky" ∅;
          OutInfoRetry 2 3 (NameOf (flaky_task 2 0)); Sleep 0;
          ModuleRun "flaky" ∅;
          OutInfoRetry 3 3 (NameOf (flaky_task 2 0)); Sleep 0;
          ModuleRun "flaky" ∅;
          OutTaskResult (NameOf (flaky_task 2 0)) "ok" false "up"]
     ∧ length (module_runs (trace st')) = 3%nat
     ∧ sleeps (trace st') = [0; 0]).
Proof.
  intros conn attempted Hdry Hmod Hpar Hr Hd Hk Hfail.
  destruct (ExpandShorthand_fields task) as (HR & HD & HM & _).
  assert (delay_duration (ExpandShorthand task) = Task.Delay task * 1000000000)
    as Hdelay.
  { unfold delay_duration, int_mul. rewrite HD. apply wrap64_small. lia. }
  set (st0 := emit (OutTaskStart (NameOf task) (Task.Module task)) st).
  set (more := Z.to_nat (Task.Retries task)).
  assert (∀ r,
            attempt_result run conn params (world st) k = r →
            (k = more ∨ ∃ result, r = inr result) →
            attempts more 1 (Task.Retries task + 1) run (NameOf task)
              (ExpandShorthand task) params st0
            = (r, State (pctx st) (world_after run conn params (world st) (S k))
                    (trace st0 ++ attempted)))
    as Hattempts.
  { intros r Hres Hend.
    rewrite (attempts_trace run conn params more 1 (Task.Retries task + 1)
               (NameOf task) (ExpandShorthand task) st0 eq_refl ltac:(lia)
               ltac:(unfold max_int in *; subst more; lia) k
               ltac:(subst more; lia) Hfail r Hres Hend).
    change (1 <? 1) with false. cbn [app]. by rewrite Hdelay, HM. }
  assert (length (module_runs attempted) = S k
          ∧ sleeps attempted = replicate k (Task.Delay task * 1000000000))
    as [Hruns Hsleeps].
  { subst attempted. rewrite module_runs_cons, sleeps_cons.
    rewrite retry_events_runs, retry_events_sleeps. cbn [length].
    by rewrite length_replicate. }
  assert (runSingleTask e task st
          = match
              attempts more 1 (Task.Retries task + 1) run (NameOf task)
                (ExpandShorthand task) params st0
            with
            | (inl lastErr, st1) =>
                (Failed (Some (TaskResult.mk "failed" false ∅ (Some lastErr)))
                   lastErr, ExpandShorthand task,
                 emit (OutTaskResult (NameOf task) "failed" false lastErr) st1)
            | (inr result, st1) =>
                (Done (TaskResult.mk
                         (if Result.Changed result then "changed" else "ok")
                         (Result.Changed result) (Result.Data result) None),
                 ExpandShorthand task,
                 emit (OutTaskResult (NameOf task)
                         (if Result.Changed result then "changed" else "ok")
                         (Result.Changed result) (Result.Message result))
                   (with_pctx (notify_handlers (ExpandShorthand task) result)
                      (with_pctx (store_registered (ExpandShorthand task) result)
                         st1)))
            end) as Hrun.
  { unfold runSingleTask. rewrite HM, Hmod. fold st0.
    change (pctx st0) with (pctx st). rewrite Hpar, Hdry, HR.
    unfold int_add. rewrite wrap64_small by (unfold max_int in Hr; lia).
    assert ((Task.Retries task + 1 <? 1) = false) as -> by (apply Z.ltb_ge; lia).
    replace (Z.to_nat (Task.Retries task + 1) - 1)%nat with more
      by (subst more; lia).
    reflexivity. }
  split_and!.
  - intros result Hres.
    rewrite Hrun, (Hattempts _ Hres (or_intror (ex_intro _ result eq_refl))).
    eexists _, _. split; [reflexivity|]. split.
    { unfold emit, with_pctx. cbn [trace]. subst st0. unfold emit. cbn [trace].
      rewrite <-!app_assoc. reflexivity. }
    split; [reflexivity|]. split; [reflexivity|].
    cbn [app]. rewrite module_runs_cons, sleeps_cons.
    rewrite !module_runs_app, !sleeps_app, !length_app, Hruns, Hsleeps.
    cbn. rewrite app_nil_r. split; [lia|done].
  - intros err Hlast Hres.
    assert (k = more) as Hkm by (subst more; lia).
    rewrite Hrun, (Hattempts _ Hres (or_introl Hkm)).
    eexists _, _. split; [reflexivity|]. split.
    { unfold emit. cbn [trace]. subst st0. unfold emit. cbn [trace].
      rewrite <-!app_assoc. reflexivity. }
    split; [reflexivity|]. split; [reflexivity|].
    cbn [app]. rewrite module_runs_cons, sleeps_cons.
    rewrite !module_runs_app, !sleeps_app, !length_app, Hruns, Hsleeps.
    cbn. rewrite app_nil_r. split; [lia|done].
  - vm_compute. done.
Qed.

End RetryTheorem.

Lemma runSingleTask_retries_witness :
  ∃ st' evs,
    runSingleTask (lib := example_lib) (host := example_host) run_for_real
      (flaky_task 5 3) (State (example_pctx ∅) 0%nat [])
    = (Done (TaskResult.mk "ok" false ∅ None), flaky_task 5 3, st')
    ∧ trace st' = evs
    ∧ evs
      = [OutTaskStart (NameOf (flaky_task 5 3)) "flaky";
         ModuleRun "flaky" ∅;
         OutInfoRetry 2 6 (NameOf (flaky_task 5 3)); Sleep 3000000000;
         ModuleRun "flaky" ∅;
         OutInfoRetry 3 6 (NameOf (flaky_task 5 3)); Sleep 3000000000;
         ModuleRun "flaky" ∅;
         OutTaskResult (NameOf (flaky_task 5 3)) "ok" false "up"]
    ∧ length (module_runs evs) = 3%nat
    ∧ sleeps evs = [3000000000; 3000000000].
Proof.
  destruct (runSingleTask_retries (lib := example_lib) (host := example_host)
              run_for_real (flaky_task 5 3) (State (example_pctx ∅) 0%nat [])
              (λ _ _ n,
                 (if (n <? 2)%nat
                  then inl ("attempt " +:+ string_of_Z (Z.of_nat n))
                  else inr (Result.mk false "up" ∅), S n))
              ∅ 2) as (Hok & _).
  - reflexivity.
  - reflexivity.
  - vm_compute. reflexivity.
  - simpl. unfold max_int. lia.
  - simpl. lia.
  - simpl. lia.
  - intros [|[|i]] Hi; [by eexists..|lia].
  - destruct (Hok (Result.mk false "up" ∅) eq_refl)
      as (st' & evs & Hrun & Htrace & Hevs & _ & Hruns & Hsleeps).
    exists st', evs. split_and!; try done.
Defined.

(** ** The shape of the output *)

Lemma started_app evs1 evs2 : started (evs1 ++ evs2) = started evs1 ++ started evs2.
Proof. apply omap_app. Qed.

Lemma play_starts_app evs1 evs2 :
  play_starts (evs1 ++ evs2) = play_starts evs1 ++ play_starts evs2.
Proof. apply omap_app. Qed.

Lemma errors_app evs1 evs2 : errors (evs1 ++ evs2) = errors evs1 ++ errors evs2.
Proof. apply omap_app. Qed.

Lemma inner_started evs : Forall inner evs → started evs = [].
Proof.
  induction 1 as [|ev evs [_ Hev] _ IH]; [done|].
  unfold started in *. cbn [omap list_omap]. destruct ev; try done.
Qed.

Lemma not_play_level_starts evs :
  Forall (λ ev, play_level ev = false) evs →
  play_starts evs = [] ∧ errors evs = [].
Proof.
  induction 1 as [|ev evs Hev _ [IH1 IH2]]; [done|].
  unfold play_starts, errors in *. cbn [omap list_omap].
  destruct ev; try done.
Qed.

Section TraceFacts.
Context {lib : GoLib} {World : Type} {host : Host World}.

Implicit Types (st : state World) (task : Task.t).

Lemma attempts_inner more attempt maxAttempts run taskName task params st :
  ∃ evs,
    trace (attempts more attempt maxAttempts run taskName task params st).2
    = trace st ++ evs
    ∧ Forall inner evs.
Proof.
  revert attempt st. induction more as [|more IH]; intros attempt st.
  - cbn [attempts].
    destruct (run _ _ _) as [[err|result] w];
      destruct (1 <? attempt); cbn; eexists;
      (split; [rewrite <-?app_assoc; reflexivity|]);
      repeat constructor.
  - cbn [attempts].
    destruct (run _ _ _) as [[err|result] w].
    + match goal with
      | |- context [attempts more ?a maxAttempts run taskName task params ?s] =>
          destruct (IH a s) as (evs & -> & Hevs)
      end.
      destruct (1 <? attempt); cbn; eexists;
        (split; [rewrite <-?app_assoc; reflexivity|]);
        repeat (constructor; [by split|]); exact Hevs.
    + destruct (1 <? attempt); cbn; eexists;
        (split; [rewrite <-?app_assoc; reflexivity|]);
        repeat constructor.
Qed.

(** A run of [runSingleTask] opens the task in the output, and nothing
    else. *)
Lemma runSingleTask_trace e task st :
  ∃ evs,
    trace (runSingleTask e task st).2
    = trace st ++ OutTaskStart (NameOf task) (Task.Module task) :: evs
    ∧ Forall inner evs.
Proof.
  unfold runSingleTask.
  destruct (module_Get _) as [run|].
  2: { cbn. eexists. split; [rewrite <-app_assoc; reflexivity|].
       repeat constructor. }
  destruct (interpolateParams _ _) as [err|params].
  { cbn. eexists. split; [rewrite <-app_assoc; reflexivity|].
    repeat constructor. }
  destruct (Executor.DryRun e).
  { cbn. eexists. split; [rewrite <-app_assoc; reflexivity|].
    repeat constructor. }
  match goal with
  | |- context [attempts ?m ?a ?x ?r ?n ?t ?p ?s] =>
      destruct (attempts_inner m a x r n t p s) as (evs & Htr & Hevs);
      destruct (attempts m a x r n t p s) as [[lastErr|result] st1]
  end; cbn in Htr |- *; rewrite Htr;
    eexists; (split; [rewrite <-!app_assoc; reflexivity|]);
    apply Forall_app; (split; [done|]); repeat constructor.
Qed.

End TraceFacts.

(** ** Handlers *)

Lemma notify_handlers_spec task result c :
  PlayContext.Play (notify_handlers task result c) = PlayContext.Play c
  ∧ PlayContext.Vars (notify_handlers task result c) = PlayContext.Vars c
  ∧ PlayContext.Registered (notify_handlers task result c)
    = PlayContext.Registered c
  ∧ PlayContext.Connector (notify_handlers task result c)
    = PlayContext.Connector c
  ∧ (∀ name, notified_in c name = true →
             notified_in (notify_handlers task result c) name = true)
  ∧ (Task.Notify task = [] → notify_handlers task result c = c).
Proof.
  unfold notify_handlers.
  destruct (Result.Changed result && _) eqn:Hcond.
  2: { by split_and!. }
  clear Hcond. revert c.
  induction (Task.Notify task) as [|handler rest IH]; intros c; [done|].
  cbn [foldl].
  destruct (IH (PlayContext.set_NotifiedHandlers (<[handler:=true]>) c))
    as (-> & -> & -> & -> & Hmono & _).
  split_and!; try done.
  intros name Hname. apply Hmono. unfold notified_in in *. cbn.
  destruct (decide (handler = name)) as [->|Hne].
  - by rewrite lookup_insert_eq.
  - by rewrite lookup_insert_ne.
Qed.

Section HandlerFacts.
Context {lib : GoLib} {World : Type} {host : Host World}.

Implicit Types (st : state World) (task : Task.t).

(** What a run of [runSingleTask] does to the play context: nothing when
    it fails, and otherwise it registers the result and notifies handlers,
    so that a name that was notified stays notified. *)
Lemma runSingleTask_pctx e task st :
  PlayContext.Play (pctx (runSingleTask e task st).2)
  = PlayContext.Play (pctx st)
  ∧ (∀ name, notified_in (pctx st) name = true →
             notified_in (pctx (runSingleTask e task st).2) name = true)
  ∧ (Task.Notify task = [] →
     PlayContext.NotifiedHandlers (pctx (runSingleTask e task st).2)
     = PlayContext.NotifiedHandlers (pctx st)).
Proof.
  unfold runSingleTask.
  destruct (module_Get _) as [run|]; [|done].
  destruct (interpolateParams _ _) as [err|params]; [done|].
  destruct (Executor.DryRun e); [done|].
  match goal with
  | |- context [attempts ?m ?a ?x ?r ?n ?t ?p ?s] =>
      pose proof (attempts_pctx m a x r n t p s) as Hp;
      destruct (attempts m a x r n t p s) as [[lastErr|result] st1]
  end; cbn in Hp |- *; rewrite Hp; [done|].
  destruct (ExpandShorthand_fields task) as (_ & _ & _ & _ & HN & _).
  destruct (notify_handlers_spec (ExpandShorthand task) result
              (store_registered (ExpandShorthand task) result (pctx st)))
    as (-> & _ & _ & _ & Hmono & Hid).
  assert (PlayContext.NotifiedHandlers
            (store_registered (ExpandShorthand task) result (pctx st))
          = PlayContext.NotifiedHandlers (pctx st)
          ∧ PlayContext.Play
              (store_registered (ExpandShorthand task) result (pctx st))
            = PlayContext.Play (pctx st)) as [Hsame Hplay].
  { unfold store_registered. by destruct (String.eqb _ _). }
  split_and!.
  - exact Hplay.
  - intros name Hname. apply Hmono. unfold notified_in in *.
    by rewrite Hsame.
  - intros Hnone. rewrite Hid; [done|]. by rewrite HN.
Qed.

Lemma filter_none {A} (P : A → Prop) `{∀ x, Decision (P x)} (l : list A) :
  (∀ x, ¬ P x) → filter P l = [].
Proof.
  intros HP. induction l as [|x l IH]; [done|].
  by rewrite filter_cons_False.
Qed.

Lemma sublist_filter_mono {A} (P Q : A → Prop) `{∀ x, Decision (P x)}
    `{∀ x, Decision (Q x)} (l : list A) :
  (∀ x, P x → Q x) → filter P l `sublist_of` filter Q l.
Proof.
  intros HPQ. induction l as [|x l IH]; [done|].
  rewrite !filter_cons. destruct (decide (P x)) as [HP|HP].
  - rewrite decide_True by auto. by apply sublist_skip.
  - destruct (decide (Q x)); [by apply sublist_cons|done].
Qed.

(** The loop over the declared handlers: it starts, in the order of the
    declaration and each declared handler at most once, handlers that are
    notified; a notified name stays notified; and when no handler fails
    every handler that was notified at the start has been run. *)
Lemma handlers_loop_spec e handlers stats st err stats' st' :
  handlers_loop e handlers stats st = (err, stats', st') →
  ∃ evs,
    trace st' = trace st ++ evs
    ∧ Forall (λ ev, play_level ev = false) evs
    ∧ started evs `sublist_of` handlers
    ∧ Forall (is_notified (pctx st')) (started evs)
    ∧ (∀ name, notified_in (pctx st) name = true →
               notified_in (pctx st') name = true)
    ∧ (err = None →
       filter (is_notified (pctx st)) handlers `sublist_of` started evs)
    ∧ (err = None → (∀ h, h ∈ handlers → Task.Notify h = []) →
       started evs = filter (is_notified (pctx st)) handlers)
    ∧ (∀ msg, err = Some msg →
         ∃ before h cause,
           started evs = before ++ [h]
           ∧ msg = "handler '" +:+ Task.Name h +:+ "' failed: " +:+ cause).
Proof.
  revert stats st. induction handlers as [|handler rest IH]; intros stats st.
  - intros [= <- <- <-]. exists []. rewrite app_nil_r. by split_and!.
  - cbn [handlers_loop].
    destruct (notified_in (pctx st) (Task.Name handler)) eqn:Hn;
      pose proof Hn as Hn'; unfold notified_in in Hn'; rewrite Hn'; clear Hn';
      cbn [negb].
    + (* the handler is notified, and runs *)
      generalize (runSingleTask_trace e handler st)
                 (runSingleTask_pctx e handler st).
      destruct (runSingleTask e handler st)
        as [[[result|result err1] task1] st1]; cbn [snd];
        intros (evs1 & Htr1 & Hin1) (Hplay1 & Hmono1 & Hsame1).
      * intros Hloop. destruct (IH _ _ Hloop)
          as (evs2 & Htr2 & Hpl2 & Hsub2 & Hall2 & Hmono2 & Hfil2 & Heq2 & Hstop2).
        exists (OutTaskStart (NameOf handler) (Task.Module handler)
                  :: evs1 ++ evs2).
        assert (started (OutTaskStart (NameOf handler) (Task.Module handler)
                           :: evs1 ++ evs2) = handler :: started evs2) as Hst.
        { change (started (?ev :: ?l)) with (handler :: started l).
          by rewrite started_app, (inner_started _ Hin1). }
        rewrite Hst. split_and!.
        -- rewrite Htr2, Htr1. by rewrite <-app_assoc.
        -- constructor; [done|]. apply Forall_app. split; [|done].
           eapply Forall_impl; [exact Hin1|]. by intros ev [? _].
        -- by apply sublist_skip.
        -- constructor; [|done]. apply Hmono2, Hmono1. exact Hn.
        -- auto.
        -- intros Herr. rewrite filter_cons_True by exact Hn.
           apply sublist_skip. etrans; [|by apply Hfil2].
           apply sublist_filter_mono. intros h. apply Hmono1.
        -- intros Herr Hnone. rewrite filter_cons_True by exact Hn.
           rewrite Heq2; [|done|].
           2: { intros h Hh. apply Hnone. by apply list_elem_of_further. }
           f_equal. apply list_filter_iff. intros h. unfold is_notified, notified_in.
           rewrite Hsame1; [done|]. apply Hnone, list_elem_of_here.
        -- intros msg Hmsg.
           destruct (Hstop2 msg Hmsg) as (before & h & cause & -> & ->).
           by exists (handler :: before), h, cause.
      * intros [= <- <- <-].
        exists (OutTaskStart (NameOf handler) (Task.Module handler) :: evs1).
        assert (started (OutTaskStart (NameOf handler) (Task.Module handler)
                           :: evs1) = [handler]) as Hst.
        { change (started (?ev :: ?l)) with (handler :: started l).
          by rewrite (inner_started _ Hin1). }
        rewrite Hst. split_and!; try done.
        -- constructor; [done|].
           eapply Forall_impl; [exact Hin1|]. by intros ev [? _].
        -- apply sublist_skip, sublist_nil_l.
        -- constructor; [|done]. apply Hmono1. exact Hn.
        -- intros msg [= <-]. by exists [], handler, err1.
    + (* the handler is not notified, and is passed *)
      intros Hloop. destruct (IH _ _ Hloop)
        as (evs2 & Htr2 & Hpl2 & Hsub2 & Hall2 & Hmono2 & Hfil2 & Heq2 & Hstop2).
      exists evs2. split_and!; try done.
      * by apply sublist_cons.
      * intros Herr. rewrite filter_cons_False; [by apply Hfil2|].
        unfold is_notified. by rewrite Hn.
      * intros Herr Hnone. rewrite filter_cons_False.
        -- apply Heq2; [done|]. intros h Hh. apply Hnone.
           by apply list_elem_of_further.
        -- unfold is_notified. by rewrite Hn.
Qed.

End HandlerFacts.

(** C6, as stated, fails when a handler fails: with [A] and [B] declared
    and both notified, the failure of [A] ends the iteration, and [B],
    whose name is in the set, is not run. *)
Lemma runHandlers_stops_at_failure :
  let play := handlers_play [] [handler_A "fail"; handler_B "ok"] in
  let c :=
    PlayContext.mk play ∅ ∅ ∅ (<[ "A" := true ]> {[ "B" := true ]}) None in
  let '(err, _, st') :=
    runHandlers (lib := example_lib) (host := example_host) run_for_real
      (Stats.mk 1 0 0 0 0 0) (State c 0%nat []) in
  is_notified c (handler_B "ok")
  ∧ err = Some "handler 'A' failed: boom"
  ∧ started (trace st') = [handler_A "fail"].
Proof. vm_compute. done. Qed.

Section HandlerTheorem.
Context {lib : GoLib} {World : Type} {host : Host World}.

(** C6, amended.  [runHandlers] goes through the declared handlers in the
    order of their declaration and runs, each declared handler at most
    once however often it was notified, only handlers whose names are in
    [NotifiedHandlers]; unless a handler fails, which ends the iteration
    with an error naming that handler, the last one started, it runs every
    handler whose name was in the set at the start, and exactly those when
    the handlers notify nothing themselves.  With [A]
    and [B] declared in this order and two changed tasks each notifying [B]
    and [A], a play runs the two tasks, then [A] once, then [B] once. *)
Theorem runHandlers_declaration_order (e : Executor.t) (stats : Stats.t)
    (st : state World) err stats' st' :
  runHandlers e stats st = (err, stats', st') →
  let handlers := Play.Handlers (PlayContext.Play (pctx st)) in
  (∃ evs,
     trace st' = trace st ++ evs
     ∧ started evs `sublist_of` handlers
     ∧ Forall (is_notified (pctx st')) (started evs)
     ∧ (err = None →
        filter (is_notified (pctx st)) handlers `sublist_of` started evs)
     ∧ (err = None → (∀ h, h ∈ handlers → Task.Notify h = []) →
        started evs = filter (is_notified (pctx st)) handlers)
     ∧ (∀ msg, err = Some msg →
          ∃ before h cause,
            started evs = before ++ [h]
            ∧ msg = "handler '" +:+ Task.Name h +:+ "' failed: " +:+ cause))
  ∧ (let play :=
       handlers_play [notifying_task "first"; notifying_task "second"]
         [handler_A "ok"; handler_B "ok"] in
     let '(err, _, _, out) :=
       runPlay (lib := example_lib) (host := example_host) run_for_real play
         (Stats.mk 1 0 0 0 0 0) 0%nat [] in
     err = Returns None
     ∧ started out
       = [notifying_task "first"; notifying_task "second";
          handler_A "ok"; handler_B "ok"]).
Proof.
  intros Hrun handlers. split; [|vm_compute; done].
  unfold runHandlers in Hrun.
  destruct (bool_decide _) eqn:Hsize.
  - apply bool_decide_eq_true in Hsize. apply map_size_empty_iff in Hsize.
    injection Hrun as <- <- <-. exists []. rewrite app_nil_r.
    assert (filter (is_notified (pctx st)) handlers = []) as ->.
    { apply filter_none. intros h. unfold is_notified, notified_in.
      by rewrite Hsize. }
    split_and!; try done. apply sublist_nil_l.
  - destruct (handlers_loop_spec _ _ _ _ _ _ _ Hrun)
      as (evs & Htr & _ & Hsub & Hall & _ & Hfil & Heq & Hstop).
    exists (OutSection "RUNNING HANDLERS" :: evs).
    change (started (OutSection "RUNNING HANDLERS" :: evs)) with (started evs).
    split_and!; try done.
    rewrite Htr. cbn. by rewrite <-app_assoc.
Qed.

End HandlerTheorem.

Lemma runHandlers_declaration_order_witness :
  let play := handlers_play [] [handler_A "ok"; handler_B "ok"] in
  let c :=
    PlayContext.mk play ∅ ∅ ∅ (<[ "B" := true ]> {[ "A" := true ]}) None in
  ∃ st' evs,
    (runHandlers (lib := example_lib) (host := example_host) run_for_real
       (Stats.mk 1 0 0 0 0 0) (State c 0%nat [])).2 = st'
    ∧ trace st' = evs
    ∧ started evs = [handler_A "ok"; handler_B "ok"].
Proof.
  intros play c.
  destruct (runHandlers (lib := example_lib) (host := example_host)
              run_for_real (Stats.mk 1 0 0 0 0 0) (State c 0%nat []))
    as [[err stats'] st'] eqn:Hrun.
  destruct (runHandlers_declaration_order _ _ _ _ _ _ Hrun)
    as [(evs & Htr & _ & _ & _ & Heq & _) _].
  exists st', evs. split; [done|]. split; [exact Htr|].
  assert (err = None) as Herr.
  { vm_compute in Hrun. by injection Hrun as <- _ _. }
  rewrite (Heq Herr); [vm_compute; reflexivity|].
  intros h Hh. vm_compute in Hh.
  apply elem_of_cons in Hh as [->|Hh]; [done|].
  apply elem_of_cons in Hh as [->|Hh]; [done|].
  by apply elem_of_nil in Hh.
Defined.

(** ** Names that no handler has *)

(** Interpolation reads [Vars] and [Registered] only. *)
Lemma interpolateParams_set_NotifiedHandlers {lib : GoLib} params f c :
  interpolateParams params (PlayContext.set_NotifiedHandlers f c)
  = interpolateParams params c.
Proof. reflexivity. Qed.

Lemma also_notified_commute n task result c :
  notify_handlers task result (also_notified n c)
  = also_notified n (notify_handlers task result c).
Proof.
  unfold notify_handlers. destruct (Result.Changed result && _); [|done].
  revert c. induction (Task.Notify task) as [|handler rest IH]; intros c;
    [done|].
  cbn [foldl]. rewrite <-IH. f_equal.
  unfold also_notified, PlayContext.set_NotifiedHandlers. cbn. f_equal.
  destruct (decide (n = handler)) as [->|Hne]; [done|].
  by apply insert_insert_ne.
Qed.

Lemma also_notified_store n task result c :
  store_registered task result (also_notified n c)
  = also_notified n (store_registered task result c).
Proof. unfold store_registered. by destruct (String.eqb _ _). Qed.

Section UndeclaredFacts.
Context {lib : GoLib} {World : Type} {host : Host World}.

Implicit Types (st : state World) (task : Task.t).

Lemma attempts_also_notified n more attempt maxAttempts run taskName task
    params st :
  attempts more attempt maxAttempts run taskName task params
    (with_pctx (also_notified n) st)
  = let '(r, st') :=
      attempts more attempt maxAttempts run taskName task params st in
    (r, with_pctx (also_notified n) st').
Proof.
  revert attempt st. induction more as [|more IH]; intros attempt st;
    cbn [attempts].
  - destruct (1 <? attempt); cbn;
      by destruct (run _ _ _) as [[err|result] w].
  - destruct (1 <? attempt); cbn;
      destruct (run _ _ _) as [[err|result] w]; try done;
      match goal with
      | |- _ = (let '(_, _) := attempts _ ?a _ _ _ _ _ ?s in _) =>
          exact (IH a s)
      end.
Qed.

(** The task runs the same way with one more notified name. *)
Lemma runSingleTask_also_notified n e task st :
  runSingleTask e task (with_pctx (also_notified n) st)
  = let '(result, task', st') := runSingleTask e task st in
    (result, task', with_pctx (also_notified n) st').
Proof.
  unfold runSingleTask.
  destruct (module_Get _) as [run|]; [|done].
  change (pctx (emit ?ev (with_pctx (also_notified n) st)))
    with (also_notified n (pctx st)).
  unfold also_notified at 1. rewrite interpolateParams_set_NotifiedHandlers.
  change (pctx (emit ?ev st)) with (pctx st).
  destruct (interpolateParams _ _) as [err|params]; [done|].
  destruct (Executor.DryRun e); [done|].
  change (emit ?ev (with_pctx (also_notified n) st))
    with (with_pctx (also_notified n) (emit ev st)).
  rewrite attempts_also_notified.
  destruct (attempts _ _ _ _ _ _ _ _) as [[lastErr|result] st1]; [done|].
  unfold with_pctx, emit. cbn.
  by rewrite also_notified_store, also_notified_commute.
Qed.

Lemma handlers_loop_also_notified n e handlers stats st :
  n ∉ Task.Name <$> handlers →
  handlers_loop e handlers stats (with_pctx (also_notified n) st)
  = let '(err, stats', st') := handlers_loop e handlers stats st in
    (err, stats', with_pctx (also_notified n) st').
Proof.
  revert stats st. induction handlers as [|handler rest IH]; intros stats st Hn;
    [done|].
  rewrite fmap_cons in Hn. apply not_elem_of_cons in Hn as [Hne Hn].
  cbn [handlers_loop].
  assert (PlayContext.NotifiedHandlers (pctx (with_pctx (also_notified n) st))
            !! Task.Name handler
          = PlayContext.NotifiedHandlers (pctx st) !! Task.Name handler) as ->.
  { cbn. by rewrite lookup_insert_ne. }
  destruct (negb _); [by apply IH|].
  rewrite runSingleTask_also_notified.
  destruct (runSingleTask e handler st) as [[[result|result err1] task1] st1];
    [by apply IH|done].
Qed.

(** Without a notified handler the loop does nothing. *)
Lemma handlers_loop_none_notified e handlers stats st :
  (∀ h, h ∈ handlers → ¬ is_notified (pctx st) h) →
  handlers_loop e handlers stats st = (None, stats, st).
Proof.
  induction handlers as [|handler rest IH]; intros Hnone; [done|].
  cbn [handlers_loop].
  assert (notified_in (pctx st) (Task.Name handler) = false) as Hn.
  { apply not_true_is_false, (Hnone handler), list_elem_of_here. }
  unfold notified_in in Hn. rewrite Hn. cbn [negb].
  apply IH. intros h Hh. apply Hnone. by apply list_elem_of_further.
Qed.

(** C10.  Notifying a name that no declared handler has changes nothing of
    what [runHandlers] does: with the name added to [NotifiedHandlers] it
    returns the same error or none, the same counts and the same world, and
    has started the same handlers and invoked the same modules; at most the
    section header is printed where nothing else was notified.  When no
    declared handler is notified at all, no task is run and no error is
    returned. *)
Theorem runHandlers_ignores_undeclared (e : Executor.t) (stats : Stats.t)
    (st : state World) (n : string) :
  n ∉ Task.Name <$> Play.Handlers (PlayContext.Play (pctx st)) →
  let handlers := Play.Handlers (PlayContext.Play (pctx st)) in
  let '(err, stats', st') := runHandlers e stats st in
  let '(err_n, stats_n, st_n) :=
    runHandlers e stats (with_pctx (also_notified n) st) in
  (err_n = err ∧ stats_n = stats' ∧ world st_n = world st'
   ∧ pctx st_n = also_notified n (pctx st')
   ∧ started (trace st_n) = started (trace st')
   ∧ module_runs (trace st_n) = module_runs (trace st')
   ∧ (trace st_n = trace st'
      ∨ PlayContext.NotifiedHandlers (pctx st) = ∅
        ∧ trace st_n = trace st' ++ [OutSection "RUNNING HANDLERS"]))
  ∧ ((∀ h, h ∈ handlers → ¬ is_notified (pctx st) h) →
     err = None ∧ stats' = stats ∧ world st' = world st
     ∧ started (trace st') = started (trace st)
     ∧ module_runs (trace st') = module_runs (trace st)).
Proof.
  intros Hn handlers. unfold runHandlers.
  assert (bool_decide
            (size (PlayContext.NotifiedHandlers
                     (pctx (with_pctx (also_notified n) st))) = 0%nat)
          = false) as ->.
  { apply bool_decide_eq_false. cbn. rewrite map_size_empty_iff.
    apply insert_non_empty. }
  change (emit ?ev (with_pctx (also_notified n) st))
    with (with_pctx (also_notified n) (emit ev st)).
  change (PlayContext.Play (pctx (with_pctx (also_notified n) st)))
    with (PlayContext.Play (pctx st)).
  rewrite handlers_loop_also_notified by exact Hn.
  destruct (bool_decide _) eqn:Hsize.
  - (* nothing was notified before *)
    apply bool_decide_eq_true, map_size_empty_iff in Hsize.
    rewrite handlers_loop_none_notified.
    2: { intros h _. unfold is_notified, notified_in. cbn. by rewrite Hsize. }
    cbn. split; [|done]. split_and!; try done.
    + by rewrite started_app, app_nil_r.
    + by rewrite module_runs_app, app_nil_r.
    + by right.
  - destruct (handlers_loop e _ stats (emit _ st)) as [[err stats'] st'] eqn:Hloop.
    cbn. split; [split_and!; try done; by left|].
    intros Hnone. rewrite handlers_loop_none_notified in Hloop by exact Hnone.
    injection Hloop as <- <- <-. cbn. split_and!; try done.
    + by rewrite started_app, app_nil_r.
    + by rewrite module_runs_app, app_nil_r.
Qed.

End UndeclaredFacts.

Lemma runHandlers_ignores_undeclared_witness :
  let play := handlers_play [] [handler_A "ok"; handler_B "ok"] in
  let c := PlayContext.mk play ∅ ∅ ∅ {[ "B" := true ]} None in
  let st : state nat := State c 0%nat [] in
  ("restart nginx" ∉ (Task.Name <$> Play.Handlers play))
  ∧ started (trace (runHandlers (lib := example_lib) (host := example_host)
                      run_for_real (Stats.mk 1 0 0 0 0 0)
                      (with_pctx (also_notified "restart nginx") st)).2)
    = [handler_B "ok"].
Proof.
  intros play c st.
  assert ("restart nginx" ∉ Task.Name <$> Play.Handlers play) as Hn.
  { vm_compute. intros Hin.
    apply elem_of_cons in Hin as [?|Hin]; [done|].
    apply elem_of_cons in Hin as [?|Hin]; [done|].
    by apply elem_of_nil in Hin. }
  split; [exact Hn|].
  pose proof (runHandlers_ignores_undeclared (lib := example_lib)
                (host := example_host) run_for_real (Stats.mk 1 0 0 0 0 0)
                st "restart nginx" Hn) as Hsame.
  destruct (runHandlers run_for_real (Stats.mk 1 0 0 0 0 0) st)
    as [[err stats'] st'] eqn:Hrun.
  destruct (runHandlers run_for_real (Stats.mk 1 0 0 0 0 0)
              (with_pctx (also_notified "restart nginx") st))
    as [[err_n stats_n] st_n].
  destruct Hsame as [(_ & _ & _ & _ & Hstarted & _) _].
  cbn [snd]. rewrite Hstarted.
  vm_compute in Hrun. injection Hrun as _ _ <-. vm_compute. reflexivity.
Defined.

(** ** The run of a playbook *)

Lemma quiet_app evs1 evs2 : quiet evs1 → quiet evs2 → quiet (evs1 ++ evs2).
Proof. intros. by apply Forall_app. Qed.

Section RunFacts.
Context {lib : GoLib} {World : Type} {host : Host World}.

Implicit Types (st : state World) (task : Task.t).

(** The four ways of [runTask]: the task runs, the condition panics, the
    condition returns an error, or the condition is false. *)
Lemma runTask_cases e task st :
  (∃ result task' st',
     (if bool_decide (0 < length (Task.Loop task))%nat
      then runTaskLoop e task st else runSingleTask e task st)
     = (result, task', st')
     ∧ runTask e task st = (Returns result, task', st'))
  ∨ (∃ msg, runTask e task st = (Panics msg, task, st))
  ∨ (∃ err, runTask e task st = (Returns (Failed None err), task, st))
  ∨ runTask e task st
    = (Returns (Done (TaskResult.mk "skipped" false ∅ None)), task,
       emit (OutTaskResult (NameOf task) "skipped" false
               "when condition not met") st).
Proof.
  unfold runTask.
  destruct (if bool_decide (0 < length (Task.Loop task))%nat
            then runTaskLoop e task st else runSingleTask e task st)
    as [[result task'] st'] eqn:Hrun.
  destruct (negb _); [|left; by eexists _, _, _].
  destruct (evaluateCondition _ _) as [[[|] [err|]]|msg].
  - right. right. left. by eexists.
  - left. by eexists _, _, _.
  - right. right. left. by eexists.
  - by repeat right.
  - right. left. by eexists.
Qed.

Lemma runSingleTask_quiet e task st :
  ∃ evs, trace (runSingleTask e task st).2 = trace st ++ evs ∧ quiet evs.
Proof.
  destruct (runSingleTask_trace e task st) as (evs & -> & Hin).
  eexists. split; [done|]. constructor; [done|].
  eapply Forall_impl; [exact Hin|]. by intros ev [? _].
Qed.

Lemma loop_items_quiet e loopVar i items anyChanged task st :
  ∃ evs,
    trace (loop_items e loopVar i items anyChanged task st).2 = trace st ++ evs
    ∧ quiet evs.
Proof.
  revert i anyChanged task st.
  induction items as [|item rest IH]; intros i anyChanged task st.
  - exists []. rewrite app_nil_r. split; [reflexivity|constructor].
  - cbn [loop_items].
    match goal with
    | |- context [runSingleTask e task ?s] =>
        destruct (runSingleTask_quiet e task s) as (evs1 & Htr1 & Hq1);
        destruct (runSingleTask e task s) as [[[result|result err] task1] st1]
    end; cbn [snd] in Htr1; cbn [with_pctx trace] in Htr1.
    + destruct (IH (i + 1) (anyChanged || TaskResult.Changed result) task1 st1)
        as (evs2 & -> & Hq2).
      exists (evs1 ++ evs2). rewrite Htr1, <-app_assoc.
      split; [done|by apply quiet_app].
    + by exists evs1.
Qed.

Lemma runTask_quiet e task st :
  ∃ evs, trace (runTask e task st).2 = trace st ++ evs ∧ quiet evs.
Proof.
  assert (∃ evs,
            trace (if bool_decide (0 < length (Task.Loop task))%nat
                   then runTaskLoop e task st
                   else runSingleTask e task st).2 = trace st ++ evs
            ∧ quiet evs) as Hrun.
  { destruct (bool_decide _); [|apply runSingleTask_quiet].
    unfold runTaskLoop.
    match goal with
    | |- context [loop_items e ?v ?i ?l ?a task st] =>
        destruct (loop_items_quiet e v i l a task st) as (evs & Htr & Hq);
        destruct (loop_items e v i l a task st)
          as [[[[result err]|anyChanged] task1] st1]
    end; by exists evs. }
  destruct (runTask_cases e task st)
    as [(result & task' & st' & Heq & ->)|[[msg ->]|[[err ->]| ->]]].
  - by rewrite Heq in Hrun.
  - exists []. rewrite app_nil_r. split; [reflexivity|constructor].
  - exists []. rewrite app_nil_r. split; [reflexivity|constructor].
  - eexists. split; [reflexivity|]. by repeat constructor.
Qed.

Lemma tasks_loop_quiet e tasks stats st :
  ∃ evs, trace (tasks_loop e tasks stats st).2 = trace st ++ evs ∧ quiet evs.
Proof.
  revert stats st. induction tasks as [|task rest IH]; intros stats st.
  - exists []. rewrite app_nil_r. split; [reflexivity|constructor].
  - cbn [tasks_loop].
    destruct (runTask_quiet e task st) as (evs1 & Htr1 & Hq1).
    destruct (runTask e task st) as [[[[result|result err]|msg] task1] st1];
      cbn [snd] in Htr1; [| |by exists evs1].
    + match goal with
      | |- context [tasks_loop e rest ?s st1] =>
          destruct (IH s st1) as (evs2 & -> & Hq2)
      end.
      exists (evs1 ++ evs2). rewrite Htr1, <-app_assoc.
      split; [done|by apply quiet_app].
    + destruct (negb _); [by exists evs1|].
      match goal with
      | |- context [tasks_loop e rest ?s ?s1] =>
          destruct (IH s s1) as (evs2 & -> & Hq2)
      end.
      cbn [emit trace]. rewrite Htr1. eexists.
      split; [rewrite <-!app_assoc; reflexivity|].
      apply quiet_app; [done|]. by constructor.
Qed.

Lemma runHandlers_quiet e stats st :
  ∃ evs, trace (runHandlers e stats st).2 = trace st ++ evs ∧ quiet evs.
Proof.
  unfold runHandlers. destruct (bool_decide _).
  - exists []. rewrite app_nil_r. split; [reflexivity|constructor].
  - match goal with
    | |- context [handlers_loop e ?h stats ?s] =>
        destruct (handlers_loop e h stats s) as [[err stats'] st'] eqn:Hloop
    end.
    destruct (handlers_loop_spec _ _ _ _ _ _ _ Hloop) as (evs & Htr & Hq & _).
    cbn [snd]. rewrite Htr. cbn [emit trace]. eexists.
    split; [rewrite <-app_assoc; reflexivity|]. by constructor.
Qed.

(** A play opens with its own start in the output and reports nothing else
    of the play level. *)
Lemma runPlay_trace e play stats w out :
  ∃ evs,
    (runPlay e play stats w out).2 = out ++ OutPlayStart play :: evs
    ∧ quiet evs.
Proof.
  unfold runPlay.
  destruct (getConnector play) as [err|conn].
  { exists []. split; [reflexivity|constructor]. }
  cbn [with_pctx world trace pctx].
  destruct (conn_Connect conn w) as [[err|] w1].
  { exists []. split; [reflexivity|constructor]. }
  set (st0 := with_world w1 _).
  assert (trace st0 = out ++ [OutPlayStart play]) as Htr0 by done.
  set (gathered := if Play.ShouldGatherFacts play then _ else _).
  assert (∃ evs, quiet evs
                 ∧ match gathered with
                   | inl (_, st) | inr st => trace st = trace st0 ++ evs
                   end) as (evs0 & Hq0 & Hg).
  { subst gathered. destruct (Play.ShouldGatherFacts play).
    - destruct (facts_Gather conn (world _)) as [[err|f] w2]; cbn;
        eexists; (split; [|rewrite <-app_assoc; reflexivity]);
        by repeat constructor.
    - exists []. split; [constructor|]. by rewrite app_nil_r. }
  destruct gathered as [[err st1]|st1].
  { exists evs0. rewrite Hg, Htr0, <-app_assoc. done. }
  destruct (tasks_loop_quiet e (Play.Tasks play) stats st1)
    as (evs1 & Htr1 & Hq1).
  destruct (tasks_loop e (Play.Tasks play) stats st1)
    as [[[[err|]|msg] stats1] st2]; cbn [snd] in Htr1.
  1, 3: (exists (evs0 ++ evs1); rewrite Htr1, Hg, Htr0, <-!app_assoc;
         split; [done|by apply quiet_app]).
  destruct (runHandlers_quiet e stats1 st2) as (evs2 & Htr2 & Hq2).
  destruct (runHandlers e stats1 st2) as [[err stats2] st3]; cbn [snd] in Htr2.
  exists (evs0 ++ evs1 ++ evs2). cbn [snd].
  rewrite Htr2, Htr1, Hg, Htr0, <-!app_assoc.
  split; [done|]. by repeat apply quiet_app.
Qed.

End RunFacts.

Section RunTheorem.
Context {lib : GoLib} {World : Type} {host : Host World}.

(** The loop over the plays starts the plays in order, up to and including
    the first that fails or panics, and reports the error of the one that
    fails. *)
Lemma plays_loop_spec e plays stats (w : World) out :
  ∃ evs,
    (plays_loop e plays stats w out).2 = out ++ evs
    ∧ match (plays_loop e plays stats w out).1.1.1 with
      | Returns true => play_starts evs = plays ∧ errors evs = []
      | Returns false =>
          ∃ before play rest failure,
            plays = before ++ play :: rest
            ∧ play_starts evs = before ++ [play]
            ∧ errors evs = [failure]
      | Panics _ =>
          ∃ before play rest,
            plays = before ++ play :: rest
            ∧ play_starts evs = before ++ [play]
            ∧ errors evs = []
      end.
Proof.
  revert stats w out. induction plays as [|play rest IH]; intros stats w out.
  - exists []. rewrite app_nil_r. by split.
  - cbn [plays_loop].
    destruct (runPlay_trace e play stats w out) as (evs1 & Htr1 & Hq1).
    destruct (not_play_level_starts _ Hq1) as [Hps1 Her1].
    destruct (runPlay e play stats w out)
      as [[[[[err|]|msg] stats1] w1] out1];
      cbn [snd] in Htr1; subst out1.
    + exists (OutPlayStart play :: evs1 ++ [OutError err]). cbn [fst snd].
      split; [by rewrite <-app_assoc|].
      exists [], play, rest, err. split; [done|].
      change (play_starts (OutPlayStart play :: ?l)) with (play :: play_starts l).
      change (errors (OutPlayStart play :: ?l)) with (errors l).
      rewrite play_starts_app, errors_app, Hps1, Her1. done.
    + destruct (IH stats1 w1 (out ++ OutPlayStart play :: evs1))
        as (evs2 & Htr2 & Hspec).
      exists (OutPlayStart play :: evs1 ++ evs2).
      split; [by rewrite Htr2, <-app_assoc|].
      change (play_starts (OutPlayStart play :: ?l)) with (play :: play_starts l).
      change (errors (OutPlayStart play :: ?l)) with (errors l).
      rewrite play_starts_app, errors_app, Hps1, Her1. cbn [app].
      destruct (plays_loop _ _ _ _ _).1.1.1 as [[|]|msg].
      * destruct Hspec as [-> ->]. done.
      * destruct Hspec as (before & p & rest' & failure & -> & -> & ->).
        by exists (play :: before), p, rest', failure.
      * destruct Hspec as (before & p & rest' & -> & -> & ->).
        by exists (play :: before), p, rest'.
    + exists (OutPlayStart play :: evs1). cbn [fst snd]. split; [done|].
      exists [], play, rest. split; [done|].
      change (play_starts (OutPlayStart play :: ?l)) with (play :: play_starts l).
      change (errors (OutPlayStart play :: ?l)) with (errors l).
      by rewrite Hps1, Her1.
Qed.

(** The loop over the plays in terms of [runPlay]: every play returns
    without error, or the plays before one do and that one returns an
    error, which is reported, or panics. *)
Lemma plays_loop_runs e plays stats (w : World) out :
  match plays_loop e plays stats w out with
  | (Returns true, stats', w', out') =>
      plays_succeed e plays stats w out stats' w' out'
  | (Returns false, stats', w', out') =>
      ∃ before play rest failure stats1 w1 out1 out2,
        plays = before ++ play :: rest
        ∧ plays_succeed e before stats w out stats1 w1 out1
        ∧ runPlay e play stats1 w1 out1
          = (Returns (Some failure), stats', w', out2)
        ∧ out' = out2 ++ [OutError failure]
  | (Panics msg, stats', w', out') =>
      ∃ before play rest stats1 w1 out1,
        plays = before ++ play :: rest
        ∧ plays_succeed e before stats w out stats1 w1 out1
        ∧ runPlay e play stats1 w1 out1 = (Panics msg, stats', w', out')
  end.
Proof.
  revert stats w out. induction plays as [|play rest IH]; intros stats w out.
  - constructor.
  - cbn [plays_loop].
    destruct (runPlay e play stats w out)
      as [[[[[err|]|msg] stats1] w1] out1] eqn:Hplay.
    + exists [], play, rest, err, stats, w, out, out1.
      split_and!; try done. constructor.
    + specialize (IH stats1 w1 out1).
      destruct (plays_loop e rest stats1 w1 out1)
        as [[[[[|]|msg] stats2] w2] out2].
      * by econstructor.
      * destruct IH as (before & p & rest' & failure & s1 & w1' & o1 & o2
                        & -> & Hbefore & Hp & ->).
        exists (play :: before), p, rest', failure, s1, w1', o1, o2.
        split_and!; try done. by econstructor.
      * destruct IH as (before & p & rest' & s1 & w1' & o1 & -> & Hbefore & Hp).
        exists (play :: before), p, rest', s1, w1', o1.
        split_and!; try done. by econstructor.
    + exists [], play, rest, stats, w, out. split_and!; try done. constructor.
Qed.

(** The loop over the plays returns true exactly when every play returns
    without error. *)
Lemma plays_loop_true_iff e plays stats (w : World) out :
  (plays_loop e plays stats w out).1.1.1 = Returns true
  ↔ ∃ stats' w' out', plays_succeed e plays stats w out stats' w' out'.
Proof.
  split.
  - intros Htrue. pose proof (plays_loop_runs e plays stats w out) as Hruns.
    destruct (plays_loop e plays stats w out) as [[[r stats'] w'] out'].
    cbn in Htrue. subst r. by eexists _, _, _.
  - intros (stats' & w' & out' & Hall).
    induction Hall as [|play plays stats w out stats1 w1 out1 stats2 w2 out2
                          Hplay _ IH]; [done|].
    cbn [plays_loop]. by rewrite Hplay.
Qed.

End RunTheorem.

(** C9.  [Run] is to return a result and no error for every playbook; but
    for a play with a task whose [when] is one single quote, which
    [Play.Validate] accepts, [resolveValue] slices [s[1:0]] and panics
    when the task is reached, nothing recovers, and [Run] returns
    nothing: the run ends after the start of the play, without the end of
    the playbook in the output. *)
Theorem Run_panics_on_a_lone_quote :
  (∀ (lib : GoLib) (pctx : PlayContext.t),
     resolveValue "'" pctx
     = Panics "runtime error: slice bounds out of range [1:0]"
     ∧ evaluateCondition "'" pctx
       = Panics "runtime error: slice bounds out of range [1:0]")
  ∧ Forall (λ play, Play_Validate play = None)
      (Playbook.Plays lone_quote_playbook)
  ∧ Run (lib := example_lib) (host := example_host) run_for_real
      lone_quote_playbook 0%nat
    = (Panics "runtime error: slice bounds out of range [1:0]", 0%nat,
       [OutPlaybookStart "site.yml";
        OutPlayStart (handlers_play [lone_quote_task] [])]).
Proof.
  split_and!.
  - intros lib pctx. split; reflexivity.
  - by repeat constructor.
  - vm_compute. reflexivity.
Qed.

(** * Further properties of the engine *)

(** ** Conditions *)

Lemma evaluateCondition_go_no_error {lib : GoLib} (fuel : nat)
    (condition : string) (pctx : PlayContext.t) (result : bool)
    (err : option error) :
  evaluateCondition_go fuel condition pctx = Returns (result, err) →
  err = None.
Proof.
  revert condition result. induction fuel as [|fuel IH];
    intros condition result; cbn [evaluateCondition_go].
  - repeat case_match; congruence.
  - destruct (GoStr.HasPrefix _ _).
    + specialize (IH (GoStr.drop 4 (GoStr.TrimSpace condition))).
      destruct (evaluateCondition_go fuel _ _) as [[r err']|msg]; [|done].
      intros [= _ <-]. by eapply IH.
    + repeat case_match; congruence.
Qed.

(** X1.  [evaluateCondition] has no error to return: whatever the text of
    the condition and the variables, when it returns its second result is
    nil. *)
Theorem evaluateCondition_never_fails {lib : GoLib} (condition : string)
    (pctx : PlayContext.t) :
  match evaluateCondition condition pctx with
  | Returns (_, err) => err = None
  | Panics _ => True
  end.
Proof.
  pose proof (evaluateCondition_go_no_error (String.length condition)
                condition pctx) as Herr.
  fold (evaluateCondition condition pctx) in Herr.
  destruct (evaluateCondition condition pctx) as [[result err]|msg]; [|done].
  by eapply Herr.
Qed.

(** X2.  A condition that, trimmed, is [not] and a space before [rest] is
    the negation of the condition [rest], and panics when that one
    does. *)
Theorem evaluateCondition_not {lib : GoLib} (condition rest : string)
    (pctx : PlayContext.t) :
  GoStr.TrimSpace condition = "not " +:+ rest →
  evaluateCondition condition pctx
  = match evaluateCondition rest pctx with
    | Returns (result, _) => Returns (negb result, None)
    | Panics msg => Panics msg
    end.
Proof.
  intros Htrim. unfold evaluateCondition.
  destruct (TrimSpace_spec condition) as (_ & _ & Hlen).
  rewrite Htrim, length_str_app in Hlen. cbn [String.length] in Hlen.
  destruct (String.length condition) as [|fuel] eqn:Hfuel; [lia|].
  cbn [evaluateCondition_go]. rewrite Htrim.
  unfold GoStr.HasPrefix. rewrite prefix_app.
  change 4%nat with (String.length "not ") at 1. rewrite drop_app_length.
  rewrite (evaluateCondition_fuel fuel (String.length rest)) by lia.
  fold (evaluateCondition rest pctx).
  pose proof (evaluateCondition_go_no_error (String.length rest) rest pctx)
    as Herr.
  fold (evaluateCondition rest pctx) in Herr.
  destruct (evaluateCondition rest pctx) as [[result err]|msg]; [|done].
  by rewrite (Herr result err eq_refl).
Qed.

Lemma evaluateCondition_not_witness :
  evaluateCondition (lib := example_lib) "  not enabled " (example_pctx ∅)
  = match
      evaluateCondition (lib := example_lib) "enabled" (example_pctx ∅)
    with
    | Returns (result, _) => Returns (negb result, None)
    | Panics msg => Panics msg
    end.
Proof. apply evaluateCondition_not. reflexivity. Defined.

Lemma rev_app_acc (s acc : string) :
  String.rev_app s acc = String.rev_app s "" +:+ acc.
Proof.
  revert acc. induction s as [|c s IH]; intros acc; [done|].
  cbn [String.rev_app]. rewrite (IH (String c acc)), (IH (String c "")).
  by rewrite str_app_assoc, app_String, app_empty_l.
Qed.

Lemma rev_str_app (s t : string) :
  String.rev (s +:+ t) = String.rev t +:+ String.rev s.
Proof.
  unfold String.rev.
  assert (∀ acc, String.rev_app (s +:+ t) acc
                 = String.rev_app t (String.rev_app s acc)) as ->.
  { induction s as [|c s IH]; intros acc; [done|].
    rewrite app_String. cbn [String.rev_app]. apply IH. }
  apply rev_app_acc.
Qed.

Lemma HasSuffix_app (s t : string) : GoStr.HasSuffix (s +:+ t) t = true.
Proof. unfold GoStr.HasSuffix. rewrite rev_str_app. apply prefix_app. Qed.

Lemma take_app_length (s t : string) : GoStr.take (String.length s) (s +:+ t) = s.
Proof.
  induction s as [|c s IH]; [by destruct t|].
  rewrite app_String. cbn [String.length GoStr.take]. by rewrite IH.
Qed.

(** A name that does not begin with [not] and a space does not do so with
    [.changed] after it. *)
Lemma not_prefix_changed (varName : string) :
  GoStr.HasPrefix varName "not " = false →
  GoStr.HasPrefix (varName +:+ ".changed") "not " = false.
Proof.
  unfold GoStr.HasPrefix.
  destruct varName as [|a [|b [|c [|d r]]]];
    rewrite ?app_String, ?app_empty_l; cbn [GoStr.prefix];
    intros H; try done;
    change (Ascii.eqb " " ".") with false;
    change (Ascii.eqb "t" ".") with false;
    change (Ascii.eqb "o" ".") with false;
    rewrite ?andb_false_r; done.
Qed.

(** A condition [name.changed]: whether the registered result of that name
    has a true [changed]. *)
Lemma evaluateCondition_changed {lib : GoLib} (condition varName : string)
    (pctx : PlayContext.t) :
  GoStr.TrimSpace condition = varName +:+ ".changed" →
  GoStr.HasPrefix varName "not " = false →
  evaluateCondition condition pctx
  = Returns
      (match PlayContext.Registered pctx !! varName with
       | Some (VMap regMap) =>
           match regMap !! "changed" with
           | Some (VBool changed) => changed
           | _ => false
           end
       | _ => false
       end, None).
Proof.
  intros Htrim Hnot. apply not_prefix_changed in Hnot.
  assert (∀ fuel, evaluateCondition_go fuel condition pctx
                  = evaluateCondition_go 0 condition pctx) as Hfuel.
  { intros [|fuel]; [done|]. cbn [evaluateCondition_go].
    by rewrite Htrim, Hnot. }
  unfold evaluateCondition. rewrite Hfuel. cbn [evaluateCondition_go].
  rewrite Htrim, Hnot, HasSuffix_app, length_str_app.
  change (String.length ".changed") with 8%nat.
  replace (String.length varName + 8 - 8)%nat with (String.length varName)
    by lia.
  rewrite take_app_length. repeat case_match; done.
Qed.

(** X3.  A [.changed] condition on a name under which nothing is registered
    is false, and no error, also when a variable of that name exists. *)
Theorem evaluateCondition_changed_unregistered {lib : GoLib}
    (condition varName : string) (pctx : PlayContext.t) :
  GoStr.TrimSpace condition = varName +:+ ".changed" →
  GoStr.HasPrefix varName "not " = false →
  PlayContext.Registered pctx !! varName = None →
  evaluateCondition condition pctx = Returns (false, None).
Proof.
  intros Htrim Hnot Hreg.
  rewrite (evaluateCondition_changed _ _ _ Htrim Hnot). by rewrite Hreg.
Qed.

Lemma evaluateCondition_changed_unregistered_witness :
  evaluateCondition (lib := example_lib) "result.changed"
    (example_pctx {[ "result" := VMap {[ "changed" := VBool true ]} ]})
  = Returns (false, None).
Proof.
  apply (evaluateCondition_changed_unregistered (lib := example_lib)
           "result.changed" "result"); reflexivity.
Defined.

(** ** What a task leaves behind *)

Lemma notified_in_foldl (names : list string) (c : PlayContext.t)
    (name : string) :
  notified_in
    (foldl (λ c handler,
              PlayContext.set_NotifiedHandlers (<[ handler := true ]>) c)
       c names) name
  = notified_in c name || bool_decide (name ∈ names).
Proof.
  revert c. induction names as [|h rest IH]; intros c.
  - cbn [foldl]. rewrite bool_decide_false by apply not_elem_of_nil.
    by rewrite orb_false_r.
  - cbn [foldl]. rewrite IH. unfold notified_in at 1.
    cbn [PlayContext.NotifiedHandlers PlayContext.set_NotifiedHandlers].
    destruct (decide (h = name)) as [->|Hne].
    + rewrite lookup_insert_eq. cbn [default orb].
      rewrite (bool_decide_true (name ∈ name :: rest))
        by apply list_elem_of_here.
      by rewrite orb_true_r.
    + rewrite lookup_insert_ne by done. fold (notified_in c name). f_equal.
      apply bool_decide_ext. rewrite elem_of_cons.
      split; [by right|]. intros [?|?]; [congruence|done].
Qed.

Lemma notify_handlers_notified task result c name :
  notified_in (notify_handlers task result c) name
  = notified_in c name
    || (Result.Changed result && bool_decide (name ∈ Task.Notify task)).
Proof.
  unfold notify_handlers. destruct (Result.Changed result); cbn [andb].
  - destruct (Task.Notify task) as [|h rest] eqn:HN.
    + rewrite (bool_decide_false (name ∈ [])) by apply not_elem_of_nil.
      rewrite orb_false_r. by destruct (bool_decide _).
    + rewrite bool_decide_true by (cbn; lia). apply notified_in_foldl.
  - by rewrite orb_false_r.
Qed.

Section TaskFacts.
Context {lib : GoLib} {World : Type} {host : Host World}.

Implicit Types (st : state World) (task : Task.t).

(** The two ways [runSingleTask] returns without error: in a dry run
    nothing has happened, and otherwise the module has returned a result,
    which has been registered and has notified the handlers. *)
Lemma runSingleTask_done e task st result task' st' :
  runSingleTask e task st = (Done result, task', st') →
  (Executor.DryRun e = true
   ∧ result = TaskResult.mk "skipped" false ∅ None
   ∧ pctx st' = pctx st ∧ world st' = world st)
  ∨ (Executor.DryRun e = false
     ∧ ∃ res,
         result = TaskResult.mk (if Result.Changed res then "changed" else "ok")
                    (Result.Changed res) (Result.Data res) None
         ∧ pctx st'
           = notify_handlers (ExpandShorthand task) res
               (store_registered (ExpandShorthand task) res (pctx st))).
Proof.
  unfold runSingleTask. intros Hrun.
  destruct (module_Get _) as [run|]; [|by simplify_eq].
  destruct (interpolateParams _ _) as [e'|params]; [by simplify_eq|].
  destruct (Executor.DryRun e).
  { left. by simplify_eq. }
  right. split; [done|].
  match type of Hrun with
  | context [attempts ?m ?a ?x ?r ?n ?t ?p ?s] =>
      pose proof (attempts_pctx m a x r n t p s) as Hp;
      destruct (attempts m a x r n t p s) as [[lastErr|res] st1]
  end; [by simplify_eq|].
  injection Hrun as <- <- <-. exists res. split; [done|].
  cbn in Hp |- *. by rewrite Hp.
Qed.

(** X4.  [runTask] on a task whose [when] is false: the task is reported as
    skipped and nothing else happens, no module is looked up or run and the
    play context and the world stay as they were. *)
Theorem runTask_when_false_skips e task st (err : option error) :
  Task.When task ≠ "" →
  evaluateCondition (Task.When task) (pctx st) = Returns (false, err) →
  runTask e task st
  = (Returns (Done (TaskResult.mk "skipped" false ∅ None)), task,
     State (pctx st) (world st)
       (trace st ++ [OutTaskResult (NameOf task) "skipped" false
                       "when condition not met"])).
Proof.
  intros Hwhen Hfalse. unfold runTask.
  apply String.eqb_neq in Hwhen. rewrite Hwhen. cbn [negb].
  rewrite Hfalse.
  by rewrite (evaluateCondition_go_no_error _ _ _ _ _ Hfalse).
Qed.

(** X5.  The handlers notified after [runSingleTask] are those notified
    before and, when the task returned a result that changed something,
    those its [notify] lists; a task that fails, is skipped or changes
    nothing notifies none. *)
Theorem runSingleTask_notifies e task st (name : string) :
  notified_in (pctx (runSingleTask e task st).2) name
  = notified_in (pctx st) name
    || match (runSingleTask e task st).1.1 with
       | Done result =>
           TaskResult.Changed result
           && bool_decide (name ∈ Task.Notify task)
       | Failed _ _ => false
       end.
Proof.
  destruct (runSingleTask e task st) as [[[result|result err] task'] st']
    eqn:Hrun; cbn [fst snd].
  - apply runSingleTask_done in Hrun
      as [(_ & -> & -> & _)|(_ & res & -> & ->)].
    + by rewrite orb_false_r.
    + rewrite notify_handlers_notified. cbn [TaskResult.Changed].
      destruct (ExpandShorthand_fields task) as (_ & _ & _ & _ & -> & _).
      f_equal. unfold store_registered, notified_in.
      by destruct (String.eqb _ _).
  - apply runSingleTask_failed_pctx in Hrun as ->. by rewrite orb_false_r.
Qed.

(** X6.  A task with [register] that runs and returns a result leaves that
    result, as a map of [changed], [message] and [data], under the name in
    both [Registered] and [Vars], where a template finds it. *)
Theorem runSingleTask_registers e task st result task' st' :
  Executor.DryRun e = false →
  Task.Register task ≠ "" →
  runSingleTask e task st = (Done result, task', st') →
  ∃ message,
    let v := registered_value
               (Result.mk (TaskResult.Changed result) message
                  (TaskResult.Data result)) in
    PlayContext.Registered (pctx st') !! Task.Register task = Some v
    ∧ PlayContext.Vars (pctx st') !! Task.Register task = Some v
    ∧ lookupVariable (Task.Register task) (pctx st') = v.
Proof.
  intros Hdry Hreg Hrun.
  apply runSingleTask_done in Hrun as [(? & _)|(_ & res & -> & ->)];
    [congruence|].
  exists (Result.Message res). cbn [TaskResult.Changed TaskResult.Data].
  destruct (notify_handlers_spec (ExpandShorthand task) res
              (store_registered (ExpandShorthand task) res (pctx st)))
    as (_ & HV & HR & _).
  unfold lookupVariable. rewrite HV, HR. unfold store_registered.
  destruct (ExpandShorthand_fields task) as (_ & _ & _ & _ & _ & ->).
  apply String.eqb_neq in Hreg. rewrite Hreg.
  cbn [PlayContext.Registered PlayContext.Vars PlayContext.set_Vars
         PlayContext.set_Registered].
  rewrite !lookup_insert_eq. by destruct res.
Qed.

(** X7.  After a task with [register: name] has run and returned a result,
    the condition [name.changed] is whether that task changed something. *)
Theorem registered_changed_condition e task st result task' st'
    (condition : string) :
  Executor.DryRun e = false →
  Task.Register task ≠ "" →
  GoStr.HasPrefix (Task.Register task) "not " = false →
  GoStr.TrimSpace condition = Task.Register task +:+ ".changed" →
  runSingleTask e task st = (Done result, task', st') →
  evaluateCondition condition (pctx st')
  = Returns (TaskResult.Changed result, None).
Proof.
  intros Hdry Hreg Hnot Htrim Hrun.
  rewrite (evaluateCondition_changed _ _ _ Htrim Hnot).
  apply runSingleTask_done in Hrun as [(? & _)|(_ & res & -> & ->)];
    [congruence|].
  destruct (notify_handlers_spec (ExpandShorthand task) res
              (store_registered (ExpandShorthand task) res (pctx st)))
    as (_ & _ & -> & _).
  unfold store_registered.
  destruct (ExpandShorthand_fields task) as (_ & _ & _ & _ & _ & ->).
  apply String.eqb_neq in Hreg. rewrite Hreg.
  cbn [PlayContext.Registered PlayContext.set_Vars PlayContext.set_Registered].
  rewrite lookup_insert_eq. unfold registered_value.
  by rewrite lookup_insert_eq.
Qed.

End TaskFacts.

Lemma runTask_when_false_skips_witness :
  let task := Task.mk "restart" "touch" ∅ "" "enabled == 'yes'" "" [] [] ""
                false 0 0 None "" "" "" in
  let st := State (example_pctx {[ "enabled" := VString "no" ]}) 0%nat [] in
  runTask (lib := example_lib) (host := example_host) run_for_real task st
  = (Returns (Done (TaskResult.mk "skipped" false ∅ None)), task,
     State (pctx st) (world st)
       (trace st ++ [OutTaskResult (NameOf task) "skipped" false
                       "when condition not met"])).
Proof.
  intros task st.
  apply (runTask_when_false_skips (lib := example_lib) (host := example_host)
           run_for_real task st None);
    [discriminate|vm_compute; reflexivity].
Defined.

Lemma runSingleTask_registers_witness :
  let task := Task.mk "touch a file" "touch" ∅ "" "" "touched" [] [] ""
                false 0 0 None "" "" "" in
  ∃ message,
    lookupVariable "touched"
      (pctx (runSingleTask (lib := example_lib) (host := example_host)
               run_for_real task (State (example_pctx ∅) 0%nat [])).2)
    = registered_value (Result.mk true message ∅).
Proof.
  intros task.
  destruct (runSingleTask_registers (lib := example_lib) (host := example_host)
              run_for_real task (State (example_pctx ∅) 0%nat [])
              (TaskResult.mk "changed" true ∅ None) task
              (runSingleTask (lib := example_lib) (host := example_host)
                 run_for_real task (State (example_pctx ∅) 0%nat [])).2)
    as (message & _ & _ & Hlook).
  - reflexivity.
  - discriminate.
  - vm_compute. reflexivity.
  - exists message. exact Hlook.
Defined.

Lemma registered_changed_condition_witness :
  let task := Task.mk "touch a file" "touch" ∅ "" "" "touched" [] [] ""
                false 0 0 None "" "" "" in
  evaluateCondition (lib := example_lib) " touched.changed"
    (pctx (runSingleTask (lib := example_lib) (host := example_host)
             run_for_real task (State (example_pctx ∅) 0%nat [])).2)
  = Returns (true, None).
Proof.
  intros task.
  apply (registered_changed_condition (lib := example_lib)
           (host := example_host) run_for_real task
           (State (example_pctx ∅) 0%nat [])
           (TaskResult.mk "changed" true ∅ None) task).
  - reflexivity.
  - discriminate.
  - reflexivity.
  - vm_compute. reflexivity.
  - vm_compute. reflexivity.
Defined.

(** ** Dry runs *)

Lemma no_effect_refl {World : Type} (st : state World) : no_effect st st.
Proof. by repeat split. Qed.

Lemma no_effect_trans {World : Type} (st1 st2 st3 : state World) :
  no_effect st1 st2 → no_effect st2 st3 → no_effect st1 st3.
Proof.
  intros (? & ? & ? & ?) (? & ? & ? & ?). repeat split; congruence.
Qed.

Section DryRunFacts.
Context {lib : GoLib} {World : Type} {host : Host World}.

Implicit Types (st : state World) (task : Task.t).

Variable e : Executor.t.
Hypothesis Hdry : Executor.DryRun e = true.

Lemma runSingleTask_dry_run task st :
  no_effect st (runSingleTask e task st).2
  ∧ PlayContext.Vars (pctx (runSingleTask e task st).2)
    = PlayContext.Vars (pctx st)
  ∧ ∀ result, (runSingleTask e task st).1.1 = Done result →
              result = TaskResult.mk "skipped" false ∅ None.
Proof.
  unfold runSingleTask, no_effect.
  destruct (module_Get _) as [run|].
  2: { cbn. rewrite !module_runs_app, !sleeps_app. cbn.
       by rewrite !app_nil_r. }
  destruct (interpolateParams _ _) as [err|params].
  { cbn. rewrite !module_runs_app, !sleeps_app. cbn.
    by rewrite !app_nil_r. }
  rewrite Hdry. cbn. rewrite !module_runs_app, !sleeps_app. cbn.
  rewrite !app_nil_r. split_and!; try done. by intros ? [= <-].
Qed.

Lemma loop_items_dry_run loopVar i items anyChanged task st :
  no_effect st (loop_items e loopVar i items anyChanged task st).2
  ∧ ∀ changed, (loop_items e loopVar i items anyChanged task st).1.1
               = inr changed → changed = anyChanged.
Proof.
  revert i anyChanged task st.
  induction items as [|item rest IH]; intros i anyChanged task st.
  - split; [apply no_effect_refl|]. cbn. by intros ? [= <-].
  - cbn [loop_items].
    match goal with
    | |- context [runSingleTask e task ?s] =>
        destruct (runSingleTask_dry_run task s) as (Hno & _ & Hres);
        destruct (runSingleTask e task s) as [[[result|result err] task1] st1]
    end; cbn [fst snd] in Hno, Hres.
    + rewrite (Hres result eq_refl). cbn [TaskResult.Changed].
      rewrite orb_false_r.
      destruct (IH (i + 1) anyChanged task1 st1) as [Hno' Hch].
      split; [|exact Hch]. eapply no_effect_trans; [|exact Hno'].
      exact Hno.
    + split; [exact Hno|]. cbn. by intros ? [=].
Qed.

Lemma runTask_dry_run task st :
  no_effect st (runTask e task st).2
  ∧ ∀ result, (runTask e task st).1.1 = Returns (Done result) →
              TaskResult.Status result ≠ "changed".
Proof.
  assert (no_effect st
            (if bool_decide (0 < length (Task.Loop task))%nat
             then runTaskLoop e task st else runSingleTask e task st).2
          ∧ ∀ result,
              (if bool_decide (0 < length (Task.Loop task))%nat
               then runTaskLoop e task st
               else runSingleTask e task st).1.1 = Done result →
              TaskResult.Status result ≠ "changed") as Hrun.
  { destruct (bool_decide _).
    - unfold runTaskLoop.
      match goal with
      | |- context [loop_items e ?v ?i ?l ?a task st] =>
          destruct (loop_items_dry_run v i l a task st) as [Hno Hch];
          destruct (loop_items e v i l a task st)
            as [[[[result err]|anyChanged] task1] st1]
      end; cbn [fst snd] in Hno, Hch |- *.
      + split; [exact Hno|]. by intros ? [=].
      + rewrite (Hch anyChanged eq_refl). split; [exact Hno|].
        by intros ? [= <-].
    - destruct (runSingleTask_dry_run task st) as (Hno & _ & Hres).
      split; [exact Hno|]. intros result Hr. by rewrite (Hres result Hr). }
  destruct (runTask_cases e task st)
    as [(result & task' & st' & Heq & ->)|[[msg ->]|[[err ->]| ->]]].
  - rewrite Heq in Hrun. destruct Hrun as [Hno Hst]. split; [exact Hno|].
    intros r [= ->]. by apply Hst.
  - split; [apply no_effect_refl|]. by intros ? [=].
  - split; [apply no_effect_refl|]. by intros ? [=].
  - split; [|by intros ? [= <-]]. unfold no_effect. cbn.
    rewrite !module_runs_app, !sleeps_app. cbn. by rewrite !app_nil_r.
Qed.

Lemma tasks_loop_dry_run tasks stats st :
  no_effect st (tasks_loop e tasks stats st).2
  ∧ Stats.Changed (tasks_loop e tasks stats st).1.2 = Stats.Changed stats.
Proof.
  revert stats st. induction tasks as [|task rest IH]; intros stats st.
  - split; [apply no_effect_refl|done].
  - cbn [tasks_loop].
    destruct (runTask_dry_run task st) as [Hno Hst].
    destruct (runTask e task st) as [[[[result|result err]|msg] task1] st1];
      cbn [fst snd] in Hno, Hst; [| |done].
    + match goal with
      | |- context [tasks_loop e rest ?s st1] =>
          destruct (IH s st1) as [Hno' ->]
      end.
      split; [by eapply no_effect_trans|].
      specialize (Hst result eq_refl). unfold Stats.count.
      destruct (String.eqb _ "ok"); [done|].
      destruct (String.eqb _ "changed") eqn:Hc;
        [by apply String.eqb_eq in Hc|].
      by destruct (String.eqb _ "skipped").
    + destruct (negb _); [done|].
      match goal with
      | |- context [tasks_loop e rest ?s ?s1] =>
          destruct (IH s s1) as [Hno' ->]
      end.
      split; [|done]. eapply no_effect_trans; [exact Hno|].
      eapply no_effect_trans; [|exact Hno']. unfold no_effect. cbn.
      rewrite !module_runs_app, !sleeps_app. cbn. by rewrite !app_nil_r.
Qed.

Lemma runPlay_dry_run play stats w out :
  module_runs (runPlay e play stats w out).2 = module_runs out
  ∧ sleeps (runPlay e play stats w out).2 = sleeps out
  ∧ Stats.Changed (runPlay e play stats w out).1.1.2 = Stats.Changed stats.
Proof.
  assert (∀ ev, (∀ m p, ev ≠ ModuleRun m p) → (∀ d, ev ≠ Sleep d) →
                ∀ evs, module_runs (evs ++ [ev]) = module_runs evs
                       ∧ sleeps (evs ++ [ev]) = sleeps evs) as Hstep.
  { intros ev Hm Hs evs. rewrite module_runs_app, sleeps_app.
    destruct ev; cbn; rewrite ?app_nil_r; try done.
    - by destruct (Hm module params).
    - by destruct (Hs nanoseconds). }
  destruct (Hstep (OutPlayStart play) ltac:(done) ltac:(done) out)
    as [Hm0 Hs0].
  unfold runPlay.
  destruct (getConnector play) as [err|conn]; [done|].
  cbn [with_pctx world trace pctx].
  destruct (conn_Connect conn w) as [[err|] w1]; [done|].
  set (st0 := with_world w1 _).
  assert (trace st0 = out ++ [OutPlayStart play]) as Htr0 by done.
  assert (PlayContext.NotifiedHandlers (pctx st0) = ∅) as Hn0 by done.
  set (gathered := if Play.ShouldGatherFacts play then _ else _).
  assert (match gathered with
          | inl (_, st) =>
              module_runs (trace st) = module_runs out
              ∧ sleeps (trace st) = sleeps out
          | inr st =>
              module_runs (trace st) = module_runs out
              ∧ sleeps (trace st) = sleeps out
              ∧ PlayContext.NotifiedHandlers (pctx st) = ∅
          end) as Hg.
  { subst gathered. destruct (Play.ShouldGatherFacts play); [|done].
    destruct (facts_Gather conn (world _)) as [[err|f] w2]; cbn;
      rewrite !module_runs_app, !sleeps_app; cbn; rewrite !app_nil_r; done. }
  destruct gathered as [[err st1]|st1]; [by destruct Hg|].
  destruct Hg as (Hm1 & Hs1 & Hn1).
  destruct (tasks_loop_dry_run (Play.Tasks play) stats st1)
    as [(_ & Hn2 & Hm2 & Hs2) Hc2].
  destruct (tasks_loop e (Play.Tasks play) stats st1)
    as [[[[err|]|msg] stats1] st2]; cbn [fst snd] in Hn2, Hm2, Hs2, Hc2 |- *.
  1, 3: split_and!; congruence.
  unfold runHandlers. rewrite Hn2, Hn1.
  rewrite bool_decide_true by done. cbn [fst snd].
  split_and!; congruence.
Qed.

Lemma plays_loop_dry_run plays stats (w : World) out :
  module_runs (plays_loop e plays stats w out).2 = module_runs out
  ∧ sleeps (plays_loop e plays stats w out).2 = sleeps out
  ∧ Stats.Changed (plays_loop e plays stats w out).1.1.2
    = Stats.Changed stats.
Proof.
  revert stats w out. induction plays as [|play rest IH]; intros stats w out;
    [done|].
  cbn [plays_loop].
  destruct (runPlay_dry_run play stats w out) as (Hm & Hs & Hc).
  destruct (runPlay e play stats w out) as [[[[[err|]|msg] stats1] w1] out1];
    cbn [fst snd] in Hm, Hs, Hc |- *.
  - rewrite module_runs_app, sleeps_app. cbn. rewrite !app_nil_r. done.
  - destruct (IH stats1 w1 out1) as (-> & -> & ->). done.
  - done.
Qed.

End DryRunFacts.

(** X8.  A dry run of a playbook runs no module and sleeps no time, also
    when it ends in a panic, and counts no task as changed. *)
Theorem Run_dry_run {lib : GoLib} {World : Type} {host : Host World}
    (e : Executor.t) (pb : Playbook.t) (w : World) :
  Executor.DryRun e = true →
  let '(ending, _, out) := Run e pb w in
  module_runs out = [] ∧ sleeps out = []
  ∧ match ending with
    | Returns (result, _) => Stats.Changed (RunResult.Stats result) = 0
    | Panics _ => True
    end.
Proof.
  intros Hdry. unfold Run.
  match goal with
  | |- context [plays_loop e ?ps ?s w ?o] =>
      destruct (plays_loop_dry_run e Hdry ps s w o) as (Hm & Hs & Hc);
      destruct (plays_loop e ps s w o) as [[[[success|msg] stats] w'] out]
  end; cbn [fst snd] in Hm, Hs, Hc; [|done].
  cbn [RunResult.Stats]. rewrite module_runs_app, sleeps_app, Hm, Hs, Hc.
  done.
Qed.

Lemma Run_dry_run_witness :
  let pb := Playbook.mk "site.yml"
              [handlers_play [notifying_task "configure"]
                 [handler_A "touch"; handler_B "touch"]] in
  let '(ending, _, out) :=
    Run (lib := example_lib) (host := example_host)
      (Executor.mk true false) pb 0%nat in
  module_runs out = [] ∧ sleeps out = []
  ∧ match ending with
    | Returns (result, _) => Stats.Changed (RunResult.Stats result) = 0
    | Panics _ => True
    end.
Proof.
  exact (Run_dry_run (lib := example_lib) (host := example_host)
           (Executor.mk true false)
           (Playbook.mk "site.yml"
              [handlers_play [notifying_task "configure"]
                 [handler_A "touch"; handler_B "touch"]])
           0%nat eq_refl).
Defined.

(** ** Statistics *)

Lemma int_add_1 (x : Z) : 0 ≤ x < max_int → int_add x 1 = x + 1.
Proof.
  intros Hx. unfold int_add. apply wrap64_small. unfold max_int in Hx. lia.
Qed.

Lemma balanced_le (n m : Z) (s : Stats.t) : balanced n s → n ≤ m → balanced m s.
Proof. unfold balanced. intros (? & ? & ? & ? & ? & ?) ?. split_and!; lia. Qed.

(** One more task, counted as one of the four. *)
Lemma balanced_incr (n : Z) (s : Stats.t) :
  balanced n s → n < max_int →
  balanced (n + 1) (Stats.incr_OK (Stats.incr_Tasks s))
  ∧ balanced (n + 1) (Stats.incr_Changed (Stats.incr_Tasks s))
  ∧ balanced (n + 1) (Stats.incr_Failed (Stats.incr_Tasks s))
  ∧ balanced (n + 1) (Stats.incr_Skipped (Stats.incr_Tasks s)).
Proof.
  unfold balanced, counted. intros (? & ? & ? & ? & ? & ?) ?.
  destruct s as [plays tasks ok changed failed skipped]. cbn in *.
  rewrite !int_add_1 by lia. split_and!; lia.
Qed.

Section StatsFacts.
Context {lib : GoLib} {World : Type} {host : Host World}.

Implicit Types (st : state World) (task : Task.t).

Lemma loop_items_Play e loopVar i items anyChanged task st :
  PlayContext.Play (pctx (loop_items e loopVar i items anyChanged task st).2)
  = PlayContext.Play (pctx st).
Proof.
  revert i anyChanged task st.
  induction items as [|item rest IH]; intros i anyChanged task st; [done|].
  cbn [loop_items].
  match goal with
  | |- context [runSingleTask e task ?s] =>
      destruct (runSingleTask_pctx e task s) as (Hp & _);
      destruct (runSingleTask e task s) as [[[result|result err] task1] st1]
  end; cbn [snd] in Hp |- *; [|exact Hp].
  rewrite IH. exact Hp.
Qed.

(** What [runTask] returns without error has one of the three statuses
    that [runPlay] counts, and the play of the context stays the same. *)
Lemma runTask_status e task st :
  PlayContext.Play (pctx (runTask e task st).2) = PlayContext.Play (pctx st)
  ∧ ∀ result, (runTask e task st).1.1 = Returns (Done result) →
              TaskResult.Status result ∈ ["ok"; "changed"; "skipped"].
Proof.
  assert (PlayContext.Play
            (pctx (if bool_decide (0 < length (Task.Loop task))%nat
                   then runTaskLoop e task st
                   else runSingleTask e task st).2)
          = PlayContext.Play (pctx st)
          ∧ ∀ result,
              (if bool_decide (0 < length (Task.Loop task))%nat
               then runTaskLoop e task st
               else runSingleTask e task st).1.1 = Done result →
              TaskResult.Status result ∈ ["ok"; "changed"; "skipped"])
    as Hrun.
  { destruct (bool_decide _).
    - unfold runTaskLoop.
      match goal with
      | |- context [loop_items e ?v ?i ?l ?a task st] =>
          pose proof (loop_items_Play e v i l a task st) as Hp;
          destruct (loop_items e v i l a task st)
            as [[[[result err]|anyChanged] task1] st1]
      end; cbn [fst snd] in Hp |- *.
      + split; [exact Hp|]. by intros ? [=].
      + split; [exact Hp|]. intros ? [= <-]. cbn.
        destruct anyChanged; set_solver.
    - split; [apply runSingleTask_pctx|].
      destruct (runSingleTask e task st) as [[out task1] st1] eqn:Hsingle.
      cbn [fst]. intros result ->.
      apply runSingleTask_done in Hsingle
        as [(_ & -> & _)|(_ & res & -> & _)];
        cbn; [set_solver|]. destruct (Result.Changed res); set_solver. }
  destruct (runTask_cases e task st)
    as [(result & task' & st' & Heq & ->)|[[msg ->]|[[err ->]| ->]]].
  - rewrite Heq in Hrun. destruct Hrun as [Hp Hst]. split; [exact Hp|].
    intros r [= ->]. by apply Hst.
  - split; [done|]. by intros ? [=].
  - split; [done|]. by intros ? [=].
  - split; [done|]. intros ? [= <-]. cbn. rewrite !elem_of_cons. auto.
Qed.

Lemma tasks_loop_balanced e tasks stats st (n : Z) :
  balanced n stats →
  n + Z.of_nat (length tasks) ≤ max_int →
  (∀ r, (tasks_loop e tasks stats st).1.1 = Returns r →
        balanced (n + Z.of_nat (length tasks))
          (tasks_loop e tasks stats st).1.2)
  ∧ PlayContext.Play (pctx (tasks_loop e tasks stats st).2)
    = PlayContext.Play (pctx st).
Proof.
  revert n stats st.
  induction tasks as [|task rest IH]; intros n stats st Hb Hn.
  - split; [|done]. intros _ _. eapply balanced_le; [exact Hb|]. cbn. lia.
  - cbn [length] in Hn |- *. cbn [tasks_loop].
    destruct (balanced_incr n stats Hb ltac:(lia)) as (Hok & Hch & Hfa & Hsk).
    destruct (runTask_status e task st) as [Hp Hst].
    destruct (runTask e task st) as [[[[result|result err]|msg] task1] st1];
      cbn [fst snd] in Hp, Hst; [| |by split].
    + assert (balanced (n + 1)
                (Stats.count (TaskResult.Status result) (Stats.incr_Tasks stats)))
        as Hb1.
      { specialize (Hst result eq_refl). unfold Stats.count.
        rewrite !elem_of_cons in Hst.
        destruct Hst as [->|[->|[->|Hst]]]; [done..|].
        by apply elem_of_nil in Hst. }
      destruct (IH (n + 1) _ st1 Hb1 ltac:(lia)) as [Hb2 ->].
      split; [|exact Hp]. intros r Hr.
      eapply balanced_le; [exact (Hb2 r Hr)|lia].
    + destruct (negb _).
      { split; [|exact Hp]. intros _ _.
        eapply balanced_le; [exact Hfa|]. cbn. lia. }
      match goal with
      | |- context [tasks_loop e rest ?s ?s1] =>
          destruct (IH (n + 1) s s1 Hfa ltac:(lia)) as [Hb2 ->]
      end.
      split; [|exact Hp]. intros r Hr.
      eapply balanced_le; [exact (Hb2 r Hr)|lia].
Qed.

Lemma handlers_loop_balanced e handlers stats st (n : Z) :
  Executor.DryRun e = false →
  balanced n stats →
  n + Z.of_nat (length handlers) ≤ max_int →
  balanced (n + Z.of_nat (length handlers))
    (handlers_loop e handlers stats st).1.2.
Proof.
  intros Hdry. revert n stats st.
  induction handlers as [|handler rest IH]; intros n stats st Hb Hn.
  - eapply balanced_le; [exact Hb|]. cbn. lia.
  - cbn [length] in Hn |- *. cbn [handlers_loop].
    destruct (negb _).
    { eapply balanced_le; [apply (IH n); [exact Hb|lia]|lia]. }
    destruct (balanced_incr n stats Hb ltac:(lia)) as (Hok & Hch & Hfa & _).
    destruct (runSingleTask e handler st) as [[[result|result err] task1] st1]
      eqn:Hrun.
    + apply runSingleTask_done in Hrun as [(? & _)|(_ & res & -> & _)];
        [congruence|].
      assert (balanced (n + 1)
                (Stats.count_handler
                   (if Result.Changed res then "changed" else "ok")
                   (Stats.incr_Tasks stats))) as Hb1
        by (by destruct (Result.Changed res)).
      eapply balanced_le; [apply (IH (n + 1)); [exact Hb1|lia]|].
      cbn [TaskResult.Status]. lia.
    + cbn [fst snd]. eapply balanced_le; [exact Hfa|lia].
Qed.

Lemma runPlay_balanced e play stats (w : World) out (n : Z) r :
  balanced n stats →
  n + play_size play ≤ max_int →
  (runPlay e play stats w out).1.1.1 = Returns r →
  balanced (n + play_size play) (runPlay e play stats w out).1.1.2.
Proof.
  intros Hb Hn. unfold play_size in *.
  assert (balanced (n + (Z.of_nat (length (Play.Tasks play))
                         + Z.of_nat (length (Play.Handlers play)))) stats)
    as Hb0 by (eapply balanced_le; [exact Hb|lia]).
  unfold runPlay.
  destruct (getConnector play) as [err|conn]; [by intros _|].
  cbn [with_pctx world trace pctx].
  destruct (conn_Connect conn w) as [[err|] w1]; [by intros _|].
  set (st0 := with_world w1 _).
  set (gathered := if Play.ShouldGatherFacts play then _ else _).
  assert (match gathered with
          | inl _ => True
          | inr st =>
              PlayContext.NotifiedHandlers (pctx st) = ∅
              ∧ PlayContext.Play (pctx st) = play
          end) as Hg.
  { subst gathered. destruct (Play.ShouldGatherFacts play); [|done].
    by destruct (facts_Gather conn (world _)) as [[err|f] w2]. }
  destruct gathered as [[err st1]|st1]; [by intros _|].
  destruct Hg as [Hn1 Hp1].
  destruct (tasks_loop_balanced e (Play.Tasks play) stats st1 n Hb ltac:(lia))
    as [Hb1 Hp2].
  pose proof (λ Hdry, tasks_loop_dry_run e Hdry (Play.Tasks play) stats st1)
    as Hdry.
  destruct (tasks_loop e (Play.Tasks play) stats st1)
    as [[[[err|]|msg] stats1] st2]; cbn [fst snd] in Hb1, Hp2, Hdry |- *;
    [|specialize (Hb1 _ eq_refl)|done].
  { intros _. eapply balanced_le; [exact (Hb1 _ eq_refl)|lia]. }
  intros _. unfold runHandlers. rewrite Hp2, Hp1.
  destruct (bool_decide _) eqn:Hsize.
  { cbn [fst snd]. eapply balanced_le; [exact Hb1|lia]. }
  destruct (Executor.DryRun e) eqn:He.
  - destruct (Hdry eq_refl) as [(_ & Hn2 & _) _].
    rewrite Hn2, Hn1 in Hsize. by rewrite bool_decide_true in Hsize.
  - match goal with
    | |- context [handlers_loop e ?h stats1 ?s] =>
        pose proof (handlers_loop_balanced e h stats1 s _ He Hb1 ltac:(lia))
          as Hb2;
        destruct (handlers_loop e h stats1 s) as [[err stats2] st3]
    end.
    cbn [fst snd] in Hb2 |- *. eapply balanced_le; [exact Hb2|lia].
Qed.

Lemma plays_loop_balanced e plays stats (w : World) out (n : Z) r :
  balanced n stats →
  n + playbook_size plays ≤ max_int →
  (plays_loop e plays stats w out).1.1.1 = Returns r →
  balanced (n + playbook_size plays) (plays_loop e plays stats w out).1.1.2.
Proof.
  assert (∀ l, 0 ≤ playbook_size l) as Hpos.
  { induction l as [|p l IH]; [done|].
    change (playbook_size (p :: l)) with (play_size p + playbook_size l).
    unfold play_size. lia. }
  revert n stats w out.
  induction plays as [|play rest IH]; intros n stats w out Hb Hn.
  - intros _. eapply balanced_le; [exact Hb|]. cbn. lia.
  - change (playbook_size (play :: rest))
      with (play_size play + playbook_size rest) in *.
    specialize (Hpos rest). cbn [plays_loop].
    pose proof (λ r', runPlay_balanced e play stats w out n r' Hb ltac:(lia))
      as Hb1.
    destruct (runPlay e play stats w out)
      as [[[[[err|]|msg] stats1] w1] out1];
      cbn [fst snd] in Hb1 |- *; [| |done].
    + intros _. eapply balanced_le; [exact (Hb1 _ eq_refl)|lia].
    + intros Hr.
      eapply balanced_le;
        [apply (IH (n + play_size play)); [exact (Hb1 _ eq_refl)|lia|exact Hr]|].
      lia.
Qed.

End StatsFacts.

(** X9.  The statistics of a run that returns add up: every task and
    handler counted in [Tasks] is counted in exactly one of [OK],
    [Changed], [Failed] and [Skipped], and no more are counted than the
    playbook has, as long as that number fits an [int]. *)
Theorem Run_stats_add_up {lib : GoLib} {World : Type} {host : Host World}
    (e : Executor.t) (pb : Playbook.t) (w : World) :
  playbook_size (Playbook.Plays pb) ≤ max_int →
  match (Run e pb w).1.1 with
  | Returns (result, _) =>
      let stats := RunResult.Stats result in
      Stats.Tasks stats
      = Stats.OK stats + Stats.Changed stats + Stats.Failed stats
        + Stats.Skipped stats
      ∧ 0 ≤ Stats.Tasks stats ≤ playbook_size (Playbook.Plays pb)
  | Panics _ => True
  end.
Proof.
  intros Hsize. unfold Run.
  match goal with
  | |- context [plays_loop e ?ps ?s w ?o] =>
      pose proof (λ r, plays_loop_balanced e ps s w o 0 r) as Hb;
      destruct (plays_loop e ps s w o) as [[[[success|msg] stats] w'] out]
  end; [|done].
  cbn [fst snd RunResult.Stats] in Hb |- *.
  destruct (Hb success) as (? & ? & ? & ? & Hsum & ?);
    [unfold balanced, counted; cbn; lia|lia|done|].
  unfold counted in Hsum. lia.
Qed.

Lemma Run_stats_add_up_witness :
  let pb := Playbook.mk "site.yml"
              [handlers_play
                 [notifying_task "configure"; example_task "fail";
                  example_task "ok"]
                 [handler_A "touch"; handler_B "ok"]] in
  match
    (Run (lib := example_lib) (host := example_host) run_for_real pb
       0%nat).1.1
  with
  | Returns (result, _) =>
      let stats := RunResult.Stats result in
      Stats.Tasks stats
      = Stats.OK stats + Stats.Changed stats + Stats.Failed stats
        + Stats.Skipped stats
      ∧ 0 ≤ Stats.Tasks stats ≤ 5
  | Panics _ => True
  end.
Proof.
  intros pb.
  apply (Run_stats_add_up (lib := example_lib) (host := example_host)
           run_for_real pb 0%nat).
  vm_compute. discriminate.
Defined.

(** ** Retries below zero *)

(** X10.  A task whose [retries] is negative, which [Validate] refuses but
    [runSingleTask] does not check, is attempted once: the module runs one
    time and nothing waits, whether it fails or not. *)
Theorem runSingleTask_negative_retries {lib : GoLib} {World : Type}
    {host : Host World} (e : Executor.t) (task : Task.t) (st : state World)
    run (params : gmap string value) :
  Executor.DryRun e = false →
  module_Get (Task.Module task) = Some run →
  interpolateParams (Task.Params (ExpandShorthand task)) (pctx st)
  = inr params →
  min_int ≤ Task.Retries task < 0 →
  ∃ evs,
    trace (runSingleTask e task st).2 = trace st ++ evs
    ∧ module_runs evs = [(Task.Module task, params)]
    ∧ sleeps evs = []
    ∧ world (runSingleTask e task st).2
      = (run (PlayContext.Connector (pctx st)) params (world st)).2.
Proof.
  intros Hdry Hmod Hparams Hretries. unfold runSingleTask.
  destruct (ExpandShorthand_fields task) as (-> & _ & HM & _).
  rewrite HM, Hmod. cbn [emit pctx]. rewrite Hparams, Hdry.
  assert (int_add (Task.Retries task) 1 = Task.Retries task + 1) as ->.
  { apply wrap64_small. unfold min_int in Hretries. lia. }
  assert ((Task.Retries task + 1 <? 1) = true) as -> by (apply Z.ltb_lt; lia).
  change (Z.to_nat 1 - 1)%nat with 0%nat. cbn [attempts].
  change (1 <? 1) with false. cbn [emit pctx world].
  destruct (run _ _ _) as [[err|res] w']; cbn;
    (eexists; split; [rewrite <-!app_assoc; reflexivity|]);
    rewrite HM; done.
Qed.

Lemma runSingleTask_negative_retries_witness :
  ∃ evs,
    trace (runSingleTask (lib := example_lib) (host := example_host)
             run_for_real (flaky_task (-3) 5)
             (State (example_pctx ∅) 0%nat [])).2
    = [] ++ evs
    ∧ module_runs evs = [("flaky", ∅)]
    ∧ sleeps evs = [].
Proof.
  destruct (runSingleTask_negative_retries (lib := example_lib)
              (host := example_host) run_for_real (flaky_task (-3) 5)
              (State (example_pctx ∅) 0%nat [])
              (λ _ _ n,
                 (if (n <? 2)%nat
                  then inl ("attempt " +:+ string_of_Z (Z.of_nat n))
                  else inr (Result.mk false "up" ∅), S n))
              ∅) as (evs & Htr & Hruns & Hsleeps & _).
  - reflexivity.
  - reflexivity.
  - vm_compute. reflexivity.
  - unfold min_int. simpl. lia.
  - exists evs. done.
Defined.

(** ** Validation of a play *)

Lemma validate_tasks_None (i : Z) (tasks : list Task.t) :
  validate_tasks i tasks = None
  ↔ Forall (λ task, Task.Validate task = None) tasks.
Proof.
  revert i. induction tasks as [|task rest IH]; intros i; cbn [validate_tasks].
  - split; [constructor|done].
  - destruct (Task.Validate task) as [err|] eqn:Hv.
    + split; [done|]. intros Hall. apply Forall_cons in Hall as [? _].
      congruence.
    + rewrite IH. split; [by constructor|]. by intros [_ ?]%Forall_cons.
Qed.

Lemma validate_handlers_None (i : Z) (handlers : list Task.t) :
  validate_handlers i handlers = None
  ↔ Forall (λ handler, Task.Validate handler = None ∧ Task.Name handler ≠ "")
      handlers.
Proof.
  revert i.
  induction handlers as [|handler rest IH]; intros i; cbn [validate_handlers].
  - split; [constructor|done].
  - destruct (Task.Validate handler) as [err|] eqn:Hv.
    + split; [done|]. intros Hall. apply Forall_cons in Hall as [[? _] _].
      congruence.
    + destruct (String.eqb_spec (Task.Name handler) "") as [Hname|Hname].
      * split; [done|]. intros Hall. by apply Forall_cons in Hall as [[_ ?] _].
      * rewrite IH. split; [by constructor|]. by intros [_ ?]%Forall_cons.
Qed.

Lemma Play_Validate_None (p : Play.t) :
  Play_Validate p = None
  ↔ Play.Hosts p ≠ ""
    ∧ Play.GetConnection p ∈ connection_types
    ∧ validate_tasks 0 (Play.Tasks p) = None
    ∧ validate_handlers 0 (Play.Handlers p) = None.
Proof.
  unfold Play_Validate.
  destruct (String.eqb_spec (Play.Hosts p) "") as [Hhosts|Hhosts].
  { split; [done|]. by intros [? _]. }
  destruct (decide (Play.GetConnection p ∈ connection_types)) as [Hc|Hc].
  2: { rewrite bool_decide_false by done. split; [done|]. by intros (_ & ? & _). }
  rewrite bool_decide_true by done. cbn [negb].
  destruct (validate_tasks 0 (Play.Tasks p)) as [err|].
  { split; [done|]. by intros (_ & _ & ? & _). }
  split; [by intros ->|]. by intros (_ & _ & _ & ?).
Qed.

(** X11.  [Play.Validate] accepts a play exactly when it has hosts, its
    connection (local when none is given) is one of the four known types,
    every task and handler passes [Task.Validate], and every handler has a
    name. *)
Theorem Play_Validate_accepts (p : Play.t) :
  Play_Validate p = None
  ↔ Play.Hosts p ≠ ""
    ∧ Play.GetConnection p ∈ ["local"; "docker"; "ssh"; "ssm"]
    ∧ Forall (λ task, Task.Validate task = None) (Play.Tasks p)
    ∧ Forall (λ handler,
                Task.Validate handler = None ∧ Task.Name handler ≠ "")
        (Play.Handlers p).
Proof.
  rewrite Play_Validate_None, validate_tasks_None, validate_handlers_None.
  done.
Qed.

(** X12.  The first task that [Task.Validate] refuses is the one
    [Play.Validate] reports, under its name or, when it has none, under its
    position in the play, counted from one. *)
Theorem Play_Validate_first_invalid_task (p : Play.t)
    (before after : list Task.t) (task : Task.t) (err : error) :
  Play.Hosts p ≠ "" →
  Play.GetConnection p ∈ ["local"; "docker"; "ssh"; "ssm"] →
  Play.Tasks p = before ++ task :: after →
  Forall (λ task, Task.Validate task = None) before →
  Task.Validate task = Some err →
  Play_Validate p
  = Some ((if String.eqb (Task.Name task) ""
           then "task " +:+ string_of_Z (Z.of_nat (length before) + 1)
           else Task.Name task) +:+ ": " +:+ err).
Proof.
  intros Hhosts Hconn Htasks Hbefore Herr. unfold Play_Validate.
  apply String.eqb_neq in Hhosts. rewrite Hhosts.
  fold connection_types in Hconn. rewrite bool_decide_true by done.
  cbn [negb]. rewrite Htasks.
  assert (∀ i, validate_tasks i (before ++ task :: after)
               = Some ((if String.eqb (Task.Name task) ""
                        then "task "
                             +:+ string_of_Z (i + Z.of_nat (length before) + 1)
                        else Task.Name task) +:+ ": " +:+ err)) as ->; [|done].
  clear Htasks. induction Hbefore as [|t before Ht _ IH]; intros i.
  - cbn [app validate_tasks length]. rewrite Herr. by rewrite Z.add_0_r.
  - cbn [app validate_tasks length]. rewrite Ht, IH.
    by replace (i + 1 + Z.of_nat (length before) + 1)
      with (i + Z.of_nat (S (length before)) + 1) by lia.
Qed.

Lemma Play_Validate_first_invalid_task_witness :
  Play_Validate
    (handlers_play
       [example_task "ok"; flaky_task (-1) 0; Task.empty;
        Task.set_Module "" ∅ Task.empty] [])
  = Some "wait for service: retries cannot be negative"
  ∧ Play_Validate (handlers_play [example_task "ok"; Task.empty] [])
    = Some "task 2: task has no module specified".
Proof.
  split.
  - apply (Play_Validate_first_invalid_task
             (handlers_play
                [example_task "ok"; flaky_task (-1) 0; Task.empty;
                 Task.set_Module "" ∅ Task.empty] [])
             [example_task "ok"] [Task.empty; Task.set_Module "" ∅ Task.empty]
             (flaky_task (-1) 0) "retries cannot be negative").
    + discriminate.
    + vm_compute. apply list_elem_of_here.
    + reflexivity.
    + repeat constructor.
    + reflexivity.
  - apply (Play_Validate_first_invalid_task
             (handlers_play [example_task "ok"; Task.empty] [])
             [example_task "ok"] [] Task.empty
             "task has no module specified").
    + discriminate.
    + vm_compute. apply list_elem_of_here.
    + reflexivity.
    + repeat constructor.
    + reflexivity.
Defined.

(** X13.  A play that [Play.Validate] accepts has a connection type that
    [getConnector] knows; but of the four types only [local] and [docker]
    have a connector, and a play over [ssh] or [ssm] fails in [runPlay]
    before anything is connected to or run. *)
Theorem validated_play_connector {lib : GoLib} {World : Type}
    {host : Host World} (p : Play.t) :
  Play_Validate p = None →
  (Play.GetConnection p ∈ ["local"; "docker"]
   ∧ ∃ conn, getConnector p = inr conn)
  ∨ (Play.GetConnection p ∈ ["ssh"; "ssm"]
     ∧ ∀ (e : Executor.t) (stats : Stats.t) (w : World) (out : list event),
         ∃ err,
           err ∈ ["SSH connector not yet implemented";
                  "SSM connector not yet implemented"]
           ∧ runPlay e p stats w out
             = (Returns (Some ("failed to create connector: " +:+ err)),
                stats, w, out ++ [OutPlayStart p])).
Proof.
  intros (_ & Hconn & _)%Play_Validate_None. unfold connection_types in Hconn.
  rewrite !elem_of_cons in Hconn.
  destruct Hconn as [Hc|[Hc|[Hc|[Hc|Hc]]]]; [| | | |by apply elem_of_nil in Hc].
  - left. split; [rewrite Hc; apply list_elem_of_here|].
    unfold getConnector. rewrite Hc. by eexists.
  - left. split; [rewrite Hc; apply list_elem_of_further, list_elem_of_here|].
    unfold getConnector. rewrite Hc. by eexists.
  - right. split; [rewrite Hc; apply list_elem_of_here|].
    intros e stats w out. exists "SSH connector not yet implemented".
    split; [apply list_elem_of_here|].
    unfold runPlay, getConnector. by rewrite Hc.
  - right. split; [rewrite Hc; apply list_elem_of_further, list_elem_of_here|].
    intros e stats w out. exists "SSM connector not yet implemented".
    split; [apply list_elem_of_further, list_elem_of_here|].
    unfold runPlay, getConnector. by rewrite Hc.
Qed.

Lemma validated_play_connector_witness :
  let p := Play.mk "web" "web1" "ssh" ∅ [] [example_task "ok"] [] false ""
             None in
  ∃ err,
    runPlay (lib := example_lib) (host := example_host) run_for_real p
      (Stats.mk 1 0 0 0 0 0) 0%nat []
    = (Returns (Some ("failed to create connector: " +:+ err)),
       Stats.mk 1 0 0 0 0 0, 0%nat, [] ++ [OutPlayStart p]).
Proof.
  intros p.
  destruct (validated_play_connector (lib := example_lib)
              (host := example_host) p) as [[Hc _]|[_ Hrun]].
  - reflexivity.
  - exfalso. rewrite !elem_of_cons in Hc.
    destruct Hc as [Hc|[Hc|Hc]];
      [vm_compute in Hc; discriminate..|by apply elem_of_nil in Hc].
  - destruct (Hrun run_for_real (Stats.mk 1 0 0 0 0 0) 0%nat [])
      as (err & _ & Heq).
    by exists err.
Defined.

(** ** Roles *)

Lemma foldl_app_concat {A B} (f : A → list B) (init : list B) (l : list A) :
  foldl (λ acc x, acc ++ f x) init l = init ++ concat (f <$> l).
Proof.
  revert init. induction l as [|x l IH]; intros init; cbn.
  - by rewrite app_nil_r.
  - by rewrite IH, app_assoc.
Qed.

(** X14.  [ExpandRoleTasks] and [ExpandRoleHandlers] put the tasks (the
    handlers) of the roles first, role after role in the order of the roles,
    and those of the play last. *)
Theorem ExpandRole_order (roles : list Role.t) (playTasks : list Task.t) :
  ExpandRoleTasks roles playTasks
  = concat (Role.Tasks <$> roles) ++ playTasks
  ∧ ExpandRoleHandlers roles playTasks
    = concat (Role.Handlers <$> roles) ++ playTasks.
Proof.
  unfold ExpandRoleTasks, ExpandRoleHandlers.
  by rewrite !foldl_app_concat.
Qed.

(** ** Checking the modules before a run *)

(** X15.  A task that [ResolveModule] accepts after [ExpandShorthand], as
    the [validate] command checks it, has a module that is registered, and
    [runSingleTask] does not return the error of an unknown module for it. *)
Theorem ResolveModule_accepts_known {lib : GoLib} {World : Type}
    {host : Host World} (available : list string) (task : Task.t)
    (e : Executor.t) (st : state World) :
  ResolveModule available (ExpandShorthand task) = None →
  Task.Module task ≠ ""
  ∧ is_Some (module_Get (Task.Module task))
  ∧ (runSingleTask e task st).1.1
    ≠ Failed None ("unknown module: " +:+ Task.Module task).
Proof.
  unfold ResolveModule.
  destruct (ExpandShorthand_fields task) as (_ & _ & HM & _). rewrite HM.
  destruct (String.eqb_spec (Task.Module task) "") as [|Hne]; [done|].
  destruct (module_Get (Task.Module task)) as [run|] eqn:Hget; [|done].
  intros _. split_and!; [done|by eexists|].
  unfold runSingleTask. rewrite HM, Hget.
  destruct (interpolateParams _ _) as [err|params]; [cbn; by intros [=]|].
  destruct (Executor.DryRun e); [done|].
  match goal with
  | |- context [attempts ?m ?a ?x ?r ?n ?t ?p ?s] =>
      destruct (attempts m a x r n t p s) as [[lastErr|res] st1]
  end; done.
Qed.

Lemma ResolveModule_accepts_known_witness :
  (runSingleTask (lib := example_lib) (host := example_host) run_for_real
     (example_task "touch") (State (example_pctx ∅) 0%nat [])).1.1
  ≠ Failed None "unknown module: touch".
Proof.
  apply (ResolveModule_accepts_known (lib := example_lib)
           (host := example_host) ["ok"; "touch"; "fail"; "flaky"]
           (example_task "touch") run_for_real
           (State (example_pctx ∅) 0%nat [])).
  reflexivity.
Defined.

(** ** Filters *)

Ltac filter_case name :=
  match goal with
  | |- context [String.eqb ?filterName name] =>
      destruct (String.eqb_spec filterName name) as [->|?]; cbn [orb];
      [cbv iota; split;
       [intros _; repeat case_match; by eexists
       |intros Hnot; exfalso; apply Hnot; unfold filter_names;
        rewrite !elem_of_cons; tauto]|]
  end.

(** X16.  [applyFilter] fails for the filter names it has no case for, and
    for no other reason: whatever the variable holds, each of the twelve
    filters returns a value. *)
Theorem applyFilter_unknown_only {lib : GoLib} (varName filter : string)
    (pctx : PlayContext.t) :
  let filterName := (filter_parts filter).1 in
  (filterName ∈ filter_names →
   ∃ v, applyFilter varName filter pctx = inr v)
  ∧ (filterName ∉ filter_names →
     applyFilter varName filter pctx
     = inl ("unknown filter: " +:+ filterName)).
Proof.
  unfold applyFilter, is_filter.
  destruct (filter_parts filter) as [filterName filterArg]. cbn [fst].
  filter_case "default". filter_case "lower". filter_case "upper".
  filter_case "trim". filter_case "bool". filter_case "string".
  filter_case "int". filter_case "first". filter_case "last".
  filter_case "length". filter_case "count". filter_case "join".
  split; [|done]. intros Hin. exfalso. unfold filter_names in Hin.
  repeat (apply elem_of_cons in Hin as [Hin|Hin]; [done|]).
  by apply elem_of_nil in Hin.
Qed.

Lemma applyFilter_unknown_only_witness :
  (∃ v, applyFilter (lib := example_lib) "port" "default('80')"
          (example_pctx ∅) = inr v)
  ∧ applyFilter (lib := example_lib) "port" "reverse" (example_pctx ∅)
    = inl "unknown filter: reverse".
Proof.
  split.
  - apply (applyFilter_unknown_only (lib := example_lib) "port"
             "default('80')" (example_pctx ∅)).
    vm_compute. apply list_elem_of_here.
  - apply (applyFilter_unknown_only (lib := example_lib) "port" "reverse"
             (example_pctx ∅)).
    vm_compute. intros Hin.
    repeat (apply elem_of_cons in Hin as [Hin|Hin]; [discriminate|]).
    by apply elem_of_nil in Hin.
Defined.

(** ** The environment *)

Lemma Contains_cons (c : ascii) (s sub : string) :
  GoStr.Contains (String c s) sub = false →
  GoStr.prefix sub (String c s) = false ∧ GoStr.Contains s sub = false.
Proof. cbn [GoStr.Contains]. by intros [? ?]%orb_false_iff. Qed.

(** The first [=] of [key=value] is the one after a key that has none. *)
Lemma Index_key (key rest : string) :
  GoStr.Contains key "=" = false →
  GoStr.Index (key +:+ "=" +:+ rest) "=" = Z.of_nat (String.length key).
Proof.
  induction key as [|c key IH]; intros Hkey; [done|].
  apply Contains_cons in Hkey as [Hc Hkey]. specialize (IH Hkey).
  rewrite app_String. cbn [GoStr.Index String.length].
  cbn [GoStr.prefix] in Hc |- *. rewrite andb_true_r in Hc |- *.
  rewrite Hc, IH.
  destruct (Z.ltb_spec (Z.of_nat (String.length key)) 0); lia.
Qed.

(** X17.  [getEnvMap] takes each entry [key=value] of the environment apart
    at its first [=]: for keys that are not empty and hold no [=] it gives
    the map from the keys to the values, where of two entries for one key
    the later one counts; a value may hold any bytes. *)
Theorem getEnvMap_entries (entries : list (string * string)) :
  Forall (λ kv, kv.1 ≠ "" ∧ GoStr.Contains kv.1 "=" = false) entries →
  getEnvMap ((λ kv, kv.1 +:+ "=" +:+ kv.2) <$> entries)
  = list_to_map (reverse entries).
Proof.
  induction entries as [|[key val] entries IH] using rev_ind; [done|].
  intros [Hall [Hkey Hval]%Forall_singleton]%Forall_app. cbn [fst snd] in *.
  unfold getEnvMap in *. rewrite fmap_app, foldl_app, IH by done.
  rewrite reverse_app. cbn [fmap list_fmap foldl reverse app fst snd].
  rewrite Index_key by done.
  assert ((0 <? Z.of_nat (String.length key)) = true) as ->.
  { apply Z.ltb_lt. destruct key; [done|]. cbn [String.length]. lia. }
  rewrite Nat2Z.id, take_app_length.
  replace (String.length key + 1)%nat with (String.length (key +:+ "="))
    by (rewrite length_str_app; done).
  rewrite <-str_app_assoc, drop_app_length. done.
Qed.

Lemma getEnvMap_entries_witness :
  getEnvMap ["HOME=/root"; "OPTS=a=b"; "HOME=/home/me"]
  = list_to_map [("HOME", "/home/me"); ("OPTS", "a=b"); ("HOME", "/root")].
Proof.
  apply (getEnvMap_entries
           [("HOME", "/root"); ("OPTS", "a=b"); ("HOME", "/home/me")]).
  repeat constructor; discriminate.
Defined.

Lemma split_go_no_sep (sep : ascii) (cur s : string) :
  GoStr.Contains s (String sep "") = false →
  GoStr.split_go sep cur s = [String.rev_app cur s].
Proof.
  revert cur. induction s as [|c s IH]; intros cur Hs.
  - done.
  - apply Contains_cons in Hs as [Hc Hs]. cbn [GoStr.prefix] in Hc.
    rewrite andb_true_r in Hc. cbn [GoStr.split_go].
    rewrite Ascii.eqb_sym, Hc. by rewrite IH.
Qed.

(** X18.  A variable of the environment in a template and in a condition.
    [runPlay] puts the environment into [Vars] as a [map[string]string]
    under [env]; [lookupVariable], which templates use, steps into such a
    map, and [env.KEY] is the value of [KEY], or the empty string; but
    [resolveValue], which conditions use, steps only into a
    [map[string]any], and there [env.KEY] is nil, whatever the environment
    holds. *)
Theorem env_in_template_and_condition (key : string)
    (env : gmap string string) (pctx : PlayContext.t) :
  GoStr.Contains key "." = false →
  GoStr.TrimSpace ("env." +:+ key) = "env." +:+ key →
  PlayContext.Vars pctx !! "env" = Some (VStrMap env) →
  PlayContext.Vars pctx !! ("env." +:+ key) = None →
  PlayContext.Registered pctx !! ("env." +:+ key) = None →
  lookupVariable ("env." +:+ key) pctx = VString (default "" (env !! key))
  ∧ resolveValue ("env." +:+ key) pctx = Returns VNil.
Proof.
  intros Hkey Htrim Henv Hvar Hreg.
  assert (GoStr.Split ("env." +:+ key) "." = ["env"; key]) as Hsplit.
  { unfold GoStr.Split. rewrite !app_String, app_empty_l.
    cbn [GoStr.split_go].
    change (Ascii.eqb "e" ".") with false. change (Ascii.eqb "n" ".") with false.
    change (Ascii.eqb "v" ".") with false. change (Ascii.eqb "." ".") with true.
    cbv iota. by rewrite split_go_no_sep. }
  assert (GoStr.Contains ("env." +:+ key) "." = true) as Hdot.
  { rewrite !app_String, app_empty_l. cbn [GoStr.Contains GoStr.prefix].
    change (Ascii.eqb "." "e") with false. change (Ascii.eqb "." "n") with false.
    change (Ascii.eqb "." "v") with false. change (Ascii.eqb "." ".") with true.
    done. }
  split.
  - unfold lookupVariable. rewrite Hreg, Hvar, Hdot, Hsplit.
    cbn [walk_path]. by rewrite Henv.
  - unfold resolveValue. rewrite Htrim.
    assert (quoted_by "'" ("env." +:+ key) = false) as ->.
    { unfold quoted_by, GoStr.HasPrefix. by rewrite !app_String. }
    assert (quoted_by (GoStr.of_bytes [34%nat]) ("env." +:+ key) = false) as ->.
    { unfold quoted_by, GoStr.HasPrefix. by rewrite !app_String. }
    rewrite !app_String, app_empty_l. cbn [orb].
    change (String.eqb (String "e" ?s) "true") with false.
    change (String.eqb (String "e" ?s) "True") with false.
    change (String.eqb (String "e" ?s) "false") with false.
    change (String.eqb (String "e" ?s) "False") with false.
    cbn [orb]. rewrite <-(app_empty_l key), <-!app_String.
    rewrite Hvar, Hdot, Hsplit. by rewrite Henv.
Qed.

Lemma env_in_template_and_condition_witness :
  let pctx :=
    example_pctx {[ "env" := VStrMap {[ "HOME" := "/root" ]} ]} in
  lookupVariable "env.HOME" pctx = VString "/root"
  ∧ resolveValue "env.HOME" pctx = Returns VNil.
Proof.
  intros pctx.
  destruct (env_in_template_and_condition "HOME" {[ "HOME" := "/root" ]} pctx)
    as [Htemplate Hcondition]; [reflexivity..|].
  split; [exact Htemplate|exact Hcondition].
Defined.

(** ** Parameters without templates *)

Lemma Contains_char_cons (c a : ascii) (s : string) :
  GoStr.Contains (String a s) (String c "")
  = Ascii.eqb c a || GoStr.Contains s (String c "").
Proof. cbn [GoStr.Contains GoStr.prefix]. by rewrite andb_true_r. Qed.

Lemma Contains_drop (n : nat) (s sub : string) :
  GoStr.Contains s sub = false → GoStr.Contains (GoStr.drop n s) sub = false.
Proof.
  revert s. induction n as [|n IH]; intros s Hs; [done|].
  destruct s as [|a s]; [done|]. cbn [GoStr.drop].
  apply IH. by apply Contains_cons in Hs as [_ ?].
Qed.

Lemma Contains_char_rev_app (c : ascii) (s acc : string) :
  GoStr.Contains (String.rev_app s acc) (String c "")
  = GoStr.Contains s (String c "") || GoStr.Contains acc (String c "").
Proof.
  revert acc. induction s as [|a s IH]; intros acc; [done|].
  cbn [String.rev_app]. rewrite IH, !Contains_char_cons.
  by destruct (Ascii.eqb c a), (GoStr.Contains s _).
Qed.

Lemma Contains_char_rev (c : ascii) (s : string) :
  GoStr.Contains (String.rev s) (String c "") = GoStr.Contains s (String c "").
Proof.
  unfold String.rev. rewrite Contains_char_rev_app. by rewrite orb_false_r.
Qed.

Lemma Contains_strip_all (fuel : nat) encs (s sub : string) :
  GoStr.Contains s sub = false →
  GoStr.Contains (GoStr.strip_all fuel encs s) sub = false.
Proof.
  revert s. induction fuel as [|fuel IH]; intros s Hs; [done|].
  cbn [GoStr.strip_all].
  destruct (GoStr.strip_one encs s) as [s'|] eqn:Hone; [|done].
  apply IH. clear IH. induction encs as [|enc encs IH]; [done|].
  cbn [GoStr.strip_one] in Hone. destruct (GoStr.prefix enc s).
  - injection Hone as <-. by apply Contains_drop.
  - by apply IH.
Qed.

(** Trimming brings no byte in. *)
Lemma Contains_char_TrimSpace (c : ascii) (s : string) :
  GoStr.Contains s (String c "") = false →
  GoStr.Contains (GoStr.TrimSpace s) (String c "") = false.
Proof.
  intros Hs. unfold GoStr.TrimSpace, GoStr.TrimRightSpace, GoStr.TrimLeftSpace.
  rewrite Contains_char_rev. apply Contains_strip_all.
  rewrite Contains_char_rev. by apply Contains_strip_all.
Qed.

Lemma replace_go_no_brace repl (s : string) :
  GoStr.Contains s "{" = false → replace_go repl 0 s = s.
Proof.
  induction s as [|a s IH]; intros Hs; [done|].
  rewrite Contains_char_cons in Hs. apply orb_false_iff in Hs as [Ha Hs].
  cbn [replace_go]. unfold match_varPattern. cbn [GoStr.prefix].
  rewrite Ha. cbn [andb]. by rewrite IH.
Qed.

(** A string without an opening brace is its own interpolation. *)
Lemma interpolateString_no_brace {lib : GoLib} (s : string)
    (pctx : PlayContext.t) :
  GoStr.Contains s "{" = false →
  interpolateString s pctx = inr (VString s).
Proof.
  intros Hs. unfold interpolateString, whole_reference.
  pose proof (Contains_char_TrimSpace "{" s Hs) as Htrim.
  assert (GoStr.HasPrefix (GoStr.TrimSpace s) "{{" = false) as ->.
  { unfold GoStr.HasPrefix. destruct (GoStr.TrimSpace s) as [|a t]; [done|].
    rewrite Contains_char_cons in Htrim.
    apply orb_false_iff in Htrim as [Ha _]. cbn [GoStr.prefix].
    by rewrite Ha. }
  cbn [andb]. unfold ReplaceAllStringFunc. by rewrite replace_go_no_brace.
Qed.

(** X19.  Parameters that hold no template, scalars and strings without an
    opening brace, go to the module as they are. *)
Theorem interpolateParams_plain {lib : GoLib} (params : gmap string value)
    (pctx : PlayContext.t) :
  map_Forall (λ _ v, plain v) params →
  interpolateParams params pctx = inr params.
Proof.
  unfold interpolateParams.
  apply (map_fold_weak_ind
           (λ r m, map_Forall (λ _ v, plain v) m → r = inr m)); [done|].
  intros k v m r Hk IH Hall.
  apply map_Forall_insert in Hall as [Hv Hall]; [|done].
  rewrite (IH Hall).
  assert (interpolateValue pctx v = inr v) as ->; [|done].
  destruct v; try done. by apply interpolateString_no_brace.
Qed.

Lemma interpolateParams_plain_witness :
  let params : gmap string value :=
    <[ "path" := VString "/etc/motd" ]> {[ "mode" := VInt 420 ]} in
  interpolateParams (lib := example_lib) params
    (example_pctx {[ "path" := VString "elsewhere" ]})
  = inr params.
Proof.
  intros params.
  apply (interpolateParams_plain (lib := example_lib)).
  intros k v Hkv. unfold params in Hkv.
  apply lookup_insert_Some in Hkv as [[_ <-]|[_ Hkv]]; [reflexivity|].
  apply lookup_singleton_Some in Hkv as [_ <-]. exact I.
Defined.

(** ** Shorthand parameters *)

(** X20.  The words [key=value] of a shorthand give the parameter [key] the
    value without the quotes around it, the last word for a key counting;
    the value is cut at the first [=], and what follows belongs to it. *)
Theorem shorthand_pairs_words (words : list (string * string)) :
  Forall (λ kv, kv.1 ≠ "" ∧ GoStr.Contains kv.1 "=" = false) words →
  shorthand_pairs ((λ kv, kv.1 +:+ "=" +:+ kv.2) <$> words)
  = list_to_map
      (reverse ((λ kv, (kv.1, VString (GoStr.Trim kv.2 quote_cutset)))
                  <$> words)).
Proof.
  induction words as [|[key val] words IH] using rev_ind; [done|].
  intros [Hall [Hkey Hval]%Forall_singleton]%Forall_app. cbn [fst snd] in *.
  unfold shorthand_pairs in *. rewrite !fmap_app, foldl_app, IH by done.
  rewrite reverse_app. cbn [fmap list_fmap foldl reverse app fst snd].
  rewrite Index_key by done.
  assert ((0 <? Z.of_nat (String.length key)) = true) as ->.
  { apply Z.ltb_lt. destruct key; [done|]. cbn [String.length]. lia. }
  rewrite Nat2Z.id, take_app_length.
  replace (String.length key + 1)%nat with (String.length (key +:+ "="))
    by (rewrite length_str_app; done).
  rewrite <-str_app_assoc, drop_app_length. done.
Qed.

Lemma shorthand_pairs_words_witness :
  shorthand_pairs ["name=nginx"; "state='present'"; "name=curl"]
  = list_to_map
      [("name", VString "curl"); ("state", VString "present");
       ("name", VString "nginx")].
Proof.
  apply (shorthand_pairs_words
           [("name", "nginx"); ("state", "'present'"); ("name", "curl")]).
  repeat constructor; discriminate.
Defined.

(** X21.  [ExpandShorthand] rewrites the parameters of a task once:
    applied to what it returns it changes nothing, unless the shorthand
    itself has a word for the key [_raw]. *)
Theorem ExpandShorthand_idempotent (task : Task.t) :
  (∀ raw, Task.Params task !! "_raw" = Some (VString raw) →
          GoStr.Contains raw "=" = true →
          shorthand_pairs (GoStr.Fields raw) !! "_raw" = None) →
  ExpandShorthand (ExpandShorthand task) = ExpandShorthand task.
Proof.
  intros Hraw. remember (ExpandShorthand task) as expanded eqn:Hexp.
  unfold ExpandShorthand in Hexp.
  destruct (Task.Params task !! "_raw") as [v|] eqn:Hp.
  2: { subst expanded. unfold ExpandShorthand. by rewrite Hp. }
  destruct v as [| |raw| | | | | | |];
    try (subst expanded; unfold ExpandShorthand; by rewrite Hp).
  destruct (GoStr.Contains raw "=") eqn:Heq; cbn [negb] in Hexp;
    subst expanded; unfold ExpandShorthand, Task.set_Params, Task.set_Module;
    cbn [Task.Params Task.Module].
  - by rewrite (Hraw raw eq_refl Heq).
  - rewrite lookup_singleton_ne; [done|].
    by repeat (destruct (_ || _) || destruct (String.eqb _ _)).
Qed.

Lemma ExpandShorthand_idempotent_witness :
  let task := Task.set_Module "apt" {[ "_raw" := VString "name=nginx" ]}
                Task.empty in
  ExpandShorthand (ExpandShorthand task) = ExpandShorthand task.
Proof.
  intros task. apply ExpandShorthand_idempotent.
  intros raw Hraw _.
  assert (raw = "name=nginx") as -> by (vm_compute in Hraw; congruence).
  vm_compute. reflexivity.
Defined.

(** ** Literals in conditions *)

Lemma rev_rev (s : string) : String.rev (String.rev s) = s.
Proof.
  assert (∀ t u, String.rev_app (String.rev_app t u) "" = String.rev_app u t)
    as Hgen.
  { intros t. induction t as [|c t IH]; intros u; [done|].
    cbn [String.rev_app]. by rewrite IH. }
  unfold String.rev. by rewrite Hgen.
Qed.

Lemma strip_all_fixed fuel encs (s : string) :
  GoStr.strip_one encs s = None → GoStr.strip_all fuel encs s = s.
Proof. intros Hs. destruct fuel; [done|]. cbn [GoStr.strip_all]. by rewrite Hs. Qed.

(** Text in single quotes has no space to trim. *)
Lemma TrimSpace_quoted (text : string) :
  GoStr.TrimSpace ("'" +:+ text +:+ "'") = "'" +:+ text +:+ "'".
Proof.
  unfold GoStr.TrimSpace, GoStr.TrimLeftSpace.
  rewrite (strip_all_fixed _ _ ("'" +:+ text +:+ "'"))
    by (rewrite app_String; vm_compute; reflexivity).
  unfold GoStr.TrimRightSpace.
  rewrite strip_all_fixed; [apply rev_rev|].
  rewrite <-str_app_assoc, rev_str_app.
  change (String.rev "'") with "'". rewrite app_String.
  vm_compute. reflexivity.
Qed.

(** X22.  In a condition, text between two single quotes stands for itself,
    whatever variables exist and also when it reads [true] or [false]. *)
Theorem resolveValue_quoted (text : string) (pctx : PlayContext.t) :
  resolveValue ("'" +:+ text +:+ "'") pctx = Returns (VString text).
Proof.
  unfold resolveValue. rewrite TrimSpace_quoted.
  assert (quoted_by "'" ("'" +:+ text +:+ "'") = true) as ->.
  { unfold quoted_by, GoStr.HasPrefix. rewrite prefix_app. cbn [andb].
    rewrite <-str_app_assoc. apply HasSuffix_app. }
  cbn [orb]. unfold GoStr.slice.
  rewrite app_String, app_empty_l. cbn [GoStr.drop String.length].
  rewrite length_str_app. cbn [String.length].
  assert ((S (String.length text + 1) <? 2)%nat = false) as ->
    by (apply Nat.ltb_ge; lia).
  replace (S (String.length text + 1) - 1 - 1)%nat with (String.length text)
    by lia.
  by rewrite take_app_length.
Qed.

(** ** The registry of modules *)

Section RegistryFacts.
Context {M : Type}.
Variable Name : M → string.

Lemma register_all_panicked (ms : list M) :
  foldl (λ acc m, acc ≫= Register Name m) None ms = None.
Proof. by induction ms. Qed.

Lemma register_all_spec (ms : list M) (registry : gmap string M) :
  match register_all Name ms registry with
  | Some registry' =>
      NoDup (Name <$> ms)
      ∧ (∀ m, m ∈ ms → registry !! Name m = None)
      ∧ ∀ name m,
          Get name registry' = Some m
          ↔ registry !! name = Some m ∨ (m ∈ ms ∧ Name m = name)
  | None =>
      ¬ (NoDup (Name <$> ms) ∧ ∀ m, m ∈ ms → registry !! Name m = None)
  end.
Proof.
  revert registry. induction ms as [|m ms IH]; intros registry.
  - cbn. split_and!; [constructor|by intros ? ?%elem_of_nil|].
    intros name m. split; [by left|]. intros [?|[?%elem_of_nil _]]; done.
  - unfold register_all. cbn [foldl mbind option_bind]. unfold Register at 2.
    destruct (registry !! Name m) as [old|] eqn:Hold.
    { rewrite register_all_panicked. intros [_ Hfree].
      specialize (Hfree m (list_elem_of_here _ _)). congruence. }
    specialize (IH (<[Name m:=m]> registry)). unfold register_all in IH.
    destruct (foldl _ (Some (<[Name m:=m]> registry)) ms) as [registry'|].
    + destruct IH as (Hnodup & Hfree & Hget). split_and!.
      * rewrite fmap_cons. constructor; [|done].
        intros (m' & Hname & Hin)%list_elem_of_fmap.
        specialize (Hfree m' Hin). rewrite <-Hname in Hfree.
        by rewrite lookup_insert_eq in Hfree.
      * intros m' [->|Hin]%elem_of_cons; [done|].
        specialize (Hfree m' Hin).
        by apply lookup_insert_None in Hfree as [? _].
      * intros name m'. rewrite Hget, elem_of_cons, lookup_insert_Some.
        split.
        -- intros [[[<- <-]|[_ ?]]|[? ?]]; auto.
        -- intros [Hreg|[[->|Hin] Hname]]; auto.
           left. right. split; [|done]. intros <-. congruence.
    + intros [Hnodup Hfree]. apply IH. rewrite fmap_cons in Hnodup.
      apply NoDup_cons in Hnodup as [Hfresh Hnodup]. split; [done|].
      intros m' Hin. apply lookup_insert_None. split.
      * apply Hfree. by apply list_elem_of_further.
      * intros Hname. apply Hfresh, list_elem_of_fmap. by exists m'.
Qed.

(** X23.  Registering modules one after the other into the empty registry
    panics exactly when two of them have the same name; otherwise [Get]
    returns for a name the module that has it, and nil for a name that none
    has. *)
Theorem register_all_Get (ms : list M) :
  (is_Some (register_all Name ms ∅) ↔ NoDup (Name <$> ms))
  ∧ ∀ registry, register_all Name ms ∅ = Some registry →
      ∀ name m, Get name registry = Some m ↔ m ∈ ms ∧ Name m = name.
Proof.
  pose proof (register_all_spec ms ∅) as Hspec.
  destruct (register_all Name ms ∅) as [registry|].
  - destruct Hspec as (Hnodup & _ & Hget). split.
    + split; [done|by eexists].
    + intros ? [= <-] name m. rewrite Hget, lookup_empty.
      split; [by intros [?|?]|by right].
  - split; [|done]. split; [by intros [? ?]|].
    intros Hnodup. destruct Hspec. split; [done|].
    intros m _. apply lookup_empty.
Qed.

End RegistryFacts.

(** ** Loops in a dry run *)

(** X24.  In a dry run every iteration of a loop is skipped, and when
    none fails the loop task itself returns the status [ok], not
    [skipped]; no module has run and the world is as it was. *)
Theorem runTaskLoop_dry_run_ok {lib : GoLib} {World : Type}
    {host : Host World} (e : Executor.t) (task : Task.t) (st : state World)
    result task' st' :
  Executor.DryRun e = true →
  runTaskLoop e task st = (Done result, task', st') →
  result = TaskResult.mk "ok" false ∅ None
  ∧ world st' = world st
  ∧ module_runs (trace st') = module_runs (trace st).
Proof.
  intros Hdry. unfold runTaskLoop.
  match goal with
  | |- context [loop_items e ?v ?i ?l ?a task st] =>
      destruct (loop_items_dry_run e Hdry v i l a task st) as [Hno Hch];
      destruct (loop_items e v i l a task st)
        as [[[[r err]|anyChanged] task1] st1]
  end; cbn [fst snd] in Hno, Hch; [done|].
  rewrite (Hch anyChanged eq_refl). intros [= <- <- <-].
  destruct Hno as (Hw & _ & Hm & _). done.
Qed.

Lemma runTaskLoop_dry_run_ok_witness :
  let task := Task.mk "install" "touch" ∅ "" "" "" []
                [VString "a"; VString "b"] "" false 0 0 None "" "" "" in
  (runTaskLoop (lib := example_lib) (host := example_host)
     (Executor.mk true false) task (State (example_pctx ∅) 0%nat [])).1.1
  = Done (TaskResult.mk "ok" false ∅ None).
Proof.
  intros task.
  destruct (runTaskLoop (lib := example_lib) (host := example_host)
              (Executor.mk true false) task (State (example_pctx ∅) 0%nat []))
    as [[[result|result err] task'] st'] eqn:Hrun.
  - destruct (runTaskLoop_dry_run_ok (lib := example_lib)
                (host := example_host) (Executor.mk true false) task
                (State (example_pctx ∅) 0%nat []) result task' st' eq_refl Hrun)
      as (-> & _).
    reflexivity.
  - vm_compute in Hrun. discriminate.
Defined.

(** ** Errors that are ignored *)

Lemma ExpandShorthand_IgnoreErrors (task : Task.t) :
  Task.IgnoreErrors (ExpandShorthand task) = Task.IgnoreErrors task.
Proof.
  unfold ExpandShorthand.
  destruct (Task.Params task !! "_raw") as [[]|]; try done.
  by destruct (negb _).
Qed.

Section IgnoreFacts.
Context {lib : GoLib} {World : Type} {host : Host World}.

Implicit Types (st : state World) (task : Task.t).

Lemma runSingleTask_IgnoreErrors e task st :
  Task.IgnoreErrors (runSingleTask e task st).1.2 = Task.IgnoreErrors task.
Proof.
  unfold runSingleTask.
  destruct (module_Get _) as [run|]; [|apply ExpandShorthand_IgnoreErrors].
  destruct (interpolateParams _ _) as [err|params];
    [apply ExpandShorthand_IgnoreErrors|].
  destruct (Executor.DryRun e); [apply ExpandShorthand_IgnoreErrors|].
  match goal with
  | |- context [attempts ?m ?a ?x ?r ?n ?t ?p ?s] =>
      destruct (attempts m a x r n t p s) as [[lastErr|res] st1]
  end; apply ExpandShorthand_IgnoreErrors.
Qed.

Lemma loop_items_IgnoreErrors e loopVar i items anyChanged task st :
  Task.IgnoreErrors (loop_items e loopVar i items anyChanged task st).1.2
  = Task.IgnoreErrors task.
Proof.
  revert i anyChanged task st.
  induction items as [|item rest IH]; intros i anyChanged task st; [done|].
  cbn [loop_items].
  match goal with
  | |- context [runSingleTask e task ?s] =>
      pose proof (runSingleTask_IgnoreErrors e task s) as Hsame;
      destruct (runSingleTask e task s) as [[[result|result err] task1] st1]
  end; cbn [fst snd] in Hsame |- *; [|exact Hsame].
  by rewrite IH.
Qed.

Lemma runTask_IgnoreErrors e task st :
  Task.IgnoreErrors (runTask e task st).1.2 = Task.IgnoreErrors task.
Proof.
  assert (Task.IgnoreErrors
            (if bool_decide (0 < length (Task.Loop task))%nat
             then runTaskLoop e task st else runSingleTask e task st).1.2
          = Task.IgnoreErrors task) as Hrun.
  { destruct (bool_decide _); [|apply runSingleTask_IgnoreErrors].
    unfold runTaskLoop.
    match goal with
    | |- context [loop_items e ?v ?i ?l ?a task st] =>
        pose proof (loop_items_IgnoreErrors e v i l a task st) as Hsame;
        destruct (loop_items e v i l a task st)
          as [[[[result err]|anyChanged] task1] st1]
    end; exact Hsame. }
  destruct (runTask_cases e task st)
    as [(result & task' & st' & Heq & ->)|[[msg ->]|[[err ->]| ->]]];
    [|done..].
  by rewrite Heq in Hrun.
Qed.

(** X25.  Tasks that all have [ignore_errors] never end the run of the
    tasks of a play with an error: whatever fails, the loop over the tasks
    returns no error. *)
Theorem tasks_loop_ignore_errors e (tasks : list Task.t) (stats : Stats.t) st :
  Forall (λ task, Task.IgnoreErrors task = true) tasks →
  match (tasks_loop e tasks stats st).1.1 with
  | Returns err => err = None
  | Panics _ => True
  end.
Proof.
  intros Hall. revert stats st.
  induction Hall as [|task rest Htask _ IH]; intros stats st; [done|].
  cbn [tasks_loop].
  pose proof (runTask_IgnoreErrors e task st) as Hsame.
  destruct (runTask e task st) as [[[[result|result err]|msg] task1] st1];
    cbn [fst snd] in Hsame; [apply IH| |done].
  rewrite Hsame, Htask. cbn [negb]. apply IH.
Qed.

End IgnoreFacts.

Lemma tasks_loop_ignore_errors_witness :
  (tasks_loop (lib := example_lib) (host := example_host) run_for_real
     [failing_loop_task;
      Task.mk "clean up" "fail" ∅ "" "" "" [] [] "" true 0 0 None "" "" ""]
     (Stats.mk 1 0 0 0 0 0) (State (example_pctx ∅) 0%nat [])).1.1
  = Returns None.
Proof.
  pose proof (tasks_loop_ignore_errors (lib := example_lib)
                (host := example_host) run_for_real
                [failing_loop_task;
                 Task.mk "clean up" "fail" ∅ "" "" "" [] [] "" true 0 0 None
                   "" "" ""]
                (Stats.mk 1 0 0 0 0 0) (State (example_pctx ∅) 0%nat []))
    as Hnone.
  destruct (tasks_loop _ _ _ _).1.1 as [err|msg] eqn:Hloop.
  - f_equal. apply Hnone. repeat constructor.
  - vm_compute in Hloop. discriminate.
Defined.

(** ** The parameters after interpolation *)

(** X26.  [interpolateParams] keeps the keys: when it succeeds, the result
    has for each parameter, and for nothing else, the interpolation of its
    value; and when it fails, the error is that of one of the parameters,
    under the name of that parameter. *)
Theorem interpolateParams_keys {lib : GoLib} (params : gmap string value)
    (pctx : PlayContext.t) :
  match interpolateParams params pctx with
  | inr result =>
      ∀ k, interpolateValue pctx <$> params !! k = inr <$> result !! k
  | inl err =>
      ∃ k v cause,
        params !! k = Some v
        ∧ interpolateValue pctx v = inl cause
        ∧ err = "parameter '" +:+ k +:+ "': " +:+ cause
  end.
Proof.
  unfold interpolateParams.
  apply (map_fold_weak_ind
           (λ r m,
              match r with
              | inr result =>
                  ∀ k, interpolateValue pctx <$> m !! k = inr <$> result !! k
              | inl err =>
                  ∃ k v cause,
                    m !! k = Some v
                    ∧ interpolateValue pctx v = inl cause
                    ∧ err = "parameter '" +:+ k +:+ "': " +:+ cause
              end)).
  { intros k. by rewrite !lookup_empty. }
  intros k v m r Hk IH.
  destruct (interpolateValue pctx v) as [cause|interpolated] eqn:Hv.
  { exists k, v, cause. by rewrite lookup_insert_eq. }
  destruct r as [err|result].
  - destruct IH as (k' & v' & cause & Hk' & Hv' & ->).
    exists k', v', cause. split; [|done].
    rewrite lookup_insert_ne; [done|]. intros ->. congruence.
  - intros k'. destruct (decide (k = k')) as [<-|Hne].
    + rewrite !lookup_insert_eq. cbn. by rewrite Hv.
    + rewrite !lookup_insert_ne by done. apply IH.
Qed.

(** ** What a run returns *)

(** X27.  When [Run] returns, it returns no error, and [Success] is true
    exactly when every play of the playbook, run by [runPlay] from where
    the play before it left off, returns without error: then all plays
    were started and no error is in the output; otherwise the plays
    before some play returned without error, that play returned an error,
    which is reported once, and the plays after it were not started.  And
    when [Run] panics, a play has panicked after the plays before it
    returned without error. *)
Theorem Run_success_iff_plays_succeed {lib : GoLib} {World : Type}
    {host : Host World} (e : Executor.t) (pb : Playbook.t) (w : World) :
  let plays := Playbook.Plays pb in
  let stats0 := Stats.mk (Z.of_nat (length plays)) 0 0 0 0 0 in
  let start := [OutPlaybookStart (Playbook.Path pb)] in
  match Run e pb w with
  | (Returns (result, err), w', out) =>
      let stats := RunResult.Stats result in
      err = None
      ∧ (RunResult.Success result = true
         ↔ ∃ stats1 w1 out1,
             plays_succeed e plays stats0 w start stats1 w1 out1)
      ∧ if RunResult.Success result then
          (∃ out1,
             plays_succeed e plays stats0 w start stats w' out1
             ∧ out = out1 ++ [OutPlaybookEnd stats])
          ∧ play_starts out = plays ∧ errors out = []
        else
          (∃ before play rest failure stats1 w1 out1 out2,
             plays = before ++ play :: rest
             ∧ plays_succeed e before stats0 w start stats1 w1 out1
             ∧ runPlay e play stats1 w1 out1
               = (Returns (Some failure), stats, w', out2)
             ∧ out = out2 ++ [OutError failure; OutPlaybookEnd stats])
          ∧ (∃ before play rest failure,
               plays = before ++ play :: rest
               ∧ play_starts out = before ++ [play]
               ∧ errors out = [failure])
  | (Panics msg, w', out) =>
      ∃ before play rest stats1 w1 out1 stats2,
        plays = before ++ play :: rest
        ∧ plays_succeed e before stats0 w start stats1 w1 out1
        ∧ runPlay e play stats1 w1 out1 = (Panics msg, stats2, w', out)
  end.
Proof.
  intros plays stats0 start. unfold Run. fold plays stats0 start.
  pose proof (plays_loop_runs e plays stats0 w start) as Hruns.
  pose proof (plays_loop_true_iff e plays stats0 w start) as Hiff.
  destruct (plays_loop_spec e plays stats0 w start) as (evs & Htr & Hspec).
  destruct (plays_loop e plays stats0 w start)
    as [[[[success|msg] stats] w'] out].
  2: { destruct Hruns as (before & play & rest & s1 & w1 & o1 & Hp & Hb & Hr).
       by exists before, play, rest, s1, w1, o1, stats. }
  cbn [fst snd] in Htr, Hspec, Hiff. subst out.
  cbn [RunResult.Success RunResult.Stats].
  assert (∀ end_, play_starts ((start ++ evs) ++ end_)
                  = play_starts evs ++ play_starts end_
                  ∧ errors ((start ++ evs) ++ end_)
                    = errors evs ++ errors end_) as Hends.
  { intros end_. by rewrite !play_starts_app, !errors_app. }
  split; [done|]. split.
  { rewrite <-Hiff. split; [by intros ->|by intros [= ->]]. }
  destruct success.
  - destruct Hspec as [Hps Her]. split; [by eexists|].
    destruct (Hends [OutPlaybookEnd stats]) as [-> ->].
    rewrite Hps, Her. cbn. by rewrite app_nil_r.
  - destruct Hruns as (before & play & rest & failure & s1 & w1 & o1 & o2
                       & Hp & Hb & Hr & Hout).
    split.
    + exists before, play, rest, failure, s1, w1, o1, o2.
      split_and!; try done. rewrite Hout. by rewrite <-app_assoc.
    + destruct Hspec as (before' & play' & rest' & failure' & Hp' & Hps & Her).
      exists before', play', rest', failure'. split; [done|].
      destruct (Hends [OutPlaybookEnd stats]) as [-> ->].
      rewrite Hps, Her. cbn. by rewrite app_nil_r.
Qed.
